(** * NaijaSolarOps: the sizing and estimation engine of [app.py]

    A shallow embedding of the solar calculator: the irradiance resolver
    [get_sun_hours], the collection of the selected appliances, the load
    analysis loop, the hardware sizing, the financials and the energy
    balance check.

    The program computes with Python [int]s and [float]s.  The [int]s are
    [Z].  The [float] arithmetic is an interface, [Float], and the program
    is embedded once, over any instance of it.  Two instances are given:

    - [binary64]: IEEE 754 double precision as the Standard Library
      specifies it ([SpecFloat], round to nearest even), which is what
      Python's [float] is.  This is the program.
    - [exact]: the rationals [Q], every operation without rounding.  This
      is the arithmetic in which the formulas of the specification are
      written.  A property proved for [exact] only is a property of the
      program where no float operation rounds, or where rounding cannot
      change the outcome (the inverter tiers, the battery count as a
      function of the night load, the order of the panel counts).

    The first part holds the program and the properties that do not depend
    on rounding; the last part, "The program in binary64", specifies the
    rounding of [SpecFloat] and proves what the load sums, the panel count
    and the energy balance are in binary64. *)

From Stdlib Require Import ZArith QArith Qround Qpower Lqa Lia.
From Stdlib Require Import List String Ascii Bool SpecFloat.
Import ListNotations.

Local Open Scope Z_scope.

(** ** Exceptions and the error monad *)

Inductive exn : Type :=
| ZeroDivisionError            (* float division by zero *)
| OverflowError                (* math.ceil / int of an infinity *)
| ValueError                   (* math.ceil / int of a NaN *)
| GeocoderError (what : string). (* anything the geocoding client raises *)

Inductive result (A : Type) : Type :=
| Ok (a : A)
| Raise (e : exn).

Arguments Ok {A} a.
Arguments Raise {A} e.

Definition bind {A B : Type} (m : result A) (k : A -> result B) : result B :=
  match m with
  | Ok a => k a
  | Raise e => Raise e
  end.

Declare Scope py_scope.
Delimit Scope py_scope with py.
Notation "x <- m ;; k" := (bind m (fun x => k))
  (at level 61, m at next level, right associativity) : py_scope.

(** ** The float interface *)

Class Float (F : Type) : Type := {
  of_int : Z -> F;              (* an [int] operand of a mixed operation *)
  lit    : Q -> F;              (* a decimal literal of the source text *)
  fadd   : F -> F -> F;
  fmul   : F -> F -> F;
  fdiv   : F -> F -> result F;  (* [/]: raises on a zero divisor *)
  flt    : F -> F -> bool;      (* [<] *)
  ceil   : F -> result Z;       (* [math.ceil] *)
  int_   : F -> result Z        (* [int(...)]: truncation toward zero *)
}.

(** [a > b] is [b < a]. *)
Definition fgt {F} `{Float F} (a b : F) : bool := flt b a.

(** *** Exact rationals *)

Definition Qtrunc (x : Q) : Z := Z.quot (Qnum x) (Zpos (Qden x)).

Definition Qltb (a b : Q) : bool := negb (Qle_bool b a).

Definition Qdiv_py (a b : Q) : result Q :=
  if Qeq_bool b 0 then Raise ZeroDivisionError else Ok (a / b)%Q.

#[export] Instance exact : Float Q := {|
  of_int := inject_Z;
  lit    := fun q => q;
  fadd   := Qplus;
  fmul   := Qmult;
  fdiv   := Qdiv_py;
  flt    := Qltb;
  ceil   := fun x => Ok (Qceiling x);
  int_   := fun x => Ok (Qtrunc x)
|}.

(** *** IEEE 754 binary64 *)

Module B64.

Definition prec : Z := 53.
Definition emax : Z := 1024.

(** An [int] operand of a float operation.  The ints of the program are
    watts, quantities, voltages and counts, far below [2^53], which floats
    hold exactly; for an int beyond the range of the floats Python raises
    [OverflowError] where this rounds to an infinity, and such ints are
    outside this model. *)
Definition of_Z (z : Z) : spec_float := binary_normalize prec emax z 0 false.

(** A decimal literal [n/d] with [n] and [d] below [2^53] is the correctly
    rounded quotient of two floats that hold [n] and [d] exactly. *)
Definition of_lit (q : Q) : spec_float :=
  SFdiv prec emax (of_Z (Qnum q)) (of_Z (Zpos (Qden q))).

Definition is_zero (x : spec_float) : bool :=
  match x with
  | S754_zero _ => true
  | _ => false
  end.

Definition div (a b : spec_float) : result spec_float :=
  if is_zero b then Raise ZeroDivisionError else Ok (SFdiv prec emax a b).

(** The signed mantissa [m] of a finite float [m * 2^e]. *)
Definition signed (s : bool) (m : positive) : Z :=
  if s then Zneg m else Zpos m.

Definition ceil (x : spec_float) : result Z :=
  match x with
  | S754_zero _ => Ok 0
  | S754_infinity _ => Raise OverflowError
  | S754_nan => Raise ValueError
  | S754_finite s m e =>
      if 0 <=? e then Ok (signed s m * 2 ^ e)
      else Ok (- ((- signed s m) / 2 ^ (- e)))
  end.

Definition trunc (x : spec_float) : result Z :=
  match x with
  | S754_zero _ => Ok 0
  | S754_infinity _ => Raise OverflowError
  | S754_nan => Raise ValueError
  | S754_finite s m e =>
      if 0 <=? e then Ok (signed s m * 2 ^ e)
      else Ok (Z.quot (signed s m) (2 ^ (- e)))
  end.

End B64.

#[export] Instance binary64 : Float spec_float := {|
  of_int := B64.of_Z;
  lit    := B64.of_lit;
  fadd   := SFadd B64.prec B64.emax;
  fmul   := SFmul B64.prec B64.emax;
  fdiv   := B64.div;
  flt    := SFltb;
  ceil   := B64.ceil;
  int_   := B64.trunc
|}.

(** ** 1. Market data *)

Module PRICES.
Definition panel_500w : Z := 145000.
Definition battery_220ah : Z := 340000.
Definition inverter_3kva : Z := 650000.
Definition inverter_5kva : Z := 1100000.
Definition inverter_10kva : Z := 2600000.
Definition install_base : Z := 150000.
Definition install_heavy : Z := 350000.
End PRICES.

(** The dict [SOLAR_DATA], in insertion order (the order of iteration). *)
Definition SOLAR_DATA : list (string * Q) :=
  [ ("Lagos", 4.4); ("Abuja", 5.2); ("Kano", 5.8); ("Ibadan", 4.6);
    ("Port Harcourt", 3.8); ("Enugu", 4.5); ("Sokoto", 6.0) ]%string%Q.

Record appliance : Type := mk_appliance {
  name  : string;
  watts : Z;
  surge : bool
}.

Definition Essentials : string := "Essentials".
Definition WorkTech : string := "Work & Tech".
Definition KitchenCooling : string := "Kitchen & Cooling".
Definition HeavyDuty : string := "Heavy Duty".

(** The dict [APPLIANCES], in insertion order. *)
Definition APPLIANCES : list (string * list appliance) :=
  [ (Essentials,
      [ mk_appliance "LED Bulb" 10 false;
        mk_appliance "Ceiling Fan (Ox)" 85 false;
        mk_appliance "Standing Fan" 55 false;
        mk_appliance "Phone/Tablet" 15 false;
        mk_appliance "Router/WiFi" 12 false ]);
    (WorkTech,
      [ mk_appliance "Laptop (Mac/HP)" 65 false;
        mk_appliance "Starlink Kit" 75 false;
        mk_appliance "Monitor (24in)" 35 false;
        mk_appliance "Desktop PC" 250 false ]);
    (KitchenCooling,
      [ mk_appliance "Small Fridge" 120 true;
        mk_appliance "Medium Freezer" 250 true;
        mk_appliance "Big Freezer (Chest)" 350 true;
        mk_appliance "Inverter AC (1HP)" 900 true;
        mk_appliance "Inverter AC (1.5HP)" 1400 true ]);
    (HeavyDuty,
      [ mk_appliance "Pumping Machine (Sumo)" 750 true;
        mk_appliance "Washing Machine" 500 true;
        mk_appliance "Electric Kettle" 1500 false;
        mk_appliance "Microwave" 1200 false;
        mk_appliance "Ironing (Steam)" 1500 false ]) ]%string.

(** ** Strings: [str.lower] and the [in] substring test

    A Python [str] is its UTF-8 text, a [string] of bytes; one text occurs
    in another as a run of characters exactly when its bytes occur as a run
    of bytes.  [str.lower] follows the Unicode tables (it sends the Kelvin
    sign to [k], for one), so the program takes it as a parameter, [lower],
    about which nothing is assumed.  On text made of ASCII characters only
    it is [ascii_lower]. *)

Definition lower_ascii (c : ascii) : ascii :=
  let n := N_of_ascii c in
  if ((65 <=? n) && (n <=? 90))%N then ascii_of_N (n + 32) else c.

Fixpoint ascii_lower (s : string) : string :=
  match s with
  | EmptyString => EmptyString
  | String c rest => String (lower_ascii c) (ascii_lower rest)
  end.

(** [contains needle hay] is Python's [needle in hay]. *)
Fixpoint contains (needle hay : string) : bool :=
  String.prefix needle hay ||
  match hay with
  | EmptyString => false
  | String _ rest => contains needle rest
  end.

(** ** The program, over any float arithmetic *)

Inductive OperatingMode : Type := Reliability | SmartSaver.

(** The two options of the "System Mode" radio. *)
Definition mode_label (m : OperatingMode) : string :=
  match m with
  | Reliability => "Reliability (24/7)"
  | SmartSaver => "Smart Saver (Day Only)"
  end.

Section Program.

Context {F : Type} `{Float F}.

(** [str.lower]. *)
Variable lower : string -> string.

Local Open Scope py_scope.

(** *** 2. Logic functions: [get_sun_hours] *)

(** What [geolocator.geocode] hands back when it finds the place. *)
Record Location : Type := mk_location { latitude : F }.

(** The second component of the result.  Each constructor holds what the
    message interpolates; [render] builds the text. *)
Inductive note : Type :=
| Historical (key : string)
| Detected (lat hours : F)
| NigeriaAverage.

Definition render (fmt_2f repr : F -> string) (n : note) : string :=
  match n with
  | Historical key => "Using historical data for " ++ key
  | Detected lat hours =>
      "Detected Lat: " ++ fmt_2f lat ++ " (Est. Sun: " ++ repr hours ++ "h)"
  | NigeriaAverage => "Using Nigeria Average (4.6h)"
  end%string.

(** The [for key in SOLAR_DATA] loop: the first key, in table order, whose
    lower-cased text occurs in the lower-cased city name. *)
Fixpoint lookup_table (table : list (string * Q)) (city_name : string)
  : option (F * note) :=
  match table with
  | [] => None
  | (key, hours) :: rest =>
      if contains (lower key) (lower city_name)
      then Some (lit hours, Historical key)
      else lookup_table rest city_name
  end.

(** The latitude bands. *)
Definition band (lat : F) : F :=
  if fgt lat (of_int 11) then lit 5.8
  else if fgt lat (of_int 9) then lit 5.2
  else if fgt lat (of_int 7) then lit 4.6
  else lit 4.0.

(** The body of the [try]: the call to the geocoder may raise; a found
    location returns from the function, no location falls through. *)
Definition try_geocode (geocode : string -> result (option Location))
    (city_name : string) : result (option (F * note)) :=
  location <- geocode (city_name ++ ", Nigeria")%string ;;
  match location with
  | Some loc =>
      let lat := latitude loc in
      let hours := band lat in
      Ok (Some (hours, Detected lat hours))
  | None => Ok None
  end.

Definition get_sun_hours (geocode : string -> result (option Location))
    (city_name : string) : F * note :=
  match lookup_table SOLAR_DATA city_name with
  | Some r => r
  | None =>
      match try_geocode geocode city_name with
      | Ok (Some r) => r
      | Ok None => (lit 4.6, NigeriaAverage)
      | Raise _ => (lit 4.6, NigeriaAverage)      (* except: pass *)
      end
  end.

(** *** 4. Appliance inputs *)

(** An entry of [user_items]: the catalogue fields and the three added
    ones. *)
Record item : Type := mk_item {
  it_name  : string;
  it_watts : Z;
  it_surge : bool;
  qty      : Z;
  hours    : F;
  cat      : string
}.

(** The values of the "Qty" and "Hrs/Day" widgets, by appliance name (the
    widget keys are [q_<name>] and [h_<name>]). *)
Record form : Type := mk_form {
  qty_input : string -> Z;
  hrs_input : string -> F
}.

(** The preset of the "Hrs/Day" widget. *)
Definition def_hr (a : appliance) : F :=
  if 1000 <? watts a then lit 0.5 else lit 6.0.

(** One pass of the inner loop body: append when [qty > 0]. *)
Definition select (fm : form) (category : string) (a : appliance)
  : list item :=
  let q := qty_input fm (name a) in
  let hrs := hrs_input fm (name a) in
  if 0 <? q
  then [mk_item (name a) (watts a) (surge a) q hrs category]
  else [].

Definition collect_from (catalog : list (string * list appliance))
    (fm : form) : list item :=
  flat_map (fun entry => flat_map (select fm (fst entry)) (snd entry))
           catalog.

Definition user_items (fm : form) : list item := collect_from APPLIANCES fm.

(** *** 5. Calculation engine: A. load analysis *)

Record load : Type := mk_load {
  total_daily_wh  : F;
  peak_load_watts : Z;
  night_load_wh   : F;
  heavy_consumers : list (string * F)   (* name and daily use, in Wh *)
}.

Definition load_init : load := mk_load (of_int 0) 0 (of_int 0) [].

Definition daily_use (it : item) : F :=
  fmul (of_int (it_watts it * qty it)) (hours it).

Definition is_heavy (it : item) : bool :=
  existsb (String.eqb (cat it)) [HeavyDuty; KitchenCooling].

Definition smart (mode : OperatingMode) : bool :=
  String.prefix "Smart" (mode_label mode).

(** The body of [for item in user_items]. *)
Definition load_step (mode : OperatingMode) (acc : load) (it : item)
  : load :=
  let d := daily_use it in
  mk_load
    (fadd (total_daily_wh acc) d)
    (peak_load_watts acc + it_watts it * qty it)
    (if smart mode && is_heavy it
     then night_load_wh acc
     else fadd (night_load_wh acc) (fmul d (lit 0.6)))
    (if fgt d (of_int 1000)
     then heavy_consumers acc ++ [(it_name it, d)]
     else heavy_consumers acc).

Definition load_analysis (mode : OperatingMode) (items : list item)
  : load :=
  fold_left (load_step mode) items load_init.

(** *** B. Sizing hardware *)

Definition req_panel_kw (total_daily_wh sun_hours : F) : result F :=
  derated <- fdiv total_daily_wh (lit 0.7) ;;
  fdiv derated (fmul sun_hours (of_int 1000)).

Definition num_panels (total_daily_wh sun_hours : F) : result Z :=
  kw <- req_panel_kw total_daily_wh sun_hours ;;
  units <- fdiv (fmul kw (of_int 1000)) (of_int 500) ;;
  ceil units.

Definition req_inv_watts (peak_load_watts : Z) : F :=
  fmul (of_int peak_load_watts) (lit 1.25).

(** [inv_name, inv_price, sys_v]. *)
Definition inverter (peak_load_watts : Z) : string * Z * Z :=
  let req := req_inv_watts peak_load_watts in
  if flt req (of_int 3000)
  then ("3kVA (24V)"%string, PRICES.inverter_3kva, 24)
  else if flt req (of_int 5000)
  then ("5kVA (48V)"%string, PRICES.inverter_5kva, 48)
  else ("10kVA (48V)"%string, PRICES.inverter_10kva, 48).

Definition num_batteries (night_load_wh : F) (sys_v : Z) : result Z :=
  batt_wh_needed <- fdiv night_load_wh (lit 0.5) ;;
  total_batt_ah <- fdiv batt_wh_needed (of_int sys_v) ;;
  series_string <- fdiv (of_int sys_v) (of_int 12) ;;
  strings_ah <- fdiv total_batt_ah (of_int 220) ;;
  parallel_strings <- ceil strings_ah ;;
  n <- int_ (fmul series_string (of_int parallel_strings)) ;;
  if flt (of_int n) series_string then int_ series_string else Ok n.

(** *** C. Financials, and the energy balance of section 7 *)

Record report : Type := mk_report {
  summary         : load;
  panels          : Z;
  inv_name        : string;
  sys_v           : Z;
  batteries       : Z;
  cost_panels     : Z;
  cost_batts      : Z;
  inv_price       : Z;
  cost_install    : Z;
  total_cost      : Z;
  gen_wh          : F;
  under_provision : bool      (* the [st.warning] branch is taken *)
}.

Definition generation (num_panels : Z) (sun_hours : F) : F :=
  fmul (fmul (of_int (num_panels * 500)) sun_hours) (lit 0.75).

Definition analyse (sun_hours : F) (mode : OperatingMode)
    (items : list item) : result report :=
  let s := load_analysis mode items in
  n_panels <- num_panels (total_daily_wh s) sun_hours ;;
  let '(i_name, i_price, v) := inverter (peak_load_watts s) in
  n_batts <- num_batteries (night_load_wh s) v ;;
  let c_panels := n_panels * PRICES.panel_500w in
  let c_batts := n_batts * PRICES.battery_220ah in
  let c_install :=
    if 24 <? v then PRICES.install_heavy else PRICES.install_base in
  let total := c_panels + c_batts + i_price + c_install in
  let gen := generation n_panels sun_hours in
  Ok (mk_report s n_panels i_name v n_batts c_panels c_batts i_price
                c_install total gen (flt gen (total_daily_wh s))).

(** What pressing "Run Feasibility Analysis" shows: the [st.error]
    message, or the results. *)
Inductive outcome : Type :=
| ValidationError (message : string)
| Results (r : report).

Definition run_analysis (sun_hours : F) (mode : OperatingMode)
    (items : list item) : result outcome :=
  match items with
  | [] => Ok (ValidationError "Please select at least one appliance.")
  | _ :: _ =>
      r <- analyse sun_hours mode items ;;
      Ok (Results r)
  end.

(** The script, from the city to the outcome of the button. *)
Definition app (geocode : string -> result (option Location))
    (city_input : string) (mode : OperatingMode) (fm : form)
  : result outcome :=
  let '(sun_hours, _) := get_sun_hours geocode city_input in
  run_analysis sun_hours mode (user_items fm).

End Program.

Arguments Location F : clear implicits.
Arguments note F : clear implicits.
Arguments item F : clear implicits.
Arguments form F : clear implicits.
Arguments load F : clear implicits.
Arguments report F : clear implicits.
Arguments outcome F : clear implicits.

(** * Properties *)

(** ** The exact instance: how the operations unfold *)

Section ExactArithmetic.

Local Open Scope Q_scope.

Lemma fadd_exact (a b : Q) : fadd a b = a + b.
Proof. reflexivity. Qed.

Lemma fmul_exact (a b : Q) : fmul a b = a * b.
Proof. reflexivity. Qed.

Lemma flt_exact_true (a b : Q) : flt a b = true <-> a < b.
Proof.
  change (flt a b) with (negb (Qle_bool b a)).
  rewrite negb_true_iff. split; intro Hab.
  - apply Qnot_le_lt. intro Hle.
    apply Qle_bool_iff in Hle. congruence.
  - destruct (Qle_bool b a) eqn:E; [|reflexivity].
    apply Qle_bool_iff in E. exfalso. apply (Qlt_not_le _ _ Hab E).
Qed.

Lemma flt_exact_false (a b : Q) : flt a b = false <-> b <= a.
Proof.
  change (flt a b) with (negb (Qle_bool b a)).
  rewrite negb_false_iff. apply Qle_bool_iff.
Qed.

Lemma fdiv_exact (a b : Q) : ~ b == 0 -> fdiv a b = Ok (a / b).
Proof.
  intro Hb. change (fdiv a b) with (Qdiv_py a b). unfold Qdiv_py.
  destruct (Qeq_bool b 0) eqn:E; [|reflexivity].
  apply Qeq_bool_eq in E. contradiction.
Qed.

Lemma fdiv_exact_zero (a b : Q) : b == 0 -> fdiv a b = Raise ZeroDivisionError.
Proof.
  intro Hb. change (fdiv a b) with (Qdiv_py a b). unfold Qdiv_py.
  rewrite (Qeq_eq_bool _ _ Hb). reflexivity.
Qed.

End ExactArithmetic.

(** ** The load analysis, in exact arithmetic *)

Section LoadAnalysis.

Local Open Scope Q_scope.

(** The sum of a sequence of rationals and of a sequence of integers. *)
Definition Qsum (l : list Q) : Q := fold_right Qplus 0 l.
Definition Zsum (l : list Z) : Z := fold_right Z.add 0%Z l.

(** What one item adds to the night load. *)
Definition night_use (mode : OperatingMode) (it : item Q) : Q :=
  if smart mode && is_heavy it then 0 else daily_use it * 0.6.

(** The bounds the widgets and the catalogue put on an entry. *)
Definition well_formed (it : item Q) : Prop :=
  (0 <= it_watts it)%Z /\ (0 <= qty it)%Z /\ 0 <= hours it.

Lemma Qsum_app (l1 l2 : list Q) : Qsum (l1 ++ l2) == Qsum l1 + Qsum l2.
Proof.
  induction l1 as [|x l1 IH]; simpl.
  - ring.
  - rewrite IH. ring.
Qed.

Lemma Qsum_le (A : Type) (f g : A -> Q) (l : list A) :
  Forall (fun x => f x <= g x) l -> Qsum (map f l) <= Qsum (map g l).
Proof.
  induction 1 as [|x l Hx _ IH]; simpl.
  - apply Qle_refl.
  - apply Qplus_le_compat; assumption.
Qed.

Lemma Qsum_scale (A : Type) (f : A -> Q) (c : Q) (l : list A) :
  Qsum (map (fun x => f x * c) l) == Qsum (map f l) * c.
Proof.
  induction l as [|x l IH]; simpl.
  - ring.
  - rewrite IH. ring.
Qed.

Lemma total_fold (mode : OperatingMode) (items : list (item Q)) :
  forall acc,
    total_daily_wh (fold_left (load_step mode) items acc)
    == total_daily_wh acc + Qsum (map daily_use items).
Proof.
  induction items as [|it items IH]; intro acc; simpl fold_left.
  - simpl. ring.
  - rewrite IH. simpl. ring.
Qed.

Lemma peak_fold (mode : OperatingMode) (items : list (item Q)) :
  forall acc,
    peak_load_watts (fold_left (load_step mode) items acc)
    = (peak_load_watts acc
       + Zsum (map (fun it => it_watts it * qty it) items))%Z.
Proof.
  induction items as [|it items IH]; intro acc; simpl fold_left.
  - simpl. lia.
  - rewrite IH. simpl. lia.
Qed.

Lemma night_fold (mode : OperatingMode) (items : list (item Q)) :
  forall acc,
    night_load_wh (fold_left (load_step mode) items acc)
    == night_load_wh acc + Qsum (map (night_use mode) items).
Proof.
  induction items as [|it items IH]; intro acc; simpl fold_left.
  - simpl. ring.
  - rewrite IH.
    change (Qsum (map (night_use mode) (it :: items)))
      with (night_use mode it + Qsum (map (night_use mode) items)).
    assert (Hstep : night_load_wh (load_step mode acc it)
                    == night_load_wh acc + night_use mode it).
    { unfold load_step, night_use. simpl night_load_wh.
      destruct (smart mode && is_heavy it).
      - ring.
      - reflexivity. }
    rewrite Hstep. ring.
Qed.

Lemma total_closed (mode : OperatingMode) (items : list (item Q)) :
  total_daily_wh (load_analysis mode items) == Qsum (map daily_use items).
Proof.
  unfold load_analysis. rewrite total_fold. simpl. ring.
Qed.

Lemma peak_closed (mode : OperatingMode) (items : list (item Q)) :
  peak_load_watts (load_analysis mode items)
  = Zsum (map (fun it => it_watts it * qty it)%Z items).
Proof.
  unfold load_analysis. rewrite peak_fold. reflexivity.
Qed.

Lemma night_closed (mode : OperatingMode) (items : list (item Q)) :
  night_load_wh (load_analysis mode items)
  == Qsum (map (night_use mode) items).
Proof.
  unfold load_analysis. rewrite night_fold. simpl. ring.
Qed.

Lemma daily_use_nonneg (it : item Q) : well_formed it -> 0 <= daily_use it.
Proof.
  intros (Hw & Hq & Hh). unfold daily_use.
  rewrite fmul_exact. apply Qmult_le_0_compat; [|exact Hh].
  change (of_int (it_watts it * qty it)) with (inject_Z (it_watts it * qty it)).
  change 0 with (inject_Z 0). rewrite <- Zle_Qle. nia.
Qed.

Lemma night_use_le (mode : OperatingMode) (it : item Q) :
  well_formed it -> night_use mode it <= daily_use it * 0.6.
Proof.
  intro Hwf. pose proof (daily_use_nonneg it Hwf) as Hd.
  unfold night_use. destruct (smart mode && is_heavy it); lra.
Qed.

Lemma night_use_modes (it : item Q) :
  well_formed it -> night_use SmartSaver it <= night_use Reliability it.
Proof.
  intro Hwf. pose proof (daily_use_nonneg it Hwf) as Hd.
  unfold night_use. change (smart Reliability) with false.
  change (smart SmartSaver) with true. simpl andb.
  destruct (is_heavy it); lra.
Qed.

End LoadAnalysis.

(** ** The selection stage *)

Section Selection.

Context {F : Type} `{Float F}.

(** The selection sequence of the specification: one selected appliance per
    catalogue entry, whatever its quantity. *)
Definition selections (catalog : list (string * list appliance))
    (fm : form F) : list (item F) :=
  flat_map
    (fun entry =>
       map (fun a => mk_item (name a) (watts a) (surge a)
                             (qty_input fm (name a)) (hrs_input fm (name a))
                             (fst entry))
           (snd entry))
    catalog.

(** The selections that take part in the aggregation: [quantity > 0]. *)
Definition selected (catalog : list (string * list appliance))
    (fm : form F) : list (item F) :=
  filter (fun it => 0 <? qty it) (selections catalog fm).

Lemma select_filter (fm : form F) (category : string) (l : list appliance) :
  flat_map (select fm category) l
  = filter (fun it => 0 <? qty it)
      (map (fun a => mk_item (name a) (watts a) (surge a)
                             (qty_input fm (name a)) (hrs_input fm (name a))
                             category) l).
Proof.
  induction l as [|a l IH]; [reflexivity|].
  cbn [flat_map map filter]. rewrite IH. unfold select. cbn [qty].
  destruct (0 <? qty_input fm (name a)); reflexivity.
Qed.

Lemma collect_from_selected (catalog : list (string * list appliance))
    (fm : form F) :
  collect_from catalog fm = selected catalog fm.
Proof.
  unfold collect_from, selected, selections.
  induction catalog as [|[category l] catalog IH]; [reflexivity|].
  cbn [flat_map fst snd]. rewrite filter_app, IH, select_filter.
  reflexivity.
Qed.

Lemma selected_qty_pos (catalog : list (string * list appliance))
    (fm : form F) :
  Forall (fun it => 0 < qty it) (selected catalog fm).
Proof.
  apply Forall_forall. intros it Hin.
  apply filter_In in Hin. destruct Hin as [_ Hq].
  apply Z.ltb_lt. exact Hq.
Qed.

Lemma collect_from_nil (catalog : list (string * list appliance))
    (fm : form F) :
  (forall n, qty_input fm n = 0) -> collect_from catalog fm = [].
Proof.
  intro Hzero. unfold collect_from.
  induction catalog as [|[category l] catalog IH]; [reflexivity|].
  cbn [flat_map fst snd]. rewrite IH, app_nil_r.
  induction l as [|a l IHl]; [reflexivity|].
  cbn [flat_map]. rewrite IHl. unfold select. rewrite Hzero. reflexivity.
Qed.

End Selection.

(** ** The aggregation as the specification words it *)

Section SpecifiedAggregation.

Local Open Scope Q_scope.

(** [dailyEnergyWh = ratedWatts x quantity x hoursPerDay]. *)
Definition dailyEnergyWh (it : item Q) : Q :=
  inject_Z (it_watts it) * inject_Z (qty it) * hours it.

(** [ratedWatts x quantity]. *)
Definition peakPowerW (it : item Q) : Z := (it_watts it * qty it)%Z.

(** The night-load contribution: nothing for the two heavy categories in
    SmartSaver mode, 60% of the daily energy otherwise. *)
Definition nightEnergyWh (mode : OperatingMode) (it : item Q) : Q :=
  match mode with
  | SmartSaver =>
      if (cat it =? KitchenCooling)%string || (cat it =? HeavyDuty)%string
      then 0
      else dailyEnergyWh it * 0.6
  | Reliability => dailyEnergyWh it * 0.6
  end.

Lemma Qsum_ext (A : Type) (f g : A -> Q) (l : list A) :
  (forall x, f x == g x) -> Qsum (map f l) == Qsum (map g l).
Proof.
  intro Hfg. induction l as [|x l IH]; simpl.
  - reflexivity.
  - rewrite IH, Hfg. reflexivity.
Qed.

Lemma daily_use_spec (it : item Q) : daily_use it == dailyEnergyWh it.
Proof.
  unfold daily_use, dailyEnergyWh. rewrite fmul_exact.
  change (of_int (it_watts it * qty it)) with (inject_Z (it_watts it * qty it)).
  rewrite inject_Z_mult. reflexivity.
Qed.

Lemma is_heavy_spec (it : item Q) :
  is_heavy it = (cat it =? KitchenCooling)%string || (cat it =? HeavyDuty)%string.
Proof.
  unfold is_heavy. cbn [existsb]. rewrite orb_false_r. apply orb_comm.
Qed.

Lemma night_use_spec (mode : OperatingMode) (it : item Q) :
  night_use mode it == nightEnergyWh mode it.
Proof.
  unfold night_use, nightEnergyWh. rewrite <- is_heavy_spec.
  destruct mode.
  - change (smart Reliability) with false. cbn [andb].
    rewrite daily_use_spec. reflexivity.
  - change (smart SmartSaver) with true. cbn [andb].
    destruct (is_heavy it); [reflexivity|].
    rewrite daily_use_spec. reflexivity.
Qed.

End SpecifiedAggregation.

(** ** The sizing, in exact arithmetic *)

Section Sizing.

Local Open Scope Q_scope.

(** The number of 500 W units the load calls for, before rounding up. *)
Definition panel_units (total sun : Q) : Q :=
  ((total / 0.7) / (sun * 1000)) * 1000 / 500.

(** The required generation capacity, in watts. *)
Definition required_watts (total sun : Q) : Q :=
  ((total / 0.7) / (sun * 1000)) * 1000.

Lemma num_panels_exact (total sun : Q) :
  0 < sun -> num_panels total sun = Ok (Qceiling (panel_units total sun)).
Proof.
  intro Hsun. unfold num_panels, req_panel_kw.
  rewrite fdiv_exact by (change (lit 0.7) with 0.7; lra). cbn [bind].
  rewrite fdiv_exact
    by (rewrite fmul_exact; change (of_int 1000) with 1000; lra).
  cbn [bind].
  rewrite fdiv_exact by (change (of_int 500) with 500; lra). cbn [bind].
  reflexivity.
Qed.

Lemma num_panels_no_sun (total sun : Q) :
  sun == 0 -> num_panels total sun = Raise ZeroDivisionError.
Proof.
  intro Hsun. unfold num_panels, req_panel_kw.
  rewrite fdiv_exact by (change (lit 0.7) with 0.7; lra). cbn [bind].
  rewrite fdiv_exact_zero; [reflexivity|].
  rewrite fmul_exact, Hsun. ring.
Qed.

Lemma panel_units_closed (total sun : Q) :
  0 < sun -> panel_units total sun * (350 * sun) == total.
Proof.
  intro Hsun. unfold panel_units. field. lra.
Qed.

Lemma panel_units_watts (total sun : Q) :
  panel_units total sun * 500 == required_watts total sun.
Proof.
  unfold panel_units, required_watts.
  generalize (total / 0.7 / (sun * 1000)). intro kw. field.
Qed.


Lemma panel_units_nonneg (total sun : Q) :
  0 < sun -> 0 <= total -> 0 <= panel_units total sun.
Proof.
  intros Hsun Ht.
  apply (Qmult_lt_0_le_reg_r _ _ (350 * sun)); [lra|].
  rewrite panel_units_closed by exact Hsun. lra.
Qed.


End Sizing.

Section SizingInverterBattery.

Local Open Scope Q_scope.

Lemma req_inv_watts_exact (peak : Z) :
  req_inv_watts peak = inject_Z peak * 1.25.
Proof. reflexivity. Qed.

Lemma inverter_3kva (peak : Z) :
  inject_Z peak * 1.25 < 3000 ->
  inverter (F:=Q) peak = ("3kVA (24V)"%string, PRICES.inverter_3kva, 24%Z).
Proof.
  intro Hlt. unfold inverter.
  change (req_inv_watts peak < of_int 3000) in Hlt.
  apply (proj2 (flt_exact_true (req_inv_watts peak) (of_int 3000))) in Hlt.
  rewrite Hlt. reflexivity.
Qed.

Lemma inverter_5kva (peak : Z) :
  3000 <= inject_Z peak * 1.25 -> inject_Z peak * 1.25 < 5000 ->
  inverter (F:=Q) peak = ("5kVA (48V)"%string, PRICES.inverter_5kva, 48%Z).
Proof.
  intros Hge Hlt. unfold inverter.
  change (of_int 3000 <= req_inv_watts peak) in Hge.
  apply (proj2 (flt_exact_false (req_inv_watts peak) (of_int 3000))) in Hge.
  change (req_inv_watts peak < of_int 5000) in Hlt.
  apply (proj2 (flt_exact_true (req_inv_watts peak) (of_int 5000))) in Hlt.
  rewrite Hge, Hlt. reflexivity.
Qed.

Lemma inverter_10kva (peak : Z) :
  5000 <= inject_Z peak * 1.25 ->
  inverter (F:=Q) peak = ("10kVA (48V)"%string, PRICES.inverter_10kva, 48%Z).
Proof.
  intro Hge. unfold inverter.
  assert (Hge3 : 3000 <= inject_Z peak * 1.25) by lra.
  change (of_int 3000 <= req_inv_watts peak) in Hge3.
  apply (proj2 (flt_exact_false (req_inv_watts peak) (of_int 3000))) in Hge3.
  change (of_int 5000 <= req_inv_watts peak) in Hge.
  apply (proj2 (flt_exact_false (req_inv_watts peak) (of_int 5000))) in Hge.
  rewrite Hge3, Hge. reflexivity.
Qed.

Lemma inverter_voltage (peak : Z) :
  snd (inverter (F:=Q) peak) = 24%Z \/ snd (inverter (F:=Q) peak) = 48%Z.
Proof.
  unfold inverter.
  destruct (flt (req_inv_watts peak) (of_int 3000)); [left; reflexivity|].
  destruct (flt (req_inv_watts peak) (of_int 5000)); right; reflexivity.
Qed.

(** [int] of a float that holds an integer is that integer. *)
Lemma Qtrunc_inject (x : Q) (z : Z) : x == inject_Z z -> Qtrunc x = z.
Proof.
  destruct x as [n d]. unfold Qeq, Qtrunc. cbn [Qnum Qden inject_Z].
  intro E. rewrite Z.mul_1_r in E. rewrite E. apply Z.quot_mul. discriminate.
Qed.

Lemma Qltb_inject (n : Z) (x : Q) (z : Z) :
  x == inject_Z z -> Qltb (inject_Z n) x = (n <? z)%Z.
Proof.
  intro E. unfold Qltb. rewrite E.
  destruct (n <? z)%Z eqn:Hnz.
  - apply negb_true_iff. destruct (Qle_bool (inject_Z z) (inject_Z n)) eqn:Hb;
      [|reflexivity].
    apply Qle_bool_iff in Hb. rewrite <- Zle_Qle in Hb.
    apply Z.ltb_lt in Hnz. lia.
  - apply negb_false_iff. apply Qle_bool_iff. rewrite <- Zle_Qle.
    apply Z.ltb_ge in Hnz. exact Hnz.
Qed.

(** The parallel strings the night load calls for. *)
Definition parallel_strings (night : Q) (sys_v : Z) : Z :=
  Qceiling ((night / 0.5 / inject_Z sys_v) / 220).

Lemma num_batteries_exact (night : Q) (sys_v : Z) :
  (sys_v = 24 \/ sys_v = 48)%Z ->
  let series := (sys_v / 12)%Z in
  let product := (series * parallel_strings night sys_v)%Z in
  num_batteries night sys_v
  = Ok (if (product <? series)%Z then series else product).
Proof.
  intros Hv series product.
  assert (Hv0 : ~ inject_Z sys_v == 0).
  { change 0 with (inject_Z 0). rewrite inject_Z_injective. lia. }
  assert (Hseries : inject_Z sys_v / inject_Z 12 == inject_Z series).
  { subst series. destruct Hv as [-> | ->]; reflexivity. }
  unfold num_batteries.
  rewrite fdiv_exact by (change (lit 0.5) with 0.5; lra). cbn [bind].
  rewrite fdiv_exact by exact Hv0. cbn [bind].
  rewrite fdiv_exact by (change (of_int 12) with 12; lra). cbn [bind].
  rewrite fdiv_exact by (change (of_int 220) with 220; lra). cbn [bind].
  change (ceil (night / lit 0.5 / of_int sys_v / of_int 220))
    with (Ok (A:=Z) (parallel_strings night sys_v)).
  cbn [bind].
  change (int_ (fmul (of_int sys_v / of_int 12)
                     (of_int (parallel_strings night sys_v))))
    with (Ok (A:=Z) (Qtrunc (inject_Z sys_v / inject_Z 12
                     * inject_Z (parallel_strings night sys_v)))).
  cbn [bind].
  assert (Hprod : Qtrunc (inject_Z sys_v / inject_Z 12
                          * inject_Z (parallel_strings night sys_v))
                  = product).
  { apply Qtrunc_inject. rewrite Hseries. subst product.
    rewrite inject_Z_mult. reflexivity. }
  rewrite Hprod.
  change (flt (of_int product) (of_int sys_v / of_int 12))
    with (Qltb (inject_Z product) (inject_Z sys_v / inject_Z 12)).
  rewrite (Qltb_inject product _ series Hseries).
  destruct (product <? series)%Z; [|reflexivity].
  change (int_ (of_int sys_v / of_int 12))
    with (Ok (A:=Z) (Qtrunc (inject_Z sys_v / inject_Z 12))).
  rewrite (Qtrunc_inject _ series Hseries). reflexivity.
Qed.



Lemma generation_exact (n : Z) (sun : Q) :
  generation n sun = inject_Z (n * 500) * sun * 0.75.
Proof. reflexivity. Qed.

(** With the panel count of the sizing, the estimated generation covers the
    load. *)
Lemma generation_covers (total sun : Q) :
  0 <= total -> 0 < sun ->
  total <= generation (Qceiling (panel_units total sun)) sun.
Proof.
  intros Ht Hsun. rewrite generation_exact, inject_Z_mult.
  pose proof (Qle_ceiling (panel_units total sun)) as Hceil.
  pose proof (panel_units_closed total sun Hsun) as Hclosed.
  revert Hceil Hclosed.
  generalize (inject_Z (Qceiling (panel_units total sun))).
  generalize (panel_units total sun).
  intros u n Hceil Hclosed.
  change (inject_Z 500) with 500. nra.
Qed.

End SizingInverterBattery.

(** ** The resolver *)

Section Resolver.

Context {F : Type} `{Float F}.

Variable lower : string -> string.

(** Every sun-hours value the resolver can return: the table's and the four
    bands' (the fallback 4.6 is among them). *)
Definition sun_values : list Q :=
  (map snd SOLAR_DATA ++ [5.8; 5.2; 4.6; 4.0])%Q.

Lemma lookup_table_value (table : list (string * Q)) (city : string)
    (r : F * note F) :
  lookup_table lower table city = Some r ->
  exists key q, In (key, q) table /\ r = (lit q, Historical key).
Proof.
  induction table as [|[key q] table IH]; cbn [lookup_table]; [discriminate|].
  destruct (contains (lower key) (lower city)).
  - intros [= <-]. exists key, q. split; [left; reflexivity | reflexivity].
  - intro Hrest. destruct (IH Hrest) as (k & q' & Hin & ->).
    exists k, q'. split; [right; exact Hin | reflexivity].
Qed.

Lemma band_value (lat : F) : exists q, In q sun_values /\ band lat = lit q.
Proof.
  unfold band, sun_values.
  destruct (fgt lat (of_int 11)); [exists 5.8%Q|
  destruct (fgt lat (of_int 9)); [exists 5.2%Q|
  destruct (fgt lat (of_int 7)); [exists 4.6%Q|exists 4.0%Q]]];
    (split; [apply in_or_app; right; cbn; tauto | reflexivity]).
Qed.

Lemma get_sun_hours_value (geocode : string -> result (option (Location F)))
    (city : string) :
  exists q, In q sun_values /\ fst (get_sun_hours lower geocode city) = lit q.
Proof.
  assert (Hfallback : exists q, In q sun_values /\ lit (F:=F) 4.6 = lit q).
  { exists 4.6%Q. split; [|reflexivity].
    apply in_or_app; right; cbn; tauto. }
  unfold get_sun_hours.
  destruct (lookup_table lower SOLAR_DATA city) as [r|] eqn:Htable.
  - destruct (lookup_table_value _ _ _ Htable) as (key & q & Hin & ->).
    exists q. split; [|reflexivity].
    apply in_or_app; left. apply (in_map snd) in Hin. exact Hin.
  - unfold try_geocode.
    destruct (geocode (city ++ ", Nigeria")%string) as [[loc|]|e];
      cbn [bind fst]; [apply band_value | exact Hfallback | exact Hfallback].
Qed.

Lemma get_sun_hours_fallback
    (geocode : string -> result (option (Location F))) (city : string) :
  lookup_table (F:=F) lower SOLAR_DATA city = None ->
  (geocode (city ++ ", Nigeria")%string = Ok None
   \/ exists e, geocode (city ++ ", Nigeria")%string = Raise e) ->
  get_sun_hours lower geocode city = (lit 4.6, NigeriaAverage).
Proof.
  intros Htable Hfail. unfold get_sun_hours, try_geocode. rewrite Htable.
  destruct Hfail as [-> | [e ->]]; reflexivity.
Qed.

End Resolver.

Lemma sun_values_positive_exact : Forall (fun q => 0 < q)%Q sun_values.
Proof. repeat constructor. Qed.

Lemma sun_values_positive_binary64 :
  Forall (fun q => flt (F:=spec_float) (of_int 0) (lit q) = true) sun_values.
Proof. repeat constructor. Qed.

(** ** The composed pipeline, in exact arithmetic *)

Section Pipeline.

Local Open Scope Q_scope.

Lemma Qsum_nonneg (A : Type) (f : A -> Q) (l : list A) :
  Forall (fun x => 0 <= f x) l -> 0 <= Qsum (map f l).
Proof.
  induction 1 as [|x l Hx _ IH]; simpl.
  - apply Qle_refl.
  - lra.
Qed.

Lemma Qsum_lt (A : Type) (f g : A -> Q) (l : list A) :
  Forall (fun x => f x <= g x) l -> Exists (fun x => f x < g x) l ->
  Qsum (map f l) < Qsum (map g l).
Proof.
  intros Hle Hex. induction Hex as [x l Hx | x l Hex IH].
  - pose proof (Qsum_le A f g l (Forall_inv_tail Hle)) as Hrest.
    cbn [map Qsum fold_right]. fold (Qsum (map f l)) (Qsum (map g l)). lra.
  - pose proof (Forall_inv Hle) as Hx. cbv beta in Hx.
    specialize (IH (Forall_inv_tail Hle)).
    cbn [map Qsum fold_right]. fold (Qsum (map f l)) (Qsum (map g l)). lra.
Qed.

Lemma total_nonneg (mode : OperatingMode) (items : list (item Q)) :
  Forall well_formed items -> 0 <= total_daily_wh (load_analysis mode items).
Proof.
  intro Hwf. rewrite total_closed. apply Qsum_nonneg.
  apply (Forall_impl _ daily_use_nonneg Hwf).
Qed.

Lemma night_le_total (mode : OperatingMode) (items : list (item Q)) :
  Forall well_formed items ->
  night_load_wh (load_analysis mode items)
  <= total_daily_wh (load_analysis mode items) * 0.6.
Proof.
  intro Hwf. rewrite night_closed, total_closed, <- Qsum_scale.
  apply Qsum_le. apply (Forall_impl _ (night_use_le mode) Hwf).
Qed.

Lemma night_modes_le (items : list (item Q)) :
  Forall well_formed items ->
  night_load_wh (load_analysis SmartSaver items)
  <= night_load_wh (load_analysis Reliability items).
Proof.
  intro Hwf. rewrite !night_closed.
  apply Qsum_le. apply (Forall_impl _ night_use_modes Hwf).
Qed.

Lemma night_use_modes_lt (it : item Q) :
  (cat it = KitchenCooling \/ cat it = HeavyDuty) ->
  (0 < qty it)%Z -> 0 < hours it -> (0 < it_watts it)%Z ->
  night_use SmartSaver it < night_use Reliability it.
Proof.
  intros Hcat Hq Hh Hw. unfold night_use.
  change (smart Reliability) with false. change (smart SmartSaver) with true.
  assert (Hheavy : is_heavy it = true).
  { rewrite is_heavy_spec. destruct Hcat as [-> | ->]; reflexivity. }
  rewrite Hheavy. cbn [andb].
  assert (Hd : 0 < daily_use it).
  { unfold daily_use. rewrite fmul_exact.
    apply Qmult_lt_0_compat; [|exact Hh].
    change (of_int (it_watts it * qty it))
      with (inject_Z (it_watts it * qty it)).
    change 0 with (inject_Z 0). rewrite <- Zlt_Qlt. nia. }
  lra.
Qed.

Lemma night_modes_lt (items : list (item Q)) :
  Forall well_formed items ->
  Exists (fun it => (cat it = KitchenCooling \/ cat it = HeavyDuty)
                    /\ (0 < qty it)%Z /\ 0 < hours it /\ (0 < it_watts it)%Z)
         items ->
  night_load_wh (load_analysis SmartSaver items)
  < night_load_wh (load_analysis Reliability items).
Proof.
  intros Hwf Hex. rewrite !night_closed. apply Qsum_lt.
  - apply (Forall_impl _ night_use_modes Hwf).
  - eapply Exists_impl; [|exact Hex].
    intros it (Hcat & Hq & Hh & Hw). apply night_use_modes_lt; assumption.
Qed.

(** The analysis of a well-formed selection under positive sun hours runs to
    its end and never takes the warning branch. *)
Lemma analyse_never_warns (sun : Q) (mode : OperatingMode)
    (items : list (item Q)) :
  0 < sun -> Forall well_formed items ->
  exists r, analyse sun mode items = Ok r /\ under_provision r = false.
Proof.
  intros Hsun Hwf. unfold analyse.
  pose proof (total_nonneg mode items Hwf) as Htotal.
  set (s := load_analysis mode items) in *.
  rewrite (num_panels_exact _ _ Hsun). cbn [bind].
  pose proof (inverter_voltage (peak_load_watts s)) as Hv.
  destruct (inverter (peak_load_watts s)) as [[i_name i_price] v].
  cbn [snd] in Hv.
  rewrite (num_batteries_exact _ _ Hv). cbn [bind].
  eexists. split; [reflexivity|]. cbn [under_provision].
  apply flt_exact_false. apply generation_covers; assumption.
Qed.

End Pipeline.

(** ** Concrete inputs *)

Section ConcreteInputs.

Context {F : Type} `{Float F}.

(** The "Hrs/Day" presets, by appliance name. *)
Definition preset_hours (n : string) : F :=
  match find (fun a => (name a =? n)%string) (flat_map snd APPLIANCES) with
  | Some a => def_hr a
  | None => lit 6.0
  end.

(** Two LED bulbs and nine routers, hours left at their presets. *)
Definition bulbs_and_routers : form F :=
  mk_form
    (fun n => if (n =? "LED Bulb")%string then 2
              else if (n =? "Router/WiFi")%string then 9 else 0)
    preset_hours.

(** Five LED bulbs for six hours (scenario A). *)
Definition five_bulbs : form F :=
  mk_form (fun n => if (n =? "LED Bulb")%string then 5 else 0)
          (fun _ => lit 6.0).

(** A fridge and five bulbs, hours at their presets. *)
Definition fridge_and_bulbs : form F :=
  mk_form
    (fun n => if (n =? "Small Fridge")%string then 1
              else if (n =? "LED Bulb")%string then 5 else 0)
    preset_hours.

(** Nothing selected. *)
Definition empty_form : form F := mk_form (fun _ => 0) preset_hours.

(** A geocoder that cannot be reached. *)
Definition unreachable : string -> result (option (Location F)) :=
  fun _ => Raise (GeocoderError "timed out").

End ConcreteInputs.

(** ** The claims

    The claims about the inverter, the battery count, the order of the
    panel counts, the resolver and the empty selection, and what the claims
    about the load sums, the panel count and the energy balance say in exact
    arithmetic.  What the latter are in binary64 is in the last part. *)

Section Claims.

Local Open Scope Q_scope.

(** In exact arithmetic: for every selection sequence (a catalogue and the
    values of its widgets) and every mode, the load analysis of the
    collected items gives:
    a total daily energy equal to the sum of ratedWatts x quantity x
    hoursPerDay over the selections with quantity > 0; a peak power equal to
    the sum of ratedWatts x quantity over them; and a night energy equal to
    the sum over them of 0.6 x the daily energy, except that in SmartSaver
    mode the items of category KitchenCooling or HeavyDuty contribute 0. *)
Lemma load_aggregation_exact
    (catalog : list (string * list appliance)) (fm : form Q)
    (mode : OperatingMode) :
  let s := load_analysis mode (collect_from catalog fm) in
  let sel := filter (fun it => (0 <? qty it)%Z) (selections catalog fm) in
  total_daily_wh s == Qsum (map dailyEnergyWh sel)
  /\ peak_load_watts s = Zsum (map peakPowerW sel)
  /\ night_load_wh s == Qsum (map (nightEnergyWh mode) sel).
Proof.
  intros s sel. subst s. rewrite collect_from_selected.
  change (selected catalog fm) with sel.
  split; [|split].
  - rewrite total_closed. apply Qsum_ext. exact daily_use_spec.
  - apply peak_closed.
  - rewrite night_closed. apply Qsum_ext. exact (night_use_spec mode).
Qed.

(** In exact arithmetic: for every total daily energy >= 0 and positive sun
    hours the sizing returns (raises nothing) panelCount = ceiling(((total /
    0.7) / (sun x 1000)) x 1000 / 500); panelCount x 500 W is at least the
    required capacity; and for total = 300, sun = 4.4 the count is 1. *)
Lemma panel_count_exact (total sun : Q) :
  0 <= total -> 0 < sun ->
  let required_kw := (total / 0.7) / (sun * 1000) in
  exists n : Z,
    num_panels total sun = Ok n
    /\ n = Qceiling (required_kw * 1000 / 500)
    /\ required_kw * 1000 <= inject_Z n * 500
    /\ (total == 300 -> sun == 4.4 -> n = 1%Z).
Proof.
  intros Htotal Hsun required_kw.
  exists (Qceiling (panel_units total sun)).
  split; [exact (num_panels_exact total sun Hsun)|].
  split; [reflexivity|].
  split.
  - change (required_kw * 1000) with (required_watts total sun).
    rewrite <- panel_units_watts.
    apply Qmult_le_compat_r; [apply Qle_ceiling | lra].
  - intros E300 E44. unfold panel_units. rewrite E300, E44. reflexivity.
Qed.

(** C3. For every peak power >= 0 the inverter is chosen from the required
    capacity peak x 1.25: below 3000 W the 3kVA class at 24 V, otherwise
    below 5000 W the 5kVA class at 48 V, otherwise the 10kVA class at 48 V;
    a peak of 4200 W requires 5250 W and gets the 10kVA class at 48 V. *)
Theorem C3_inverter_tiers (peak : Z) :
  (0 <= peak)%Z ->
  let required := inject_Z peak * 1.25 in
  req_inv_watts peak == required
  /\ (required < 3000 ->
      inverter (F:=Q) peak
      = ("3kVA (24V)"%string, PRICES.inverter_3kva, 24%Z))
  /\ (3000 <= required -> required < 5000 ->
      inverter (F:=Q) peak
      = ("5kVA (48V)"%string, PRICES.inverter_5kva, 48%Z))
  /\ (5000 <= required ->
      inverter (F:=Q) peak
      = ("10kVA (48V)"%string, PRICES.inverter_10kva, 48%Z))
  /\ (peak = 4200%Z ->
      required == 5250
      /\ inverter (F:=Q) peak
         = ("10kVA (48V)"%string, PRICES.inverter_10kva, 48%Z)).
Proof.
  intros _ required. subst required.
  split; [rewrite req_inv_watts_exact; reflexivity|].
  split; [apply inverter_3kva|].
  split; [apply inverter_5kva|].
  split; [apply inverter_10kva|].
  intros ->. split; reflexivity.
Qed.


(** In exact arithmetic: for every sequence of items with non-negative
    watts, quantity and hours and for every mode, the aggregated night
    energy is at most 0.6 x the total daily energy. *)
Lemma night_bound_exact (mode : OperatingMode) (items : list (item Q)) :
  Forall well_formed items ->
  night_load_wh (load_analysis mode items)
  <= total_daily_wh (load_analysis mode items) * 0.6.
Proof.
  exact (night_le_total mode items).
Qed.

(** In exact arithmetic: for every sequence of items (non-negative watts,
    quantity, hours) the night energy of SmartSaver mode is at most that of
    Reliability mode, and strictly less when some item with quantity > 0,
    positive hours and positive watts is of category KitchenCooling or
    HeavyDuty. *)
Lemma smart_saver_night_exact (items : list (item Q)) :
  Forall well_formed items ->
  let smart_night := night_load_wh (load_analysis SmartSaver items) in
  let reliable_night := night_load_wh (load_analysis Reliability items) in
  smart_night <= reliable_night
  /\ (Exists (fun it => (cat it = KitchenCooling \/ cat it = HeavyDuty)
                        /\ (0 < qty it)%Z /\ 0 < hours it
                        /\ (0 < it_watts it)%Z) items ->
      smart_night < reliable_night).
Proof.
  intros Hwf smart_night reliable_night. split.
  - exact (night_modes_le items Hwf).
  - exact (night_modes_lt items Hwf).
Qed.


(** C8. Whatever [str.lower] does, whatever the geocoder does (a location,
    no location, any exception) and for every location name,
    [get_sun_hours] returns a pair whose sun hours are strictly positive, in
    exact arithmetic and in binary64; and when the name matches no table key
    and the geocoder raises or finds no location, the result is 4.6 hours
    with the "Nigeria Average" note. *)
Theorem C8_resolver_total (lower : string -> string) :
  (forall (geocode : string -> result (option (Location Q))) (city : string),
      0 < fst (get_sun_hours lower geocode city))
  /\ (forall (geocode : string -> result (option (Location spec_float)))
             (city : string),
         flt (of_int 0) (fst (get_sun_hours lower geocode city)) = true)
  /\ (forall (F : Type) (HF : Float F)
             (geocode : string -> result (option (Location F)))
             (city : string) (fmt_2f repr : F -> string),
         lookup_table (F:=F) lower SOLAR_DATA city = None ->
         (geocode (city ++ ", Nigeria")%string = Ok None
          \/ exists e, geocode (city ++ ", Nigeria")%string = Raise e) ->
         get_sun_hours lower geocode city = (lit 4.6, NigeriaAverage)
         /\ render fmt_2f repr (snd (get_sun_hours lower geocode city))
            = "Using Nigeria Average (4.6h)"%string).
Proof.
  split; [|split].
  - intros geocode city.
    destruct (get_sun_hours_value lower geocode city) as (q & Hin & ->).
    exact (proj1 (Forall_forall _ _) sun_values_positive_exact q Hin).
  - intros geocode city.
    destruct (get_sun_hours_value lower geocode city) as (q & Hin & ->).
    exact (proj1 (Forall_forall _ _) sun_values_positive_binary64 q Hin).
  - intros F HF geocode city fmt_2f repr Htable Hfail.
    rewrite (get_sun_hours_fallback lower geocode city Htable Hfail).
    split; reflexivity.
Qed.

(** C9. When every appliance has quantity 0, whatever the float arithmetic,
    [str.lower], the city, the geocoder, the mode and the hours: no item is
    collected, and running the analysis gives the validation error and no
    results; the sizing is not run, whatever the sun hours. *)
Theorem C9_empty_selection
    (F : Type) (HF : Float F) (lower : string -> string)
    (geocode : string -> result (option (Location F)))
    (city : string) (mode : OperatingMode) (fm : form F) :
  (forall n, qty_input fm n = 0%Z) ->
  user_items fm = []
  /\ app lower geocode city mode fm
     = Ok (ValidationError "Please select at least one appliance.")
  /\ (forall r, app lower geocode city mode fm <> Ok (Results r))
  /\ (forall sun_hours,
         run_analysis sun_hours mode (user_items fm)
         = Ok (ValidationError "Please select at least one appliance.")).
Proof.
  intro Hzero.
  assert (Hnil : user_items fm = []) by exact (collect_from_nil _ fm Hzero).
  assert (Happ : app lower geocode city mode fm
                 = Ok (ValidationError
                         "Please select at least one appliance.")).
  { unfold app. destruct (get_sun_hours lower geocode city) as [sun_hours msg].
    rewrite Hnil. reflexivity. }
  split; [exact Hnil|]. split; [exact Happ|]. split.
  - intros r Hr. rewrite Happ in Hr. discriminate Hr.
  - intro sun_hours. rewrite Hnil. reflexivity.
Qed.

(** In exact arithmetic: for every total daily energy > 0 and positive sun
    hours, with the panel count of the sizing, the generation panelCount x
    500 x sunHours x 0.75 is at least the total, so the test [gen_wh <
    total_daily_wh] of the warning is false. *)
Lemma warning_unreachable_exact (total sun : Q) :
  0 < total -> 0 < sun ->
  exists n : Z,
    num_panels total sun = Ok n
    /\ total <= inject_Z n * 500 * sun * 0.75
    /\ generation n sun == inject_Z n * 500 * sun * 0.75
    /\ flt (generation n sun) total = false.
Proof.
  intros Htotal Hsun.
  assert (Hcover : total <= generation (Qceiling (panel_units total sun)) sun)
    by (apply generation_covers; lra).
  exists (Qceiling (panel_units total sun)).
  split; [exact (num_panels_exact total sun Hsun)|].
  assert (Hgen : generation (Qceiling (panel_units total sun)) sun
                 == inject_Z (Qceiling (panel_units total sun))
                    * 500 * sun * 0.75).
  { rewrite generation_exact, inject_Z_mult. reflexivity. }
  split; [rewrite <- Hgen; exact Hcover|].
  split; [exact Hgen|].
  apply flt_exact_false. exact Hcover.
Qed.

End Claims.

(** ** Evaluations on concrete inputs *)

Section Witnesses.

Local Open Scope Q_scope.


Lemma C3_inverter_tiers_witness :
  req_inv_watts (F:=Q) 4200 == 5250
  /\ inverter (F:=Q) 4200
     = ("10kVA (48V)"%string, PRICES.inverter_10kva, 48%Z).
Proof.
  destruct (C3_inverter_tiers 4200) as (Hreq & _ & _ & _ & Hscenario).
  - vm_compute; discriminate.
  - destruct (Hscenario eq_refl) as [H5250 Hinv].
    split; [rewrite Hreq; exact H5250 | exact Hinv].
Defined.



Lemma C8_resolver_total_witness :
  get_sun_hours (F:=Q) ascii_lower unreachable "Jos" = (4.6, NigeriaAverage).
Proof.
  apply (proj2 (proj2 (C8_resolver_total ascii_lower)) Q exact unreachable
           "Jos"%string
           (fun _ => EmptyString) (fun _ => EmptyString)).
  - reflexivity.
  - right. exists (GeocoderError "timed out"). reflexivity.
Defined.

Lemma C9_empty_selection_witness :
  app (F:=Q) ascii_lower unreachable "Ibadan" Reliability empty_form
  = Ok (ValidationError "Please select at least one appliance.").
Proof.
  apply (C9_empty_selection Q exact ascii_lower unreachable "Ibadan"%string
           Reliability empty_form).
  intro n. reflexivity.
Defined.

End Witnesses.

(** ** The program in binary64 *)

Section Binary64.

(** Scenario A: five bulbs for six hours under the Lagos sun need one panel,
    in binary64 as in exact arithmetic. *)
Example scenario_A_binary64 :
  fst (get_sun_hours (F:=spec_float) ascii_lower unreachable "Lagos") = lit 4.4%Q
  /\ total_daily_wh (load_analysis Reliability (user_items five_bulbs))
     = of_int (F:=spec_float) 300
  /\ num_panels (F:=spec_float) (of_int 300) (lit 4.4%Q) = Ok 1.
Proof. vm_compute. repeat split. Qed.

(** Scenarios B and C: one and three 1.5 HP air conditioners. *)
Example scenarios_B_C_binary64 :
  inverter (F:=spec_float) 1400
  = ("3kVA (24V)"%string, PRICES.inverter_3kva, 24)
  /\ inverter (F:=spec_float) 4200
     = ("10kVA (48V)"%string, PRICES.inverter_10kva, 48).
Proof. vm_compute. split; reflexivity. Qed.

(** C5, counterexample.  Two LED bulbs and nine routers at the preset six
    hours, Reliability mode, in binary64: the night load is 460.8 (the sum
    of the rounded 72.0 and 388.8), the total is 768.0 and 768.0 x 0.6
    rounds to 460.79999999999995, one unit in the last place below. *)
Lemma C5_binary64_exceeds :
  let s := load_analysis (F:=spec_float) Reliability
             (user_items bulbs_and_routers) in
  total_daily_wh s = of_int 768
  /\ night_load_wh s = S754_finite false 8106479329266893 (-44)
  /\ fmul (total_daily_wh s) (lit 0.6%Q)
     = S754_finite false 8106479329266892 (-44)
  /\ SFleb (night_load_wh s) (fmul (total_daily_wh s) (lit 0.6%Q)) = false
  /\ flt (fmul (total_daily_wh s) (lit 0.6%Q)) (night_load_wh s) = true.
Proof. vm_compute. repeat split. Qed.

End Binary64.

(** * Further properties of the program *)

From Stdlib Require Import DecimalString DecimalZ DecimalPos.
(** ** The load analysis, whatever the float arithmetic *)

Section LoadAnalysisAnyFloat.

Context {F : Type} `{Float F}.

(** The entries the loop appends to [heavy_consumers]. *)
Definition heavy_entries (items : list (item F)) : list (string * F) :=
  map (fun it => (it_name it, daily_use it))
      (filter (fun it => fgt (daily_use it) (of_int 1000)) items).

Lemma total_fold_any (mode : OperatingMode) (items : list (item F)) :
  forall acc,
    total_daily_wh (fold_left (load_step mode) items acc)
    = fold_left (fun t it => fadd t (daily_use it)) items
                (total_daily_wh acc).
Proof.
  induction items as [|it items IH]; intro acc; [reflexivity|].
  cbn [fold_left]. rewrite IH. reflexivity.
Qed.

Lemma peak_fold_any (mode : OperatingMode) (items : list (item F)) :
  forall acc,
    peak_load_watts (fold_left (load_step mode) items acc)
    = fold_left (fun p it => p + it_watts it * qty it) items
                (peak_load_watts acc).
Proof.
  induction items as [|it items IH]; intro acc; [reflexivity|].
  cbn [fold_left]. rewrite IH. reflexivity.
Qed.

Lemma heavy_fold_any (mode : OperatingMode) (items : list (item F)) :
  forall acc,
    heavy_consumers (fold_left (load_step mode) items acc)
    = heavy_consumers acc ++ heavy_entries items.
Proof.
  induction items as [|it items IH]; intro acc.
  - cbn [fold_left]. unfold heavy_entries. cbn [filter map].
    symmetry. apply app_nil_r.
  - cbn [fold_left]. rewrite IH. unfold heavy_entries, load_step.
    cbn [heavy_consumers filter].
    destruct (fgt (daily_use it) (of_int 1000)).
    + cbn [map]. rewrite <- app_assoc. reflexivity.
    + reflexivity.
Qed.

Lemma night_fold_smart_heavy (items : list (item F)) :
  Forall (fun it => is_heavy it = true) items ->
  forall acc,
    night_load_wh (fold_left (load_step SmartSaver) items acc)
    = night_load_wh acc.
Proof.
  induction 1 as [|it items Hit _ IH]; intro acc; [reflexivity|].
  cbn [fold_left]. rewrite IH. unfold load_step. cbn [night_load_wh].
  rewrite Hit. reflexivity.
Qed.

Lemma night_fold_light (m1 m2 : OperatingMode) (items : list (item F)) :
  Forall (fun it => is_heavy it = false) items ->
  forall acc1 acc2,
    night_load_wh acc1 = night_load_wh acc2 ->
    night_load_wh (fold_left (load_step m1) items acc1)
    = night_load_wh (fold_left (load_step m2) items acc2).
Proof.
  induction 1 as [|it items Hit _ IH]; intros acc1 acc2 Hacc; [exact Hacc|].
  cbn [fold_left]. apply IH. unfold load_step. cbn [night_load_wh].
  rewrite Hit, !andb_false_r, Hacc. reflexivity.
Qed.

Lemma is_heavy_category (it : item F) :
  is_heavy it = true <-> cat it = KitchenCooling \/ cat it = HeavyDuty.
Proof.
  unfold is_heavy. cbn [existsb]. rewrite orb_false_r, orb_true_iff.
  rewrite !String.eqb_eq. tauto.
Qed.

(** X1. The operating mode touches the night load only: the total daily
    energy, the peak power and the list of heavy consumers are the same in
    both modes, and with them the panel count and the inverter. *)
Theorem mode_touches_night_only (items : list (item F)) (sun_hours : F) :
  let r := load_analysis Reliability items in
  let s := load_analysis SmartSaver items in
  total_daily_wh r = total_daily_wh s
  /\ peak_load_watts r = peak_load_watts s
  /\ heavy_consumers r = heavy_consumers s
  /\ num_panels (total_daily_wh r) sun_hours
     = num_panels (total_daily_wh s) sun_hours
  /\ inverter (F:=F) (peak_load_watts r)
     = inverter (F:=F) (peak_load_watts s).
Proof.
  intros r s. subst r s. unfold load_analysis.
  assert (Ht : total_daily_wh (fold_left (load_step Reliability) items load_init)
               = total_daily_wh
                   (fold_left (load_step SmartSaver) items load_init))
    by (rewrite !total_fold_any; reflexivity).
  assert (Hp : peak_load_watts
                 (fold_left (load_step Reliability) items load_init)
               = peak_load_watts
                   (fold_left (load_step SmartSaver) items load_init))
    by (rewrite !peak_fold_any; reflexivity).
  split; [exact Ht|]. split; [exact Hp|].
  split; [rewrite !heavy_fold_any; reflexivity|].
  rewrite Ht, Hp. split; reflexivity.
Qed.

(** X2. After the loop [heavy_consumers] holds, in the order of the items
    and whatever the mode, exactly the items whose daily use is above
    1000 Wh; it is empty exactly when no item is. *)
Theorem heavy_consumers_are_filtered
    (mode : OperatingMode) (items : list (item F)) :
  heavy_consumers (load_analysis mode items)
  = map (fun it => (it_name it, daily_use it))
        (filter (fun it => fgt (daily_use it) (of_int 1000)) items)
  /\ (heavy_consumers (load_analysis mode items) = []
      <-> Forall (fun it => fgt (daily_use it) (of_int 1000) = false) items).
Proof.
  assert (Hlist : heavy_consumers (load_analysis mode items)
                  = heavy_entries items).
  { unfold load_analysis. rewrite heavy_fold_any. reflexivity. }
  split; [exact Hlist|]. rewrite Hlist. unfold heavy_entries.
  clear Hlist. induction items as [|it items IH]; cbn [filter map].
  - split; [constructor | reflexivity].
  - destruct (fgt (daily_use it) (of_int 1000)) eqn:Hgt.
    + cbn [map]. split; [discriminate|].
      intro Hall. apply Forall_inv in Hall. congruence.
    + rewrite IH. split.
      * intro Hall. constructor; assumption.
      * intro Hall. exact (Forall_inv_tail Hall).
Qed.

(** X3. In Smart Saver mode a selection made only of Kitchen & Cooling and
    Heavy Duty items leaves the night load at its initial 0; items of the two
    other categories add the same night load in both modes. *)
Theorem smart_saver_skips_heavy (items : list (item F)) :
  (Forall (fun it => cat it = KitchenCooling \/ cat it = HeavyDuty) items ->
   night_load_wh (load_analysis SmartSaver items) = of_int 0)
  /\ (Forall (fun it => cat it <> KitchenCooling /\ cat it <> HeavyDuty)
             items ->
      night_load_wh (load_analysis SmartSaver items)
      = night_load_wh (load_analysis Reliability items)).
Proof.
  split; intro Hcat; unfold load_analysis.
  - rewrite night_fold_smart_heavy; [reflexivity|].
    apply (Forall_impl _ (fun it => proj2 (is_heavy_category it)) Hcat).
  - apply night_fold_light; [|reflexivity].
    eapply Forall_impl; [|exact Hcat].
    intros it [Hk Hh]. destruct (is_heavy it) eqn:E; [|reflexivity].
    apply is_heavy_category in E. tauto.
Qed.

End LoadAnalysisAnyFloat.

(** ** The resolver: how a name matches the table *)

Section TableMatch.

Context {F : Type} `{Float F}.

Variable lower : string -> string.

(** [key.lower() in city_name.lower()], spelled out: the lower-cased key is
    a run of consecutive characters of the lower-cased name. *)
Definition occurs_in (key city_name : string) : Prop :=
  exists before after : string,
    lower city_name = (before ++ lower key ++ after)%string.

Lemma prefix_iff (p s : string) :
  String.prefix p s = true <-> exists rest, s = (p ++ rest)%string.
Proof.
  revert s. induction p as [|c p IH]; intro s.
  - split; [intros _; exists s; reflexivity|].
    intros _. destruct s; reflexivity.
  - destruct s as [|d s]; cbn [String.prefix].
    + split; [discriminate|]. intros [rest Hrest]. discriminate Hrest.
    + destruct (ascii_dec c d) as [->|Hne].
      * rewrite IH. split; intros [rest Hrest]; exists rest.
        -- cbn. rewrite Hrest. reflexivity.
        -- cbn in Hrest. injection Hrest as Hrest. exact Hrest.
      * split; [discriminate|]. intros [rest Hrest].
        cbn in Hrest. injection Hrest as Hc _. congruence.
Qed.

Lemma contains_iff (needle hay : string) :
  contains needle hay = true
  <-> exists before after, hay = (before ++ needle ++ after)%string.
Proof.
  induction hay as [|c hay IH]; cbn [contains]; rewrite orb_true_iff.
  - split.
    + intros [Hp | Hf]; [|discriminate].
      apply prefix_iff in Hp. destruct Hp as [rest Hrest].
      exists EmptyString, rest. exact Hrest.
    + intros (before & after & Hd). left. apply prefix_iff.
      destruct before as [|b before]; [|discriminate Hd].
      exists after. exact Hd.
  - rewrite IH, prefix_iff. split.
    + intros [[rest Hrest] | (before & after & Hd)].
      * exists EmptyString, rest. exact Hrest.
      * exists (String c before), after. cbn. rewrite Hd. reflexivity.
    + intros (before & after & Hd). destruct before as [|b before].
      * left. exists after. exact Hd.
      * right. cbn in Hd. injection Hd as _ Hd.
        exists before, after. exact Hd.
Qed.

(** Text made of ASCII characters only. *)
Fixpoint ascii_only (s : string) : bool :=
  match s with
  | EmptyString => true
  | String c rest => (N_of_ascii c <? 128)%N && ascii_only rest
  end.

Lemma ascii_lower_app (a b : string) :
  ascii_lower (a ++ b) = (ascii_lower a ++ ascii_lower b)%string.
Proof.
  induction a as [|c a IH]; [reflexivity|].
  cbn. rewrite IH. reflexivity.
Qed.

Lemma ascii_only_app (a b : string) :
  ascii_only (a ++ b) = ascii_only a && ascii_only b.
Proof.
  induction a as [|c a IH]; [reflexivity|].
  cbn [append ascii_only]. rewrite IH, andb_assoc. reflexivity.
Qed.

Lemma lookup_table_none (table : list (string * Q)) (city : string) :
  lookup_table (F:=F) lower table city = None
  <-> Forall (fun e => ~ occurs_in (fst e) city) table.
Proof.
  induction table as [|[key q] table IH]; cbn [lookup_table].
  - split; [constructor | reflexivity].
  - destruct (contains (lower key) (lower city)) eqn:Hc.
    + split; [discriminate|]. intro Hall. apply Forall_inv in Hall.
      exfalso. apply Hall. apply contains_iff. exact Hc.
    + rewrite IH. split.
      * intro Hall. constructor; [|exact Hall].
        cbn [fst]. intro Hocc. apply contains_iff in Hocc. congruence.
      * intro Hall. exact (Forall_inv_tail Hall).
Qed.

Lemma lookup_table_first (earlier later : list (string * Q))
    (key : string) (q : Q) (city : string) :
  Forall (fun e => ~ occurs_in (fst e) city) earlier ->
  occurs_in key city ->
  lookup_table (F:=F) lower (earlier ++ (key, q) :: later) city
  = Some (lit q, Historical key).
Proof.
  intros Hearlier Hocc.
  induction Hearlier as [|[k q'] earlier Hk _ IH]; cbn [List.app lookup_table].
  - rewrite (proj2 (contains_iff (lower key) (lower city)) Hocc).
    reflexivity.
  - destruct (contains (lower k) (lower city)) eqn:Hc; [|exact IH].
    exfalso. apply Hk. apply contains_iff. exact Hc.
Qed.

(** X4. The first match wins, and the geocoder is not asked.  When a key of
    the table occurs in the name, both lowered by [str.lower], and none of
    the keys before it does, the resolver returns that key's hours and note,
    whatever the geocoder would do.  Where [str.lower] lowers text of ASCII
    characters letter by letter, a key written in any letter case anywhere
    inside a name of ASCII characters occurs in it. *)
Theorem resolver_first_match
    (geocode : string -> result (option (Location F)))
    (earlier later : list (string * Q)) (key : string) (q : Q)
    (city : string) :
  SOLAR_DATA = earlier ++ (key, q) :: later ->
  Forall (fun e => ~ occurs_in (fst e) city) earlier ->
  occurs_in key city ->
  get_sun_hours lower geocode city = (lit q, Historical key)
  /\ ((forall s, ascii_only s = true -> lower s = ascii_lower s) ->
      forall before spelled after,
        ascii_only key = true ->
        ascii_only (before ++ spelled ++ after) = true ->
        ascii_lower spelled = ascii_lower key ->
        occurs_in key (before ++ spelled ++ after)).
Proof.
  intros Htable Hearlier Hocc. split.
  - unfold get_sun_hours. rewrite Htable.
    rewrite (lookup_table_first earlier later key q city Hearlier Hocc).
    reflexivity.
  - intros Hlower before spelled after Hkey Hname Hsame.
    exists (ascii_lower before), (ascii_lower after).
    rewrite (Hlower _ Hname), (Hlower _ Hkey), !ascii_lower_app, Hsame.
    reflexivity.
Qed.

(** X5. The geocoder is asked only when no key of the table occurs in the
    name, and then with the name as typed followed by ", Nigeria": a
    location found there is classified by its latitude, into one of the four
    bands. *)
Theorem resolver_geocodes_unknown_names
    (geocode : string -> result (option (Location F)))
    (city : string) (loc : Location F) :
  Forall (fun e => ~ occurs_in (fst e) city) SOLAR_DATA ->
  geocode (city ++ ", Nigeria")%string = Ok (Some loc) ->
  get_sun_hours lower geocode city
  = (band (latitude loc), Detected (latitude loc) (band (latitude loc)))
  /\ In (band (latitude loc)) [lit 5.8; lit 5.2; lit 4.6; lit 4.0]%Q.
Proof.
  intros Hnone Hfound. split.
  - unfold get_sun_hours, try_geocode.
    rewrite (proj2 (lookup_table_none SOLAR_DATA city) Hnone), Hfound.
    reflexivity.
  - unfold band.
    destruct (fgt (latitude loc) (of_int 11)); [cbn; tauto|].
    destruct (fgt (latitude loc) (of_int 9)); [cbn; tauto|].
    destruct (fgt (latitude loc) (of_int 7)); cbn; tauto.
Qed.

End TableMatch.

Section SunHoursRange.

Local Open Scope Q_scope.

Lemma sun_values_range_exact :
  Forall (fun q => 3.8 <= q /\ q <= 6.0) sun_values.
Proof. repeat constructor; vm_compute; discriminate. Qed.

Lemma sun_values_range_binary64 :
  Forall (fun q => SFleb (lit 3.8) (lit q) = true
                   /\ SFleb (lit q) (lit 6.0) = true) sun_values.
Proof. repeat constructor. Qed.

(** X6. Whatever the name and the geocoder, the sun hours returned lie
    between 3.8 (Port Harcourt) and 6.0 (Sokoto), in exact arithmetic and in
    binary64. *)
Theorem sun_hours_range (lower : string -> string) :
  (forall (geocode : string -> result (option (Location Q))) (city : string),
      3.8 <= fst (get_sun_hours lower geocode city)
      /\ fst (get_sun_hours lower geocode city) <= 6.0)
  /\ (forall (geocode : string -> result (option (Location spec_float)))
             (city : string),
         SFleb (lit 3.8) (fst (get_sun_hours lower geocode city)) = true
         /\ SFleb (fst (get_sun_hours lower geocode city)) (lit 6.0) = true).
Proof.
  split; intros geocode city;
    destruct (get_sun_hours_value lower geocode city) as (q & Hin & ->).
  - exact (proj1 (Forall_forall _ _) sun_values_range_exact q Hin).
  - exact (proj1 (Forall_forall _ _) sun_values_range_binary64 q Hin).
Qed.

(** X7. The latitude bands, in exact arithmetic: a place further north never
    gets fewer hours, and every latitude of 7 degrees or less, the southern
    hemisphere included, gets 4.0. *)
Theorem band_monotone (lat lat' : Q) :
  lat <= lat' ->
  band lat <= band lat'
  /\ (lat <= 7 -> band lat == 4.0)
  /\ (11 < lat -> band lat == 5.8).
Proof.
  intro Hle. unfold band, fgt.
  destruct (flt (of_int 11) lat) eqn:H11; destruct (flt (of_int 9) lat) eqn:H9;
    destruct (flt (of_int 7) lat) eqn:H7;
    destruct (flt (of_int 11) lat') eqn:H11'; destruct (flt (of_int 9) lat') eqn:H9';
    destruct (flt (of_int 7) lat') eqn:H7';
    repeat match goal with
           | Hb : flt _ _ = true |- _ => apply flt_exact_true in Hb
           | Hb : flt _ _ = false |- _ => apply flt_exact_false in Hb
           end;
    change (of_int 11) with 11 in *; change (of_int 9) with 9 in *;
    change (of_int 7) with 7 in *; change (lit 5.8) with 5.8;
    change (lit 5.2) with 5.2; change (lit 4.6) with 4.6;
    change (lit 4.0) with 4.0;
    try (exfalso; lra);
    (split; [lra | split; intro; first [reflexivity | exfalso; lra]]).
Qed.

End SunHoursRange.

(** ** The sizing, in exact arithmetic: least counts and adequacy *)

Section SizingBounds.

Local Open Scope Q_scope.




End SizingBounds.

(** ** The report of a run *)

Section ReportAnyFloat.

Context {F : Type} `{Float F}.

(** The three inverter offers: name, price, system voltage, and the
    installation price that goes with the voltage. *)
Definition offers : list (string * Z * Z * Z) :=
  [ ("3kVA (24V)"%string, PRICES.inverter_3kva, 24, PRICES.install_base);
    ("5kVA (48V)"%string, PRICES.inverter_5kva, 48, PRICES.install_heavy);
    ("10kVA (48V)"%string, PRICES.inverter_10kva, 48, PRICES.install_heavy) ].

Lemma inverter_offer (peak : Z) :
  In (inverter (F:=F) peak,
      if 24 <? snd (inverter (F:=F) peak)
      then PRICES.install_heavy else PRICES.install_base)
     offers.
Proof.
  unfold inverter, offers.
  destruct (flt (req_inv_watts peak) (of_int 3000)); [left; reflexivity|].
  destruct (flt (req_inv_watts peak) (of_int 5000)).
  - right; left; reflexivity.
  - right; right; left; reflexivity.
Qed.

Lemma analyse_report (sun_hours : F) (mode : OperatingMode)
    (items : list (item F)) (r : report F) :
  analyse sun_hours mode items = Ok r ->
  summary r = load_analysis mode items
  /\ num_panels (total_daily_wh (summary r)) sun_hours = Ok (panels r)
  /\ num_batteries (night_load_wh (summary r)) (sys_v r) = Ok (batteries r)
  /\ In (inv_name r, inv_price r, sys_v r, cost_install r) offers
  /\ cost_panels r = panels r * PRICES.panel_500w
  /\ cost_batts r = batteries r * PRICES.battery_220ah
  /\ total_cost r = cost_panels r + cost_batts r + inv_price r + cost_install r
  /\ under_provision r = flt (gen_wh r) (total_daily_wh (summary r)).
Proof.
  unfold analyse.
  destruct (num_panels (total_daily_wh (load_analysis mode items)) sun_hours)
    as [n_panels|e] eqn:Hpanels; cbn [bind]; [|discriminate].
  pose proof (inverter_offer (peak_load_watts (load_analysis mode items)))
    as Hoffer.
  destruct (inverter (peak_load_watts (load_analysis mode items)))
    as [[i_name i_price] v].
  cbn [snd] in Hoffer.
  destruct (num_batteries (night_load_wh (load_analysis mode items)) v)
    as [n_batts|e] eqn:Hbatts; cbn [bind]; [|discriminate].
  intros [= <-].
  cbn [summary panels batteries inv_name inv_price sys_v cost_install
       cost_panels cost_batts total_cost under_provision gen_wh].
  repeat split; assumption.
Qed.

(** X10. Every report a run produces is consistent, whatever the float
    arithmetic: its inverter name, inverter price, system voltage and
    installation price form one of the three offers (so the heavy
    installation is charged exactly with the 48 V systems); the panel and
    battery costs are the counts times the unit prices; the total is the sum
    of the four costs; and the counts are those of the sizing of its load
    summary. *)
Theorem report_consistent (sun_hours : F) (mode : OperatingMode)
    (items : list (item F)) (r : report F) :
  analyse sun_hours mode items = Ok r ->
  summary r = load_analysis mode items
  /\ num_panels (total_daily_wh (summary r)) sun_hours = Ok (panels r)
  /\ num_batteries (night_load_wh (summary r)) (sys_v r) = Ok (batteries r)
  /\ In (inv_name r, inv_price r, sys_v r, cost_install r) offers
  /\ cost_panels r = panels r * PRICES.panel_500w
  /\ cost_batts r = batteries r * PRICES.battery_220ah
  /\ total_cost r = cost_panels r + cost_batts r + inv_price r + cost_install r
  /\ under_provision r = flt (gen_wh r) (total_daily_wh (summary r)).
Proof.
  exact (analyse_report sun_hours mode items r).
Qed.

End ReportAnyFloat.

(** ** Sun hours of zero *)

Section ZeroSun.

Lemma binary64_lit_07_nonzero : B64.is_zero (lit (F:=spec_float) 0.7%Q) = false.
Proof. reflexivity. Qed.

Lemma binary64_zero_times_1000 (s : bool) :
  B64.is_zero (fmul (F:=spec_float) (S754_zero s) (of_int 1000)) = true.
Proof. destruct s; reflexivity. Qed.

Lemma num_panels_no_sun_binary64 (total : spec_float) (s : bool) :
  num_panels total (S754_zero s) = Raise ZeroDivisionError.
Proof.
  unfold num_panels, req_panel_kw.
  change (fdiv total (lit 0.7%Q)) with (B64.div total (lit 0.7%Q)).
  unfold B64.div at 1. rewrite binary64_lit_07_nonzero. cbn [bind].
  change (fdiv ?a ?b) with (B64.div a b). unfold B64.div at 1.
  rewrite binary64_zero_times_1000. reflexivity.
Qed.

(** X11. Nothing in the sizing guards against sun hours of zero: with a
    non-empty selection the run raises ZeroDivisionError, in exact arithmetic
    and in binary64 (for +0.0 and -0.0), while the empty selection still gets
    the validation message.  Only the resolver's positive values keep the
    script from it. *)
Theorem zero_sun_hours_raises :
  (forall (sun : Q) (mode : OperatingMode) (it : item Q) (items : list (item Q)),
      (sun == 0)%Q ->
      run_analysis sun mode (it :: items) = Raise ZeroDivisionError
      /\ run_analysis sun mode []
         = Ok (ValidationError "Please select at least one appliance."))
  /\ (forall (negative : bool) (mode : OperatingMode) (it : item spec_float)
             (items : list (item spec_float)),
         run_analysis (S754_zero negative) mode (it :: items)
         = Raise ZeroDivisionError).
Proof.
  split.
  - intros sun mode it items Hsun. split; [|reflexivity].
    unfold run_analysis, analyse.
    rewrite (num_panels_no_sun _ sun Hsun). reflexivity.
  - intros negative mode it items.
    unfold run_analysis, analyse.
    rewrite num_panels_no_sun_binary64. reflexivity.
Qed.

End ZeroSun.

(** ** The collected items *)

Section CollectedItems.

Context {F : Type} `{Float F}.

(** The user item that an appliance of a category gives under a form. *)
Definition item_of (fm : form F) (category : string) (a : appliance)
  : item F :=
  mk_item (name a) (watts a) (surge a)
          (qty_input fm (name a)) (hrs_input fm (name a)) category.

Lemma in_collect_from (catalog : list (string * list appliance))
    (fm : form F) (it : item F) :
  In it (collect_from catalog fm)
  <-> exists category l a,
        In (category, l) catalog /\ In a l
        /\ 0 < qty_input fm (name a) /\ it = item_of fm category a.
Proof.
  unfold collect_from. rewrite in_flat_map. split.
  - intros ([category l] & Hentry & Hin). cbn [fst snd] in Hin.
    apply in_flat_map in Hin. destruct Hin as (a & Ha & Hsel).
    unfold select in Hsel.
    destruct (0 <? qty_input fm (name a)) eqn:Hq; [|destruct Hsel].
    destruct Hsel as [<- | []]. apply Z.ltb_lt in Hq.
    exists category, l, a. repeat split; assumption.
  - intros (category & l & a & Hentry & Ha & Hq & ->).
    exists (category, l). split; [exact Hentry|]. cbn [fst snd].
    apply in_flat_map. exists a. split; [exact Ha|].
    unfold select. apply Z.ltb_lt in Hq. rewrite Hq. left. reflexivity.
Qed.

Lemma selections_names (catalog : list (string * list appliance))
    (fm : form F) :
  map it_name (selections catalog fm) = map name (flat_map snd catalog).
Proof.
  unfold selections.
  induction catalog as [|[category l] catalog IH]; [reflexivity|].
  cbn [flat_map fst snd]. rewrite !map_app, IH, map_map. reflexivity.
Qed.

Lemma NoDup_map_filter (A B : Type) (key : A -> B) (keep : A -> bool)
    (xs : list A) (Hdistinct : NoDup (map key xs)) :
  NoDup (map key (filter keep xs)).
Proof.
  revert Hdistinct.
  induction xs as [|x xs IH]; cbn [map filter]; intro Hnd; [constructor|].
  inversion Hnd as [|y ys Hnotin Hrest]; subst.
  destruct (keep x); [|exact (IH Hrest)].
  cbn [map]. constructor; [|exact (IH Hrest)].
  intro Hin. apply Hnotin. apply in_map_iff in Hin.
  destruct Hin as (z & Hz & Hzin). apply filter_In in Hzin.
  apply in_map_iff. exists z. tauto.
Qed.

Lemma catalogue_names_distinct : NoDup (map name (flat_map snd APPLIANCES)).
Proof.
  cbn. repeat (constructor; [cbn; intuition discriminate|]). constructor.
Qed.

Lemma catalogue_size : List.length (flat_map snd APPLIANCES) = 19%nat.
Proof. reflexivity. Qed.

(** X12. What the input loop collects.  An entry is in [user_items] exactly
    when it is a catalogue appliance, with its category, whose "Qty" widget
    holds more than 0, and it carries the quantity and hours typed for that
    appliance; no appliance is collected twice; and at most 19 entries are
    collected. *)
Theorem user_items_collected (fm : form F) :
  (forall it,
      In it (user_items fm)
      <-> exists category l a,
            In (category, l) APPLIANCES /\ In a l
            /\ 0 < qty_input fm (name a) /\ it = item_of fm category a)
  /\ NoDup (map it_name (user_items fm))
  /\ (List.length (user_items fm) <= 19)%nat.
Proof.
  split; [intro it; apply in_collect_from|].
  unfold user_items. rewrite collect_from_selected. unfold selected.
  split.
  - apply NoDup_map_filter. rewrite selections_names.
    exact catalogue_names_distinct.
  - rewrite <- catalogue_size, <- (length_map name),
      <- (selections_names APPLIANCES fm), length_map.
    apply filter_length_le.
Qed.

End CollectedItems.

(** ** The whole script, in exact arithmetic *)

Section WholeScript.

Local Open Scope Q_scope.




Lemma sun_hours_positive (lower : string -> string)
    (geocode : string -> result (option (Location Q))) (city : string) :
  0 < fst (get_sun_hours lower geocode city).
Proof.
  destruct (get_sun_hours_value lower geocode city) as (q & Hin & ->).
  exact (proj1 (Forall_forall _ _) sun_values_positive_exact q Hin).
Qed.


Lemma panel_count_nonneg (total sun : Q) :
  0 < sun -> 0 <= total -> (0 <= Qceiling (panel_units total sun))%Z.
Proof.
  intros Hsun Htotal. rewrite <- (Qceiling_Z 0). apply Qceiling_resp_le.
  apply panel_units_nonneg; assumption.
Qed.

End WholeScript.

Section WholeScriptProperties.

Local Open Scope Q_scope.

Lemma Zsum_cons (x : Z) (l : list Z) : Zsum (x :: l) = (x + Zsum l)%Z.
Proof. reflexivity. Qed.

Lemma Qsum_cons (x : Q) (l : list Q) : Qsum (x :: l) = x + Qsum l.
Proof. reflexivity. Qed.


Lemma Qsum_filter_le (A : Type) (f g : A -> Q) (p : A -> bool) (l : list A) :
  Forall (fun x => 0 <= g x /\ (p x = true -> f x <= g x)) l ->
  Qsum (map f (filter p l)) <= Qsum (map g l).
Proof.
  induction 1 as [|x l [Hg Hfg] _ IH]; cbn [filter map].
  - apply Qle_refl.
  - rewrite Qsum_cons. destruct (p x).
    + cbn [map]. rewrite Qsum_cons. specialize (Hfg eq_refl). lra.
    + lra.
Qed.


End WholeScriptProperties.

Section ModesCompared.

Local Open Scope Q_scope.



End ModesCompared.

(** ** 8. Downloads: the quote *)

(** [str] of an [int], as the f-string interpolates it. *)
Definition str (z : Z) : string := NilZero.string_of_int (Z.to_int z).

(** The line feed. *)
Definition LF : ascii := "010"%char.

Section Quote.

Context {F : Type} `{Float F}.

Local Open Scope string_scope.

(** The f-string [csv_data], over the values of a run. *)
Definition csv_data (r : report F) : string :=
  "Item,Qty,Unit Cost,Total" ++ String LF
  ("Panels," ++ str (panels r) ++ "," ++ str PRICES.panel_500w ++ ","
     ++ str (cost_panels r) ++ String LF
  ("Batteries," ++ str (batteries r) ++ "," ++ str PRICES.battery_220ah ++ ","
     ++ str (cost_batts r) ++ String LF
  ("Inverter (" ++ inv_name r ++ "),1," ++ str (inv_price r) ++ ","
     ++ str (inv_price r) ++ String LF
  ("Installation,1," ++ str (cost_install r) ++ ","
     ++ str (cost_install r) ++ String LF
  ("TOTAL,,-," ++ str (total_cost r)))))).

End Quote.

(** Reading a quote back: [split] is [str.split] with a one-character
    separator, [read_int] is [int(...)] on a decimal numeral. *)
Fixpoint split (sep : ascii) (s : string) : list string :=
  match s with
  | EmptyString => [EmptyString]
  | String c rest =>
      if Ascii.eqb c sep then EmptyString :: split sep rest
      else match split sep rest with
           | [] => [String c EmptyString]
           | field :: fields => String c field :: fields
           end
  end.

Definition read_csv (s : string) : list (list string) :=
  map (split ","%char) (split LF s).

Definition read_int (s : string) : option Z :=
  option_map Z.of_int (NilZero.int_of_string s).

(** [lacks sep s]: the character does not occur in the string. *)
Fixpoint lacks (sep : ascii) (s : string) : bool :=
  match s with
  | EmptyString => true
  | String c rest => negb (Ascii.eqb c sep) && lacks sep rest
  end.

Section QuoteRoundTrip.

Local Open Scope string_scope.

Lemma append_assoc (a b c : string) : (a ++ b) ++ c = a ++ (b ++ c).
Proof.
  induction a as [|x a IH]; [reflexivity|]. cbn. rewrite IH. reflexivity.
Qed.

Lemma lacks_app (sep : ascii) (a b : string) :
  lacks sep (a ++ b) = lacks sep a && lacks sep b.
Proof.
  induction a as [|x a IH]; [reflexivity|].
  cbn. rewrite IH. apply andb_assoc.
Qed.

Lemma split_lacks (sep : ascii) (a : string) :
  lacks sep a = true -> split sep a = [a].
Proof.
  induction a as [|x a IH]; [reflexivity|].
  cbn. intro Hl. apply andb_prop in Hl. destruct Hl as [Hx Ha].
  apply negb_true_iff in Hx. rewrite Hx, (IH Ha). reflexivity.
Qed.

Lemma split_field (sep : ascii) (a rest : string) :
  lacks sep a = true ->
  split sep (a ++ String sep rest) = a :: split sep rest.
Proof.
  induction a as [|x a IH].
  - intros _. cbn. rewrite Ascii.eqb_refl. reflexivity.
  - cbn. intro Hl. apply andb_prop in Hl. destruct Hl as [Hx Ha].
    apply negb_true_iff in Hx. rewrite Hx, (IH Ha). reflexivity.
Qed.

Lemma lacks_digits (sep : ascii) (d : Decimal.uint) :
  lacks sep "0123456789" = true ->
  lacks sep (NilEmpty.string_of_uint d) = true.
Proof.
  intro Hsep. cbn in Hsep.
  repeat (apply andb_prop in Hsep; destruct Hsep as [? Hsep]).
  induction d as [|d IH|d IH|d IH|d IH|d IH|d IH|d IH|d IH|d IH|d IH];
    cbn [NilEmpty.string_of_uint lacks];
    [reflexivity | rewrite IH, andb_true_r; assumption ..].
Qed.

Lemma lacks_str (sep : ascii) (z : Z) :
  lacks sep "-0123456789" = true -> lacks sep (str z) = true.
Proof.
  intro Hsep. cbn [lacks] in Hsep. apply andb_prop in Hsep.
  destruct Hsep as [Hminus Hdigits].
  assert (Hu : forall d, lacks sep (NilZero.string_of_uint d) = true).
  { intro d. destruct d; try exact (lacks_digits sep _ Hdigits).
    cbn [NilZero.string_of_uint lacks]. cbn [lacks] in Hdigits.
    apply andb_prop in Hdigits. destruct Hdigits as [H0 _].
    rewrite H0. reflexivity. }
  unfold str. destruct (Z.to_int z) as [d|d]; cbn [NilZero.string_of_int].
  - apply Hu.
  - cbn [lacks]. rewrite Hminus, Hu. reflexivity.
Qed.

Lemma read_int_str (z : Z) : read_int (str z) = Some z.
Proof.
  unfold read_int, str. rewrite NilZero.isi.
  - cbn [option_map]. rewrite DecimalZ.of_to. reflexivity.
  - destruct z as [|p|p]; cbn [Z.to_int]; try discriminate.
    intros [= Hnil]. exact (DecimalPos.Unsigned.to_uint_nonnil p Hnil).
  - destruct z as [|p|p]; cbn [Z.to_int]; try discriminate.
    intros [= Hnil]. exact (DecimalPos.Unsigned.to_uint_nonnil p Hnil).
Qed.

End QuoteRoundTrip.

Section QuoteTable.

Context {F : Type} `{Float F}.

Local Open Scope string_scope.

(** [sep.join(fields)]. *)
Fixpoint join (sep : ascii) (fields : list string) : string :=
  match fields with
  | [] => ""
  | [field] => field
  | field :: rest => field ++ String sep (join sep rest)
  end.

(** The rows of the quote. *)
Definition quote_table (r : report F) : list (list string) :=
  [ ["Item"; "Qty"; "Unit Cost"; "Total"];
    ["Panels"; str (panels r); str PRICES.panel_500w; str (cost_panels r)];
    ["Batteries"; str (batteries r); str PRICES.battery_220ah;
     str (cost_batts r)];
    ["Inverter (" ++ inv_name r ++ ")"; "1"; str (inv_price r);
     str (inv_price r)];
    ["Installation"; "1"; str (cost_install r); str (cost_install r)];
    ["TOTAL"; ""; "-"; str (total_cost r)] ].

Lemma csv_data_table (r : report F) :
  csv_data r = join LF (map (join ","%char) (quote_table r)).
Proof.
  unfold csv_data, quote_table. cbn [map join].
  repeat (progress (rewrite ?append_assoc; cbn [append])). reflexivity.
Qed.

Lemma split_join (sep : ascii) (fields : list string) :
  fields <> [] -> Forall (fun f => lacks sep f = true) fields ->
  split sep (join sep fields) = fields.
Proof.
  intros Hne Hall. induction Hall as [|f fields Hf Hfields IH].
  - contradiction.
  - destruct fields as [|g fields].
    + cbn [join]. apply split_lacks. exact Hf.
    + change (join sep (f :: g :: fields))
        with (f ++ String sep (join sep (g :: fields))).
      rewrite (split_field sep f _ Hf), IH; [reflexivity|discriminate].
Qed.

Lemma lacks_join (c sep : ascii) (fields : list string) :
  Ascii.eqb sep c = false ->
  Forall (fun f => lacks c f = true) fields ->
  lacks c (join sep fields) = true.
Proof.
  intros Hsep Hall. induction Hall as [|f fields Hf Hfields IH].
  - reflexivity.
  - destruct fields as [|g fields]; [exact Hf|].
    change (join sep (f :: g :: fields))
      with (f ++ String sep (join sep (g :: fields))).
    rewrite lacks_app, Hf. cbn [lacks andb]. rewrite Hsep, IH. reflexivity.
Qed.

Lemma read_csv_table (table : list (list string)) :
  table <> [] ->
  Forall (fun row => row <> []
                     /\ Forall (fun f => lacks ","%char f = true
                                         /\ lacks LF f = true) row) table ->
  read_csv (join LF (map (join ","%char) table)) = table.
Proof.
  intros Hne Hall. unfold read_csv. rewrite split_join.
  - rewrite map_map. rewrite <- (map_id table) at 2.
    apply map_ext_in. intros row Hrow.
    destruct (proj1 (Forall_forall _ _) Hall row Hrow) as [Hrne Hfields].
    apply split_join; [exact Hrne|].
    eapply Forall_impl; [|exact Hfields]. intros f [Hc _]. exact Hc.
  - destruct table; [contradiction | discriminate].
  - apply Forall_forall. intros line Hline. apply in_map_iff in Hline.
    destruct Hline as (row & <- & Hrow).
    destruct (proj1 (Forall_forall _ _) Hall row Hrow) as [_ Hfields].
    apply lacks_join; [reflexivity|].
    eapply Forall_impl; [|exact Hfields]. intros f [_ Hl]. exact Hl.
Qed.

Lemma quote_table_clean (r : report F) :
  lacks ","%char (inv_name r) = true -> lacks LF (inv_name r) = true ->
  Forall (fun row => row <> []
                     /\ Forall (fun f => lacks ","%char f = true
                                         /\ lacks LF f = true) row)
         (quote_table r).
Proof.
  intros Hcomma Hlf. unfold quote_table.
  repeat (constructor; [split; [discriminate|] |]); [..|constructor].
  all: repeat (constructor;
               [split; rewrite ?lacks_app, ?Hcomma, ?Hlf;
                first [reflexivity | apply lacks_str; reflexivity] |]).
  all: constructor.
Qed.

(** X16. The quote reads back.  For the report of any run, splitting
    [csv_data] at the line feeds and the lines at the commas gives the header
    and the five rows Panels, Batteries, Inverter, Installation, TOTAL, each
    of four fields; the numerals read back as the integers printed; and the
    Total fields of the four item rows add up to the Total of the TOTAL row,
    the total cost. *)
Theorem quote_reads_back (sun_hours : F) (mode : OperatingMode)
    (items : list (item F)) (r : report F) :
  analyse sun_hours mode items = Ok r ->
  read_csv (csv_data r)
  = [ ["Item"; "Qty"; "Unit Cost"; "Total"];
      ["Panels"; str (panels r); str PRICES.panel_500w; str (cost_panels r)];
      ["Batteries"; str (batteries r); str PRICES.battery_220ah;
       str (cost_batts r)];
      ["Inverter (" ++ inv_name r ++ ")"; "1"; str (inv_price r);
       str (inv_price r)];
      ["Installation"; "1"; str (cost_install r); str (cost_install r)];
      ["TOTAL"; ""; "-"; str (total_cost r)] ]
  /\ (forall z : Z, read_int (str z) = Some z)
  /\ (exists c_panels c_batts c_inverter c_install c_total : Z,
         map (fun row => read_int (nth 3 row ""))
             (tl (read_csv (csv_data r)))
         = [Some c_panels; Some c_batts; Some c_inverter; Some c_install;
            Some c_total]
         /\ c_total = (c_panels + c_batts + c_inverter + c_install)%Z
         /\ c_total = total_cost r).
Proof.
  intro Hrun.
  destruct (analyse_report sun_hours mode items r Hrun)
    as (_ & _ & _ & Hoffer & _ & _ & Hsum & _).
  assert (Hname : lacks ","%char (inv_name r) = true
                  /\ lacks LF (inv_name r) = true).
  { unfold offers in Hoffer. cbn [In] in Hoffer.
    destruct Hoffer as [E | [E | [E | []]]];
      injection E as <- _ _ _; split; reflexivity. }
  destruct Hname as [Hcomma Hlf].
  assert (Hread : read_csv (csv_data r) = quote_table r).
  { rewrite csv_data_table. apply read_csv_table; [discriminate|].
    apply quote_table_clean; assumption. }
  split; [exact Hread|]. split; [exact read_int_str|].
  exists (cost_panels r), (cost_batts r), (inv_price r), (cost_install r),
         (total_cost r).
  rewrite Hread. unfold quote_table. cbn [tl map nth].
  rewrite !read_int_str. split; [reflexivity|]. split; [exact Hsum|reflexivity].
Qed.

End QuoteTable.

Section ExactCharacterisations.

Local Open Scope Q_scope.

Lemma required_below (peak bound : Z) :
  inject_Z peak * 1.25 < inject_Z (5 * bound) / 4 <-> (peak < bound)%Z.
Proof.
  rewrite inject_Z_mult, Zlt_Qlt. change (inject_Z 5) with 5.
  split; intro Hlt.
  - apply (Qmult_lt_r _ _ 1.25); [reflexivity|].
    assert (E : 5 * inject_Z bound / 4 == inject_Z bound * 1.25) by field.
    rewrite <- E. exact Hlt.
  - assert (E : 5 * inject_Z bound / 4 == inject_Z bound * 1.25) by field.
    rewrite E. apply Qmult_lt_compat_r; [reflexivity | exact Hlt].
Qed.

(** X17. The inverter tiers in watts of connected load, in exact
    arithmetic: the 3kVA, 24 V offer exactly below 2400 W of peak power, the
    5kVA, 48 V offer exactly from 2400 W up to but not including 4000 W, and
    the 10kVA, 48 V offer exactly from 4000 W on, with no upper limit. *)
Theorem inverter_load_thresholds (peak : Z) :
  (inverter (F:=Q) peak = ("3kVA (24V)"%string, PRICES.inverter_3kva, 24%Z)
   <-> (peak < 2400)%Z)
  /\ (inverter (F:=Q) peak = ("5kVA (48V)"%string, PRICES.inverter_5kva, 48%Z)
      <-> (2400 <= peak < 4000)%Z)
  /\ (inverter (F:=Q) peak
      = ("10kVA (48V)"%string, PRICES.inverter_10kva, 48%Z)
      <-> (4000 <= peak)%Z).
Proof.
  pose proof (required_below peak 2400) as H3.
  pose proof (required_below peak 4000) as H5.
  change (inject_Z (5 * 2400) / 4) with (12000 / 4) in H3.
  change (inject_Z (5 * 4000) / 4) with (20000 / 4) in H5.
  assert (E3 : 12000 / 4 == 3000) by reflexivity.
  assert (E5 : 20000 / 4 == 5000) by reflexivity.
  rewrite E3 in H3. rewrite E5 in H5.
  destruct (Z_lt_ge_dec peak 2400) as [Hlt | Hge].
  - rewrite (inverter_3kva peak (proj2 H3 Hlt)).
    repeat split; try discriminate; try lia; intros; reflexivity.
  - assert (Hreq3 : 3000 <= inject_Z peak * 1.25).
    { apply Qnot_lt_le. intro Hc. apply H3 in Hc. lia. }
    destruct (Z_lt_ge_dec peak 4000) as [Hlt5 | Hge5].
    + rewrite (inverter_5kva peak Hreq3 (proj2 H5 Hlt5)).
      repeat split; try discriminate; try lia; intros; reflexivity.
    + assert (Hreq5 : 5000 <= inject_Z peak * 1.25).
      { apply Qnot_lt_le. intro Hc. apply H5 in Hc. lia. }
      rewrite (inverter_10kva peak Hreq5).
      repeat split; try discriminate; try lia; intros; reflexivity.
Qed.

End ExactCharacterisations.

(** ** Evaluations of the further properties *)

Section FurtherWitnesses.

Local Open Scope Q_scope.

Lemma not_occurs_in (lower : string -> string) (key city : string) :
  contains (lower key) (lower city) = false -> ~ occurs_in lower key city.
Proof.
  intros Hc Hocc. apply contains_iff in Hocc. congruence.
Qed.

(** A geocoder that places every query at 9.9 degrees north. *)
Definition finds_jos : string -> result (option (Location Q)) :=
  fun _ => Ok (Some (mk_location 9.9)).


Lemma sample_run :
  { r : report Q
  | analyse 4.6 Reliability (user_items fridge_and_bulbs) = Ok r }.
Proof. eexists. vm_compute. reflexivity. Defined.

Lemma smart_saver_skips_heavy_witness :
  night_load_wh
    (load_analysis (F:=Q) SmartSaver
       [mk_item "Small Fridge" 120 true 1 6.0 KitchenCooling;
        mk_item "Microwave" 1200 false 1 0.5 HeavyDuty]) = of_int 0.
Proof.
  apply (proj1 (smart_saver_skips_heavy _)).
  apply Forall_cons; [left; reflexivity|].
  apply Forall_cons; [right; reflexivity|]. apply Forall_nil.
Defined.

Lemma resolver_first_match_witness :
  get_sun_hours (F:=Q) ascii_lower unreachable "KANO municipal"
  = (5.8, Historical "Kano").
Proof.
  refine (proj1 (resolver_first_match (F:=Q) ascii_lower unreachable
                   [("Lagos"%string, 4.4); ("Abuja"%string, 5.2)]
                   [("Ibadan"%string, 4.6); ("Port Harcourt"%string, 3.8);
                    ("Enugu"%string, 4.5); ("Sokoto"%string, 6.0)]
                   "Kano" 5.8 "KANO municipal" _ _ _)).
  - reflexivity.
  - repeat constructor; apply not_occurs_in; reflexivity.
  - apply contains_iff. reflexivity.
Defined.

Lemma resolver_geocodes_unknown_names_witness :
  get_sun_hours (F:=Q) ascii_lower finds_jos "Jos"
  = (5.2, Detected 9.9 5.2).
Proof.
  refine (proj1 (resolver_geocodes_unknown_names (F:=Q) ascii_lower
                   finds_jos "Jos"
                   (mk_location 9.9) _ _)).
  - repeat constructor; apply not_occurs_in; reflexivity.
  - reflexivity.
Defined.

Lemma band_monotone_witness : band (F:=Q) 6.5 <= band (F:=Q) 12.0.
Proof.
  refine (proj1 (band_monotone 6.5 12.0 _)). vm_compute; discriminate.
Defined.


Lemma report_consistent_witness :
  exists r : report Q,
    analyse 4.6 Reliability (user_items fridge_and_bulbs) = Ok r
    /\ total_cost r
       = (cost_panels r + cost_batts r + inv_price r + cost_install r)%Z.
Proof.
  destruct sample_run as [r Hrun]. exists r. split; [exact Hrun|].
  apply (report_consistent _ _ _ r Hrun).
Defined.

Lemma zero_sun_hours_raises_witness :
  run_analysis (F:=Q) 0 Reliability (user_items five_bulbs)
  = Raise ZeroDivisionError.
Proof.
  apply (proj1 zero_sun_hours_raises 0 Reliability
           (mk_item "LED Bulb" 10 false 5 6.0 Essentials) []).
  reflexivity.
Defined.



Lemma quote_reads_back_witness :
  exists r : report Q,
    analyse 4.6 Reliability (user_items fridge_and_bulbs) = Ok r
    /\ nth 5 (read_csv (csv_data r)) []
       = ["TOTAL"; ""; "-"; str (total_cost r)]%string.
Proof.
  destruct sample_run as [r Hrun]. exists r. split; [exact Hrun|].
  rewrite (proj1 (quote_reads_back _ _ _ r Hrun)). reflexivity.
Defined.

End FurtherWitnesses.

(** * The program in binary64

    The properties above that are proved for [exact] are properties of the
    program where its float operations do not round, or round the same way
    on both sides of a comparison.  The load sums, the panel count and the
    energy balance are not of that kind.  This part proves what the
    [binary64] instance computes: a specification of the rounding of
    [SpecFloat] ([binary_round_aux]) in terms of the rationals, the
    operations of the instance on floats in canonical form, and from them
    the behaviour of the load loop and of the sizing. *)

Local Open Scope Q_scope.

Module Rounding.

(** ** Powers of two *)

(** [2^e], for any integer [e]. *)
Definition pow2 (e : Z) : Q := 2 ^ e.

Lemma pow2_pos (e : Z) : 0 < pow2 e.
Proof. apply Qpower_0_lt. reflexivity. Qed.

Lemma pow2_add (a b : Z) : pow2 (a + b) == pow2 a * pow2 b.
Proof. apply Qpower_plus. discriminate. Qed.

Lemma pow2_succ (e : Z) : pow2 (e + 1) == 2 * pow2 e.
Proof. rewrite pow2_add. change (pow2 1) with 2. ring. Qed.

Lemma pow2_le (a b : Z) : (a <= b)%Z -> pow2 a <= pow2 b.
Proof. intro H. apply Qpower_le_compat_l; [exact H | discriminate]. Qed.

Lemma pow2_lt (a b : Z) : (a < b)%Z -> pow2 a < pow2 b.
Proof. intro H. apply Qpower_lt_compat_l; [exact H | reflexivity]. Qed.

Lemma pow2_lt_inv (a b : Z) : pow2 a < pow2 b -> (a < b)%Z.
Proof. intro H. apply (Qpower_lt_compat_l_inv 2); [exact H | reflexivity]. Qed.

Lemma pow2_le_inv (a b : Z) : pow2 a <= pow2 b -> (a <= b)%Z.
Proof. intro H. apply (Qpower_le_compat_l_inv 2); [exact H | reflexivity]. Qed.

Lemma pow2_Z (n : Z) : (0 <= n)%Z -> pow2 n == inject_Z (2 ^ n).
Proof. intro H. unfold pow2. rewrite Zpower_Qpower by exact H. reflexivity. Qed.

#[global] Opaque pow2.

(** ** Truncated mantissas

    [SpecFloat] rounds a real from a truncated mantissa, a round bit and a
    sticky bit ([shr_record]).  [located x e mrs]: the real [x] is the
    mantissa of [mrs] plus the fraction its two bits stand for, times
    [2^e]. *)

(** The fraction that a round bit and a sticky bit stand for. *)
Definition frac_ok (f : Q) (r s : bool) : Prop :=
  match r, s with
  | false, false => f == 0
  | false, true => 0 < f /\ f < 1 # 2
  | true, false => f == 1 # 2
  | true, true => 1 # 2 < f /\ f < 1
  end.

Definition located (x : Q) (e : Z) (mrs : shr_record) : Prop :=
  (0 <= shr_m mrs)%Z
  /\ exists f, frac_ok f (shr_r mrs) (shr_s mrs)
               /\ x == (inject_Z (shr_m mrs) + f) * pow2 e.

Lemma frac_ok_range (f : Q) (r s : bool) :
  frac_ok f r s ->
  0 <= f /\ f < 1 /\ (r || s = false -> f == 0) /\ (r || s = true -> 0 < f).
Proof.
  destruct r, s; cbn; intros Hf; repeat split; try lra; try discriminate;
    intros _; lra.
Qed.

Lemma located_shr_1 (x : Q) (e : Z) (mrs : shr_record) :
  located x e mrs -> located x (e + 1) (shr_1 mrs).
Proof.
  destruct mrs as [m r s]. intros [Hm (f & Hf & Hx)]. cbn [shr_m shr_r shr_s] in *.
  destruct (frac_ok_range f r s Hf) as (Hf0 & Hf1 & Hzero & Hpos).
  assert (Hcase : forall (m' : Z) (bit : bool),
             m = (2 * m' + (if bit then 1 else 0))%Z -> (0 <= m')%Z ->
             located x (e + 1) (Build_shr_record m' bit (r || s))).
  { intros m' bit Hm' Hm'0. split; [exact Hm'0|].
    exists (((if bit then 1 else 0) + f) * (1 # 2)).
    cbn [shr_m shr_r shr_s]. split.
    - destruct bit, (r || s) eqn:Hrs; cbn.
      + specialize (Hpos eq_refl). lra.
      + specialize (Hzero eq_refl). lra.
      + specialize (Hpos eq_refl). lra.
      + specialize (Hzero eq_refl). lra.
    - rewrite pow2_succ, Hx, Hm', inject_Z_plus, inject_Z_mult.
      destruct bit; ring. }
  unfold shr_1.
  destruct m as [|p|p]; [|destruct p as [p|p|]|lia].
  - apply (Hcase 0%Z false); [reflexivity | lia].
  - apply (Hcase (Zpos p) true); [reflexivity | lia].
  - apply (Hcase (Zpos p) false); [reflexivity | lia].
  - apply (Hcase 0%Z true); [reflexivity | lia].
Qed.

Lemma located_iter (x : Q) (p : positive) :
  forall (e : Z) (mrs : shr_record),
    located x e mrs -> located x (e + Zpos p) (iter_pos shr_1 p mrs).
Proof.
  induction p as [p IH|p IH|]; intros e mrs Hloc; cbn [iter_pos].
  - replace (e + Zpos p~1)%Z with (e + 1 + Zpos p + Zpos p)%Z by lia.
    apply IH, IH, located_shr_1, Hloc.
  - replace (e + Zpos p~0)%Z with (e + Zpos p + Zpos p)%Z by lia.
    apply IH, IH, Hloc.
  - apply located_shr_1, Hloc.
Qed.

Lemma located_shr (x : Q) (e n : Z) (mrs : shr_record) :
  (0 <= n)%Z -> located x e mrs ->
  located x (e + n) (fst (shr mrs e n)) /\ snd (shr mrs e n) = (e + n)%Z.
Proof.
  intros Hn Hloc. unfold shr. destruct n as [|p|p]; [| |lia]; cbn [fst snd].
  - rewrite Z.add_0_r. split; [exact Hloc | reflexivity].
  - split; [apply located_iter, Hloc | reflexivity].
Qed.

(** Rounding to the nearest integer, ties to even. *)
Definition nearest_even (q : Q) (k : Z) : Prop :=
  inject_Z k - (1 # 2) <= q /\ q <= inject_Z k + (1 # 2)
  /\ (q == inject_Z k - (1 # 2) \/ q == inject_Z k + (1 # 2) ->
      Z.even k = true).

Lemma located_value (x : Q) (e : Z) (mrs : shr_record) (f : Q) :
  x == (inject_Z (shr_m mrs) + f) * pow2 e ->
  x / pow2 e == inject_Z (shr_m mrs) + f.
Proof.
  intro Hx. rewrite Hx. field. pose proof (pow2_pos e). lra.
Qed.

Lemma located_round (x : Q) (e : Z) (mrs : shr_record) :
  located x e mrs ->
  let k := round_nearest_even (shr_m mrs) (loc_of_shr_record mrs) in
  nearest_even (x / pow2 e) k
  /\ (shr_m mrs <= k <= shr_m mrs + 1)%Z.
Proof.
  destruct mrs as [m r s]. intros [Hm (f & Hf & Hx)] k. subst k.
  pose proof (located_value x e _ f Hx) as Hq. cbn [shr_m shr_r shr_s] in *.
  unfold nearest_even. rewrite Hq. clear Hq Hx.
  destruct r, s; cbn [loc_of_shr_record round_nearest_even frac_ok] in *.
  - rewrite inject_Z_plus. change (inject_Z 1) with 1.
    split; [|lia]. repeat split; try lra; try (intros [Ht | Ht]; exfalso; lra).
  - destruct (Z.even m) eqn:Hev.
    + split; [|lia]. repeat split; try lra; try (intros _; exact Hev).
    + rewrite inject_Z_plus. change (inject_Z 1) with 1.
      split; [|lia].
      repeat split; try lra;
        try (intros _; rewrite Z.even_add, Hev; reflexivity).
  - split; [|lia]. repeat split; try lra; try (intros [Ht | Ht]; exfalso; lra).
  - split; [|lia]. repeat split; try lra; try (intros [Ht | Ht]; exfalso; lra).
Qed.

(** Binary digits. *)
Lemma digits2_size (p : positive) : digits2_pos p = Pos.size p.
Proof. induction p as [p IH|p IH|]; cbn; rewrite ?IH; reflexivity. Qed.

Lemma digits2_bounds (p : positive) :
  (2 ^ (Zpos (digits2_pos p) - 1) <= Zpos p < 2 ^ Zpos (digits2_pos p))%Z.
Proof.
  induction p as [p IH|p IH|]; cbn [digits2_pos].
  - rewrite Pos2Z.inj_succ.
    replace (Z.succ (Zpos (digits2_pos p)) - 1)%Z
      with (Z.succ (Zpos (digits2_pos p) - 1)) by lia.
    rewrite !Z.pow_succ_r by lia. lia.
  - rewrite Pos2Z.inj_succ.
    replace (Z.succ (Zpos (digits2_pos p)) - 1)%Z
      with (Z.succ (Zpos (digits2_pos p) - 1)) by lia.
    rewrite !Z.pow_succ_r by lia. lia.
  - cbn. lia.
Qed.

Lemma Zdigits2_bounds (m : Z) :
  (0 < m)%Z -> (2 ^ (Zdigits2 m - 1) <= m < 2 ^ Zdigits2 m)%Z.
Proof.
  destruct m as [|p|p]; try lia. intros _. apply digits2_bounds.
Qed.

Lemma Zdigits2_pos (m : Z) : (0 < m)%Z -> (0 < Zdigits2 m)%Z.
Proof. destruct m; cbn; lia. Qed.

Lemma Zdigits2_unique (m d : Z) :
  (0 < d)%Z -> (2 ^ (d - 1) <= m < 2 ^ d)%Z -> Zdigits2 m = d.
Proof.
  intros Hd [Hlo Hhi].
  assert (Hm : (0 < m)%Z) by (pose proof (Z.pow_pos_nonneg 2 (d - 1)); lia).
  destruct (Zdigits2_bounds m Hm) as [Hlo' Hhi'].
  pose proof (Zdigits2_pos m Hm) as Hd'.
  destruct (Z.lt_trichotomy (Zdigits2 m) d) as [Hlt | [Heq | Hgt]];
    [exfalso | exact Heq | exfalso].
  - assert (2 ^ Zdigits2 m <= 2 ^ (d - 1))%Z by (apply Z.pow_le_mono_r; lia).
    lia.
  - assert (2 ^ d <= 2 ^ (Zdigits2 m - 1))%Z by (apply Z.pow_le_mono_r; lia).
    lia.
Qed.

Lemma located_bounds (x : Q) (e : Z) (mrs : shr_record) :
  located x e mrs -> (0 < shr_m mrs)%Z ->
  pow2 (Zdigits2 (shr_m mrs) + e - 1) <= x
  /\ x < pow2 (Zdigits2 (shr_m mrs) + e).
Proof.
  intros [_ (f & Hf & Hx)] Hm.
  destruct (frac_ok_range f _ _ Hf) as (Hf0 & Hf1 & _).
  destruct (Zdigits2_bounds _ Hm) as [Hlo Hhi].
  pose proof (Zdigits2_pos _ Hm) as Hd.
  pose proof (pow2_pos e) as He.
  replace (Zdigits2 (shr_m mrs) + e - 1)%Z
    with ((Zdigits2 (shr_m mrs) - 1) + e)%Z by lia.
  rewrite !pow2_add.
  rewrite (pow2_Z (Zdigits2 (shr_m mrs) - 1)), (pow2_Z (Zdigits2 (shr_m mrs)))
    by lia.
  rewrite Hx.
  rewrite Zle_Qle in Hlo. assert (Hhi' : (shr_m mrs + 1 <= 2 ^ Zdigits2 (shr_m mrs))%Z) by lia.
  rewrite Zle_Qle, inject_Z_plus in Hhi'.
  change (inject_Z 1) with 1 in Hhi'.
  revert Hlo Hhi'.
  generalize (inject_Z (2 ^ (Zdigits2 (shr_m mrs) - 1))),
             (inject_Z (2 ^ Zdigits2 (shr_m mrs))), (inject_Z (shr_m mrs)).
  intros lo hi m Hlo Hhi'. clear Hhi Hd Hm.
  split.
  - apply Qmult_le_compat_r; lra.
  - apply Qlt_le_trans with ((m + 1) * pow2 e).
    + apply Qmult_lt_compat_r; lra.
    + apply Qmult_le_compat_r; lra.
Qed.

(** ** binary64: the format *)

Definition fexp64 (e : Z) : Z := fexp 53 1024 e.

Lemma fexp64_eq (e : Z) : fexp64 e = Z.max (e - 53) (-1074).
Proof. reflexivity. Qed.

(** The exact value of a float (0 for an infinity or a NaN). *)
Definition val (x : spec_float) : Q :=
  match x with
  | S754_finite false m e => inject_Z (Zpos m) * pow2 e
  | S754_finite true m e => - (inject_Z (Zpos m) * pow2 e)
  | _ => 0
  end.

(** A float that is a zero or positive, finite and in canonical form. *)
Definition good (x : spec_float) : Prop :=
  match x with
  | S754_zero _ => True
  | S754_finite false m e => bounded 53 1024 m e = true
  | _ => False
  end.

(** The exponent of the binade of [x]. *)
Definition ExpOf (x : Q) (E : Z) : Prop :=
  (E = (-1074)%Z /\ x < pow2 (-1021))
  \/ ((-1074 < E)%Z /\ pow2 (E + 52) <= x /\ x < pow2 (E + 53)).

(** [v] is [x] rounded to the nearest binary64 value, ties to even (before
    the overflow test). *)
Definition IsRound (x v : Q) : Prop :=
  exists (E k : Z),
    ExpOf x E /\ nearest_even (x / pow2 E) k /\ v == inject_Z k * pow2 E.

Lemma located_below (x : Q) (E a : Z) (mrs : shr_record) :
  (0 <= a)%Z -> located x E mrs -> x < pow2 (E + a) ->
  (shr_m mrs < 2 ^ a)%Z.
Proof.
  intros Ha [Hm (f & Hf & Hx)] Hlt.
  destruct (frac_ok_range f _ _ Hf) as (Hf0 & _).
  rewrite Zlt_Qlt, <- pow2_Z by exact Ha.
  rewrite Hx, Z.add_comm, pow2_add in Hlt.
  pose proof (pow2_pos E) as HE.
  apply (Qmult_lt_r _ _ (pow2 E) HE).
  apply Qle_lt_trans with ((inject_Z (shr_m mrs) + f) * pow2 E); [|exact Hlt].
  apply Qmult_le_compat_r; [lra | apply Qlt_le_weak, HE].
Qed.

Lemma located_above (x : Q) (E a : Z) (mrs : shr_record) :
  (0 <= a)%Z -> located x E mrs -> pow2 (E + a) <= x ->
  (2 ^ a <= shr_m mrs)%Z.
Proof.
  intros Ha [Hm (f & Hf & Hx)] Hle.
  destruct (frac_ok_range f _ _ Hf) as (_ & Hf1 & _).
  assert (Hlt : (2 ^ a < shr_m mrs + 1)%Z); [|lia].
  rewrite Zlt_Qlt, <- pow2_Z, inject_Z_plus by exact Ha.
  change (inject_Z 1) with 1.
  rewrite Hx, Z.add_comm, pow2_add in Hle.
  pose proof (pow2_pos E) as HE.
  apply (Qmult_lt_r _ _ (pow2 E) HE).
  apply Qle_lt_trans with ((inject_Z (shr_m mrs) + f) * pow2 E); [exact Hle|].
  apply Qmult_lt_compat_r; [exact HE | lra].
Qed.

Lemma shr_record_of_loc_m (m : Z) (l : location) :
  shr_m (shr_record_of_loc m l) = m.
Proof. destruct l as [|[]]; reflexivity. Qed.

(** The first shift of [binary_round_aux]: down to the exponent of the
    binade. *)
Lemma round_stage1 (x : Q) (m e : Z) (l : location) :
  located x e (shr_record_of_loc m l) ->
  (e <= fexp64 (Zdigits2 m + e))%Z ->
  let E := fexp64 (Zdigits2 m + e) in
  let mrs := fst (shr_fexp 53 1024 m e l) in
  snd (shr_fexp 53 1024 m e l) = E
  /\ located x E mrs /\ ExpOf x E
  /\ (shr_m mrs < 2 ^ 53)%Z
  /\ ((-1074 < E)%Z -> (2 ^ 52 <= shr_m mrs)%Z).
Proof.
  intros Hloc Hpre E mrs.
  assert (Hn : (0 <= fexp64 (Zdigits2 m + e) - e)%Z) by lia.
  destruct (located_shr x e _ _ Hn Hloc) as [Hloc' Hsnd].
  replace (e + (fexp64 (Zdigits2 m + e) - e))%Z with E in Hloc', Hsnd
    by (subst E; lia).
  change (shr (shr_record_of_loc m l) e (fexp64 (Zdigits2 m + e) - e))
    with (shr_fexp 53 1024 m e l) in Hloc', Hsnd.
  fold mrs in Hloc'.
  assert (HE : ExpOf x E).
  { destruct Hloc as [Hm0 Hex]. rewrite shr_record_of_loc_m in Hm0.
    destruct (Z.eq_dec m 0) as [-> | Hne].
    - cbn [Zdigits2] in *. left.
      assert (He : (e <= -1074)%Z)
        by (rewrite fexp64_eq in Hpre; lia).
      split; [subst E; rewrite fexp64_eq; lia|].
      destruct Hex as (f & Hf & Hx).
      destruct (frac_ok_range f _ _ Hf) as (Hf0 & Hf1 & _).
      rewrite shr_record_of_loc_m in Hx. rewrite Hx.
      change (inject_Z 0) with 0.
      pose proof (pow2_pos e) as Hpe.
      apply Qlt_le_trans with (1 * pow2 e).
      + apply Qmult_lt_compat_r; [exact Hpe | lra].
      + rewrite Qmult_1_l. apply pow2_le. lia.
    - assert (Hmpos : (0 < shr_m (shr_record_of_loc m l))%Z)
        by (rewrite shr_record_of_loc_m; lia).
      destruct (located_bounds x e _ (conj (Z.lt_le_incl _ _ Hmpos) Hex) Hmpos)
        as [Hlo Hhi].
      rewrite shr_record_of_loc_m in Hlo, Hhi.
      subst E. rewrite fexp64_eq.
      destruct (Z_le_gt_dec (Zdigits2 m + e - 53) (-1074)) as [Hsub | Hnorm].
      + left. split; [lia|].
        apply Qlt_le_trans with (1 := Hhi). apply pow2_le. lia.
      + right. rewrite Z.max_l by lia. split; [lia|].
        replace (Zdigits2 m + e - 53 + 52)%Z with (Zdigits2 m + e - 1)%Z
          by lia.
        replace (Zdigits2 m + e - 53 + 53)%Z with (Zdigits2 m + e)%Z by lia.
        split; assumption. }
  assert (Hbelow : x < pow2 (E + 53)).
  { destruct HE as [[-> Hx] | (_ & _ & Hx)]; exact Hx. }
  split; [exact Hsnd|]. split; [exact Hloc'|]. split; [exact HE|].
  split.
  - apply (located_below x E 53 mrs); [lia | exact Hloc' | exact Hbelow].
  - intro Hnorm. destruct HE as [[HEm _] | (_ & Hlo & _)]; [lia|].
    apply (located_above x E 52 mrs); [lia | exact Hloc' | exact Hlo].
Qed.

Lemma shr_nonpos (mrs : shr_record) (e n : Z) :
  (n <= 0)%Z -> shr mrs e n = (mrs, e).
Proof. destruct n; [reflexivity | lia | reflexivity]. Qed.

Lemma Zdigits2_le (m a : Z) :
  (0 < m < 2 ^ a)%Z -> (0 <= a)%Z -> (Zdigits2 m <= a)%Z.
Proof.
  intros [Hm Hlt] Ha.
  destruct (Zdigits2_bounds m Hm) as [Hlo _].
  destruct (Z_le_gt_dec (Zdigits2 m) a) as [|Hgt]; [assumption|].
  assert (2 ^ a <= 2 ^ (Zdigits2 m - 1))%Z
    by (apply Z.pow_le_mono_r; lia).
  lia.
Qed.

Lemma Zdigits2_ge (m a : Z) :
  (2 ^ a <= m)%Z -> (0 <= a)%Z -> (a + 1 <= Zdigits2 m)%Z.
Proof.
  intros Hle Ha.
  assert (Hm : (0 < m)%Z) by (pose proof (Z.pow_pos_nonneg 2 a); lia).
  destruct (Zdigits2_bounds m Hm) as [_ Hhi].
  destruct (Z_le_gt_dec (a + 1) (Zdigits2 m)) as [|Hgt]; [assumption|].
  assert (2 ^ Zdigits2 m <= 2 ^ a)%Z
    by (apply Z.pow_le_mono_r; lia).
  lia.
Qed.

(** The last step of [binary_round_aux], after the mantissa is rounded. *)
Definition finish (k E : Z) : spec_float :=
  let '(mrs, e) := shr_fexp 53 1024 k E loc_Exact in
  match shr_m mrs with
  | 0%Z => S754_zero false
  | Zpos m => if (e <=? 1024 - 53)%Z then S754_finite false m e
              else S754_infinity false
  | Zneg _ => S754_nan
  end.

Lemma binary_round_aux_finish (m e : Z) (l : location) :
  binary_round_aux 53 1024 false m e l
  = finish (round_nearest_even (shr_m (fst (shr_fexp 53 1024 m e l)))
              (loc_of_shr_record (fst (shr_fexp 53 1024 m e l))))
      (snd (shr_fexp 53 1024 m e l)).
Proof.
  unfold binary_round_aux, finish.
  destruct (shr_fexp 53 1024 m e l) as [mrs' e']. reflexivity.
Qed.

Lemma finish_spec (k E : Z) :
  (-1074 <= E)%Z -> (0 <= k <= 2 ^ 53)%Z ->
  ((-1074 < E)%Z -> (2 ^ 52 <= k)%Z) ->
  (inject_Z k * pow2 E < pow2 1024
   /\ good (finish k E) /\ val (finish k E) == inject_Z k * pow2 E)
  \/ (pow2 1024 <= inject_Z k * pow2 E
      /\ finish k E = S754_infinity false).
Proof.
  intros HE Hk Hnorm.
  pose proof (pow2_pos E) as HpE.
  destruct (Z.eq_dec k 0) as [-> | Hk0].
  - left. unfold finish, shr_fexp. cbn [Zdigits2 shr_record_of_loc].
    rewrite shr_nonpos
      by (change (fexp 53 1024 (0 + E)) with (fexp64 (0 + E));
          rewrite fexp64_eq; lia).
    cbn [shr_m good val]. pose proof (pow2_pos 1024).
    change (inject_Z 0) with 0. split; [lra|]. split; [exact I | lra].
  - destruct (Z.eq_dec k (2 ^ 53)) as [-> | Hk53].
    + unfold finish, shr_fexp.
      change (Zdigits2 (2 ^ 53)) with 54%Z.
      change (fexp 53 1024 (54 + E)) with (fexp64 (54 + E)).
      rewrite fexp64_eq.
      replace (Z.max (54 + E - 53) (-1074) - E)%Z with 1%Z by lia.
      cbn [shr_record_of_loc shr iter_pos]. 
      change (shr_m (shr_1 {| shr_m := 2 ^ 53; shr_r := false;
                              shr_s := false |}))
        with (Zpos (2 ^ 52)).
      assert (Hv : inject_Z (2 ^ 53) * pow2 E
                   == inject_Z (Zpos (2 ^ 52)) * pow2 (E + 1)).
      { rewrite pow2_succ. change (inject_Z (2 ^ 53)) with (2 * inject_Z (Zpos (2 ^ 52))).
        ring. }
      destruct (Z.leb_spec (E + 1) (1024 - 53)) as [Hle | Hgt].
      * left. split; [|split].
        -- rewrite Hv. change (pow2 1024) with (pow2 1024).
           apply Qle_lt_trans
             with (inject_Z (Zpos (2 ^ 52)) * pow2 971).
           ++ apply Qmult_le_l; [reflexivity | apply pow2_le; lia].
           ++ replace 1024%Z with (53 + 971)%Z by reflexivity.
              rewrite pow2_add, (pow2_Z 53) by lia.
              apply Qmult_lt_compat_r; [apply pow2_pos | reflexivity].
        -- cbn [good]. unfold bounded, canonical_mantissa.
           change (Zpos (digits2_pos (2 ^ 52))) with 53%Z.
           change (fexp 53 1024 (53 + (E + 1))) with (fexp64 (53 + (E + 1))).
           rewrite fexp64_eq.
           apply andb_true_intro. split.
           ++ apply Z.eqb_eq. lia.
           ++ apply Z.leb_le. exact Hle.
        -- cbn [val]. rewrite Hv. reflexivity.
      * right. split; [|reflexivity].
        rewrite Hv.
        apply Qle_trans with (inject_Z (Zpos (2 ^ 52)) * pow2 972).
        -- replace 1024%Z with (52 + 972)%Z by reflexivity.
           rewrite pow2_add, (pow2_Z 52) by lia.
           apply Qle_refl.
        -- apply Qmult_le_l; [reflexivity | apply pow2_le; lia].
    + assert (Hkpos : (0 < k < 2 ^ 53)%Z) by lia.
      assert (Hd : (Zdigits2 k <= 53)%Z) by (apply Zdigits2_le; lia).
      unfold finish, shr_fexp.
      change (fexp 53 1024 (Zdigits2 k + E)) with (fexp64 (Zdigits2 k + E)).
      rewrite shr_nonpos by (rewrite fexp64_eq; lia).
      cbn [shr_record_of_loc shr_m].
      destruct k as [|p|p]; [lia| |lia].
      destruct (Z.leb_spec E (1024 - 53)) as [Hle | Hgt].
      * left. split; [|split].
        -- apply Qlt_le_trans with (inject_Z (2 ^ 53) * pow2 E).
           ++ apply Qmult_lt_compat_r; [exact HpE|].
              rewrite <- Zlt_Qlt. lia.
           ++ replace 1024%Z with (53 + 971)%Z by reflexivity.
              rewrite pow2_add, (pow2_Z 53) by lia.
              apply Qmult_le_l; [reflexivity | apply pow2_le; lia].
        -- cbn [good]. unfold bounded, canonical_mantissa.
           change (Zpos (digits2_pos p)) with (Zdigits2 (Zpos p)).
           change (fexp 53 1024 (Zdigits2 (Zpos p) + E))
             with (fexp64 (Zdigits2 (Zpos p) + E)).
           rewrite fexp64_eq.
           apply andb_true_intro. split.
           ++ apply Z.eqb_eq.
              destruct (Z.eq_dec E (-1074)) as [-> | HneE]; [lia|].
              assert (53 <= Zdigits2 (Zpos p))%Z
                by (apply (Zdigits2_ge _ 52); [apply Hnorm|]; lia).
              lia.
           ++ apply Z.leb_le. exact Hle.
        -- cbn [val]. reflexivity.
      * right. split; [|reflexivity].
        assert (Hlo : (2 ^ 52 <= Zpos p)%Z) by (apply Hnorm; lia).
        apply Qle_trans with (inject_Z (2 ^ 52) * pow2 972).
        -- replace 1024%Z with (52 + 972)%Z by reflexivity.
           rewrite pow2_add, (pow2_Z 52) by lia.
           apply Qle_refl.
        -- apply Qle_trans with (inject_Z (2 ^ 52) * pow2 E).
           ++ apply Qmult_le_l; [reflexivity | apply pow2_le; lia].
           ++ apply Qmult_le_compat_r; [|apply Qlt_le_weak, HpE].
              rewrite <- Zle_Qle. exact Hlo.
Qed.

(** What a rounding returns: the rounded value, or +infinity when that
    value is out of range. *)
Definition rounds_to (x : Q) (r : spec_float) : Prop :=
  exists v, IsRound x v
    /\ ((v < pow2 1024 /\ good r /\ val r == v)
        \/ (pow2 1024 <= v /\ r = S754_infinity false)).

Lemma ExpOf_ge (x : Q) (E : Z) : ExpOf x E -> (-1074 <= E)%Z.
Proof. intros [[-> _] | [H _]]; lia. Qed.

Theorem binary_round_aux_spec (x : Q) (m e : Z) (l : location) :
  located x e (shr_record_of_loc m l) ->
  (e <= fexp64 (Zdigits2 m + e))%Z ->
  rounds_to x (binary_round_aux 53 1024 false m e l).
Proof.
  intros Hloc Hpre.
  destruct (round_stage1 x m e l Hloc Hpre) as (Hsnd & Hloc' & HE & Hlt & Hnorm).
  rewrite binary_round_aux_finish, Hsnd.
  set (E := fexp64 (Zdigits2 m + e)) in *.
  set (mrs := fst (shr_fexp 53 1024 m e l)) in *.
  destruct (located_round x E mrs Hloc') as [Hne Hk].
  set (k := round_nearest_even (shr_m mrs) (loc_of_shr_record mrs)) in *.
  assert (Hm0 : (0 <= shr_m mrs)%Z) by (destruct Hloc'; assumption).
  exists (inject_Z k * pow2 E). split.
  - exists E, k. split; [exact HE|]. split; [exact Hne | reflexivity].
  - apply finish_spec.
    + apply (ExpOf_ge x). exact HE.
    + lia.
    + intro H. specialize (Hnorm H). lia.
Qed.

(** ** Properties of rounding *)

Lemma ExpOf_le (x y : Q) (Ex Ey : Z) :
  ExpOf x Ex -> ExpOf y Ey -> x <= y -> (Ex <= Ey)%Z.
Proof.
  intros Hx Hy Hle.
  pose proof (ExpOf_ge _ _ Hy) as Hge.
  destruct Hx as [[-> _] | (Hn & Hlo & _)]; [exact Hge|].
  assert (Hlt : y < pow2 (Ey + 53)).
  { destruct Hy as [[-> H] | (_ & _ & H)]; exact H. }
  assert (H : pow2 (Ex + 52) < pow2 (Ey + 53)) by lra.
  apply pow2_lt_inv in H. lia.
Qed.

Lemma ExpOf_unique (x : Q) (E E' : Z) : ExpOf x E -> ExpOf x E' -> E = E'.
Proof.
  intros H H'.
  pose proof (ExpOf_le x x E E' H H' (Qle_refl x)).
  pose proof (ExpOf_le x x E' E H' H (Qle_refl x)).
  lia.
Qed.

Lemma ExpOf_below (x : Q) (E : Z) : ExpOf x E -> x < pow2 (E + 53).
Proof. intros [[-> H] | (_ & _ & H)]; exact H. Qed.

Lemma Qdiv_pow2_le (x y : Q) (E : Z) : x <= y -> x / pow2 E <= y / pow2 E.
Proof.
  intro H. pose proof (pow2_pos E) as HE.
  apply Qmult_le_compat_r; [exact H|].
  apply Qlt_le_weak, Qinv_lt_0_compat, HE.
Qed.

Lemma Qdiv_pow2_lt (x y : Q) (E : Z) : x < y -> x / pow2 E < y / pow2 E.
Proof.
  intro H. pose proof (pow2_pos E) as HE.
  apply Qmult_lt_compat_r; [apply Qinv_lt_0_compat, HE | exact H].
Qed.

Lemma Qdiv_pow2 (a b : Z) : pow2 a / pow2 b == pow2 (a - b).
Proof.
  pose proof (pow2_pos b) as Hb.
  replace a with ((a - b) + b)%Z at 1 by lia.
  rewrite pow2_add. field. lra.
Qed.

Lemma Qmul_div_pow2 (q : Q) (a b : Z) :
  q * pow2 a / pow2 b == q * pow2 (a - b).
Proof.
  unfold Qdiv. rewrite <- Qmult_assoc.
  change (pow2 a * / pow2 b) with (pow2 a / pow2 b).
  rewrite Qdiv_pow2. reflexivity.
Qed.

Lemma nearest_even_mono (p q : Q) (j k : Z) :
  nearest_even p j -> nearest_even q k -> p <= q -> (j <= k)%Z.
Proof.
  intros (Hj1 & Hj2 & Hj3) (Hk1 & Hk2 & Hk3) Hle.
  destruct (Z_le_gt_dec j k) as [|Hgt]; [assumption|exfalso].
  assert (Hjk : inject_Z k + 1 <= inject_Z j).
  { change 1 with (inject_Z 1). rewrite <- inject_Z_plus, <- Zle_Qle. lia. }
  assert (Hp : p == inject_Z j - (1 # 2)) by lra.
  assert (Hq : q == inject_Z k + (1 # 2)) by lra.
  assert (Hj : Z.even j = true) by (apply Hj3; left; exact Hp).
  assert (Hk : Z.even k = true) by (apply Hk3; right; exact Hq).
  assert (Heq : inject_Z j == inject_Z k + 1) by lra.
  change 1 with (inject_Z 1) in Heq.
  rewrite <- inject_Z_plus, inject_Z_injective in Heq.
  subst j. rewrite Z.even_add in Hj. rewrite Hk in Hj. discriminate Hj.
Qed.

Lemma nearest_even_int (q : Q) (m k : Z) :
  q == inject_Z m -> nearest_even q k -> k = m.
Proof.
  intros Hq (H1 & H2 & _).
  assert (inject_Z k < inject_Z m + 1) by lra.
  assert (inject_Z m < inject_Z k + 1) by lra.
  change 1 with (inject_Z 1) in *.
  rewrite <- inject_Z_plus, <- Zlt_Qlt in *. lia.
Qed.

Lemma nearest_even_ge (q : Q) (k m : Z) :
  nearest_even q k -> inject_Z m <= q -> (m <= k)%Z.
Proof.
  intros (H1 & H2 & _) Hle.
  assert (H : inject_Z m < inject_Z k + 1) by lra.
  change 1 with (inject_Z 1) in H.
  rewrite <- inject_Z_plus, <- Zlt_Qlt in H. lia.
Qed.

Lemma nearest_even_le (q : Q) (k m : Z) :
  nearest_even q k -> q <= inject_Z m -> (k <= m)%Z.
Proof.
  intros (H1 & H2 & _) Hle.
  assert (H : inject_Z k < inject_Z m + 1) by lra.
  change 1 with (inject_Z 1) in H.
  rewrite <- inject_Z_plus, <- Zlt_Qlt in H. lia.
Qed.

Lemma IsRound_nonneg (x v : Q) : 0 <= x -> IsRound x v -> 0 <= v.
Proof.
  intros Hx (E & k & HE & Hne & Hv).
  pose proof (pow2_pos E) as HpE.
  assert (Hk : (0 <= k)%Z).
  { apply (nearest_even_ge (x / pow2 E)); [exact Hne|].
    change (inject_Z 0) with 0.
    apply Qle_shift_div_l; [exact HpE | lra]. }
  rewrite Hv. apply Qmult_le_0_compat; [|lra].
  rewrite Zle_Qle in Hk. exact Hk.
Qed.

(** Rounding is monotone. *)
Theorem IsRound_mono (x y v w : Q) :
  IsRound x v -> IsRound y w -> x <= y -> v <= w.
Proof.
  intros (Ex & j & HEx & Hj & Hv) (Ey & k & HEy & Hk & Hw) Hle.
  pose proof (ExpOf_le _ _ _ _ HEx HEy Hle) as HE.
  rewrite Hv, Hw.
  destruct (Z.eq_dec Ex Ey) as [-> | Hne].
  - apply Qmult_le_compat_r; [|apply Qlt_le_weak, pow2_pos].
    rewrite <- Zle_Qle.
    apply (nearest_even_mono (x / pow2 Ey) (y / pow2 Ey)); try assumption.
    apply Qdiv_pow2_le, Hle.
  - assert (HEy' : (-1074 < Ey)%Z)
      by (pose proof (ExpOf_ge _ _ HEx); lia).
    destruct HEy as [[HEy _] | (_ & Hylo & _)]; [lia|].
    apply Qle_trans with (pow2 (Ey + 52)).
    + apply Qle_trans with (pow2 (Ex + 53)); [|apply pow2_le; lia].
      assert (Hj53 : (j <= 2 ^ 53)%Z).
      { apply (nearest_even_le (x / pow2 Ex)); [exact Hj|].
        rewrite <- (pow2_Z 53) by lia.
        replace 53%Z with (Ex + 53 - Ex)%Z at 1 by lia.
        rewrite <- Qdiv_pow2.
        apply Qdiv_pow2_le, Qlt_le_weak, ExpOf_below, HEx. }
      rewrite Z.add_comm, pow2_add, (pow2_Z 53) by lia.
      apply Qmult_le_compat_r; [|apply Qlt_le_weak, pow2_pos].
      rewrite <- Zle_Qle. exact Hj53.
    + assert (Hk52 : (2 ^ 52 <= k)%Z).
      { apply (nearest_even_ge (y / pow2 Ey)); [exact Hk|].
        rewrite <- (pow2_Z 52) by lia.
        replace 52%Z with (Ey + 52 - Ey)%Z at 1 by lia.
        rewrite <- Qdiv_pow2.
        apply Qdiv_pow2_le, Hylo. }
      rewrite Z.add_comm, pow2_add, (pow2_Z 52) by lia.
      apply Qmult_le_compat_r; [|apply Qlt_le_weak, pow2_pos].
      rewrite <- Zle_Qle. exact Hk52.
Qed.

(** The values a float can hold exactly: [m * 2^e] with [m] below [2^53]. *)
Definition repr (x : Q) : Prop :=
  exists (m e : Z),
    (0 <= m < 2 ^ 53)%Z /\ (-1074 <= e)%Z /\ x == inject_Z m * pow2 e.

Lemma repr_scaled (x : Q) (E : Z) :
  repr x -> ExpOf x E ->
  exists M : Z, x / pow2 E == inject_Z M.
Proof.
  intros (m & e & Hm & He & Hx) HE.
  assert (HEe : (E <= e)%Z).
  { destruct HE as [[-> _] | (Hn & Hlo & _)]; [exact He|].
    assert (Hlt : x < pow2 (e + 53)).
    { rewrite Hx, Z.add_comm, pow2_add, (pow2_Z 53) by lia.
      apply Qmult_lt_compat_r; [apply pow2_pos|].
      rewrite <- Zlt_Qlt. lia. }
    assert (H : pow2 (E + 52) < pow2 (e + 53)) by lra.
    apply pow2_lt_inv in H. lia. }
  exists (m * 2 ^ (e - E))%Z.
  rewrite Hx, Qmul_div_pow2, inject_Z_mult, (pow2_Z (e - E)) by lia.
  reflexivity.
Qed.

Lemma Qdiv_pow2_mul (x : Q) (E : Z) : x / pow2 E * pow2 E == x.
Proof. pose proof (pow2_pos E). field. lra. Qed.

(** A value that a float holds exactly rounds to itself. *)
Theorem IsRound_repr (x v : Q) : repr x -> IsRound x v -> v == x.
Proof.
  intros Hr (E & k & HE & Hk & Hv).
  destruct (repr_scaled x E Hr HE) as [M HM].
  assert (k = M) by (apply (nearest_even_int _ _ _ HM Hk)).
  subst k. rewrite Hv, <- (Qdiv_pow2_mul x E), HM. reflexivity.
Qed.

(** Rounding never crosses a value that a float holds exactly. *)
Theorem IsRound_le_repr (x y v : Q) :
  IsRound x v -> repr y -> x <= y -> v <= y.
Proof.
  intros (E & k & HE & Hk & Hv) Hr Hle.
  pose proof (pow2_pos E) as HpE.
  destruct Hr as (m & e & Hm & He & Hy).
  destruct (Z_le_gt_dec E e) as [HEe | HEe].
  - assert (HM : y / pow2 E == inject_Z (m * 2 ^ (e - E))).
    { rewrite Hy, Qmul_div_pow2, inject_Z_mult, (pow2_Z (e - E)) by lia.
      reflexivity. }
    assert (Hkm : (k <= m * 2 ^ (e - E))%Z).
    { apply (nearest_even_le (x / pow2 E)); [exact Hk|].
      rewrite <- HM. apply Qdiv_pow2_le, Hle. }
    rewrite Hv, <- (Qdiv_pow2_mul y E), HM.
    apply Qmult_le_compat_r; [|lra].
    rewrite <- Zle_Qle. exact Hkm.
  - exfalso.
    destruct HE as [[-> _] | (Hn & Hlo & _)]; [lia|].
    assert (Hlt : y < pow2 (e + 53)).
    { rewrite Hy, Z.add_comm, pow2_add, (pow2_Z 53) by lia.
      apply Qmult_lt_compat_r; [apply pow2_pos|].
      rewrite <- Zlt_Qlt. lia. }
    assert (H : pow2 (E + 52) < pow2 (e + 53)) by lra.
    apply pow2_lt_inv in H. lia.
Qed.

Theorem IsRound_ge_repr (x y v : Q) :
  IsRound x v -> repr y -> y <= x -> y <= v.
Proof.
  intros (E & k & HE & Hk & Hv) Hr Hle.
  pose proof (pow2_pos E) as HpE.
  destruct Hr as (m & e & Hm & He & Hy).
  destruct (Z_le_gt_dec E e) as [HEe | HEe].
  - assert (HM : y / pow2 E == inject_Z (m * 2 ^ (e - E))).
    { rewrite Hy, Qmul_div_pow2, inject_Z_mult, (pow2_Z (e - E)) by lia.
      reflexivity. }
    assert (Hkm : (m * 2 ^ (e - E) <= k)%Z).
    { apply (nearest_even_ge (x / pow2 E)); [exact Hk|].
      rewrite <- HM. apply Qdiv_pow2_le, Hle. }
    rewrite Hv, <- (Qdiv_pow2_mul y E), HM.
    apply Qmult_le_compat_r; [|lra].
    rewrite <- Zle_Qle. exact Hkm.
  - destruct HE as [[-> _] | (Hn & Hlo & _)]; [lia|].
    assert (Hk52 : (2 ^ 52 <= k)%Z).
    { apply (nearest_even_ge (x / pow2 E)); [exact Hk|].
      rewrite <- (pow2_Z 52) by lia.
      replace 52%Z with (E + 52 - E)%Z at 1 by lia.
      rewrite <- Qdiv_pow2.
      apply Qdiv_pow2_le, Hlo. }
    apply Qle_trans with (pow2 (e + 53)).
    + rewrite Hy, Z.add_comm, pow2_add, (pow2_Z 53) by lia.
      apply Qmult_le_compat_r; [|apply Qlt_le_weak, pow2_pos].
      rewrite <- Zle_Qle. lia.
    + apply Qle_trans with (pow2 (E + 52)); [apply pow2_le; lia|].
      rewrite Hv, Z.add_comm, pow2_add, (pow2_Z 52) by lia.
      apply Qmult_le_compat_r; [|lra].
      rewrite <- Zle_Qle. exact Hk52.
Qed.

(** ** Floats in canonical form *)

Lemma good_finite (m : positive) (e : Z) :
  good (S754_finite false m e) ->
  fexp64 (Zdigits2 (Zpos m) + e) = e /\ (e <= 971)%Z
  /\ (-1074 <= e)%Z /\ (Zpos m < 2 ^ 53)%Z.
Proof.
  cbn [good]. unfold bounded, canonical_mantissa. intro H.
  apply andb_prop in H. destruct H as [Hc He].
  apply Z.eqb_eq in Hc. apply Z.leb_le in He.
  change (fexp 53 1024 (Zpos (digits2_pos m) + e))
    with (fexp64 (Zdigits2 (Zpos m) + e)) in Hc.
  change (1024 - 53)%Z with 971%Z in He.
  split; [exact Hc|]. split; [exact He|].
  pose proof Hc as Hc'. rewrite fexp64_eq in Hc'.
  split; [lia|].
  destruct (Zdigits2_bounds (Zpos m) ltac:(lia)) as [_ Hhi].
  assert (2 ^ Zdigits2 (Zpos m) <= 2 ^ 53)%Z
    by (apply Z.pow_le_mono_r; lia).
  lia.
Qed.

Lemma good_repr (r : spec_float) : good r -> repr (val r).
Proof.
  destruct r as [z| | |[] m e]; cbn [good]; try contradiction; intro H.
  - exists 0%Z, (-1074)%Z. cbn [val]. change (inject_Z 0) with 0.
    split; [lia|]. split; [lia | ring].
  - destruct (good_finite m e H) as (_ & _ & He & Hm).
    exists (Zpos m), e. cbn [val]. split; [lia|]. split; [exact He|reflexivity].
Qed.

Lemma good_nonneg (r : spec_float) : good r -> 0 <= val r.
Proof.
  destruct r as [z| | |[] m e]; cbn [good val]; try contradiction; intro H.
  - apply Qle_refl.
  - apply Qmult_le_0_compat; [|apply Qlt_le_weak, pow2_pos].
    rewrite <- (Zle_Qle 0). lia.
Qed.

Lemma good_finite_pos (m : positive) (e : Z) :
  0 < val (S754_finite false m e).
Proof.
  cbn [val]. apply Qmult_lt_0_compat; [|apply pow2_pos].
  rewrite <- (Zlt_Qlt 0). lia.
Qed.

Lemma good_ExpOf (m : positive) (e : Z) :
  good (S754_finite false m e) -> ExpOf (val (S754_finite false m e)) e.
Proof.
  intro H. destruct (good_finite m e H) as (Hc & _ & He & Hm).
  assert (Hloc : located (val (S754_finite false m e)) e
                   {| shr_m := Zpos m; shr_r := false; shr_s := false |}).
  { split; [cbn; lia|]. exists 0. split; [cbn; reflexivity|].
    cbn [val shr_m]. ring. }
  destruct (located_bounds _ _ _ Hloc ltac:(cbn; lia)) as [Hlo Hhi].
  cbn [shr_m] in Hlo, Hhi. rewrite fexp64_eq in Hc.
  destruct (Z.eq_dec e (-1074)) as [-> | Hne].
  - left. split; [reflexivity|].
    apply Qlt_le_trans with (1 := Hhi). apply pow2_le. lia.
  - right. split; [lia|]. split.
    + apply Qle_trans with (2 := Hlo). apply pow2_le. lia.
    + apply Qlt_le_trans with (1 := Hhi). apply pow2_le. lia.
Qed.

Lemma repr_pow2 (n : Z) : (-1074 <= n)%Z -> repr (pow2 n).
Proof.
  intro H. exists 1%Z, n. split; [lia|]. split; [exact H|].
  change (inject_Z 1) with 1. ring.
Qed.

Lemma repr_int (z : Z) : (0 <= z < 2 ^ 53)%Z -> repr (inject_Z z).
Proof.
  intro H. exists z, 0%Z. split; [exact H|]. split; [lia|].
  rewrite (pow2_Z 0) by lia. change (inject_Z (2 ^ 0)) with 1. ring.
Qed.

Lemma repr_int_pow2 (z n : Z) :
  (0 <= z < 2 ^ 53)%Z -> (-1074 <= n)%Z -> repr (inject_Z z * pow2 n).
Proof. intros H Hn. exists z, n. split; [exact H|]. split; [exact Hn|reflexivity]. Qed.

Lemma good_lt_max (r : spec_float) : good r -> val r < pow2 1024.
Proof.
  destruct r as [z| | |[] m e]; cbn [good]; try contradiction; intro H.
  - apply pow2_pos.
  - destruct (good_finite m e H) as (_ & He & _ & Hm). cbn [val].
    apply Qlt_le_trans with (inject_Z (2 ^ 53) * pow2 e).
    + apply Qmult_lt_compat_r; [apply pow2_pos|]. rewrite <- Zlt_Qlt. exact Hm.
    + replace 1024%Z with (53 + 971)%Z by reflexivity.
      rewrite pow2_add, (pow2_Z 53) by lia.
      apply Qmult_le_l; [reflexivity | apply pow2_le; exact He].
Qed.

Lemma IsRound_eq (x v w : Q) : IsRound x v -> w == v -> IsRound x w.
Proof.
  intros (E & k & HE & Hk & Hv) Hw. exists E, k.
  split; [exact HE|]. split; [exact Hk|]. rewrite Hw. exact Hv.
Qed.

Lemma ExpOf_ext (x y : Q) (E : Z) : x == y -> ExpOf x E -> ExpOf y E.
Proof.
  intros Hxy [[HE H] | (HE & H1 & H2)]; [left | right].
  - split; [exact HE | lra].
  - split; [exact HE|]. split; lra.
Qed.

Lemma nearest_even_ext (p q : Q) (k : Z) :
  p == q -> nearest_even p k -> nearest_even q k.
Proof.
  intros Hpq (H1 & H2 & H3). split; [lra|]. split; [lra|].
  intro H. apply H3. destruct H; [left | right]; lra.
Qed.

Lemma IsRound_ext (x y v : Q) : x == y -> IsRound x v -> IsRound y v.
Proof.
  intros Hxy (E & k & HE & Hk & Hv). exists E, k.
  split; [exact (ExpOf_ext _ _ _ Hxy HE)|]. split; [|exact Hv].
  apply (nearest_even_ext (x / pow2 E)); [|exact Hk].
  rewrite Hxy. reflexivity.
Qed.

Lemma rounds_to_ext (x y : Q) (r : spec_float) :
  x == y -> rounds_to x r -> rounds_to y r.
Proof.
  intros Hxy (v & Hv & H). exists v. split; [|exact H].
  exact (IsRound_ext _ _ _ Hxy Hv).
Qed.

(** A float in canonical form is the rounding of its own value. *)
Lemma rounds_to_self (r : spec_float) : good r -> rounds_to (val r) r.
Proof.
  intro H. exists (val r). split.
  - destruct r as [z| | |[] m e]; cbn [good] in H; try contradiction.
    + exists (-1074)%Z, 0%Z. cbn [val]. split; [|split].
      * left. split; [reflexivity | apply pow2_pos].
      * change (inject_Z 0) with 0. apply (nearest_even_ext 0).
        -- unfold Qdiv. rewrite Qmult_0_l. reflexivity.
        -- change 0 with (inject_Z 0).
           split; [lra|]. split; [lra|]. intros _. reflexivity.
      * change (inject_Z 0) with 0. ring.
    + exists e, (Zpos m). split; [exact (good_ExpOf m e H)|].
      split; [|reflexivity]. cbn [val].
      apply (nearest_even_ext (inject_Z (Zpos m))).
      * pose proof (pow2_pos e). field. lra.
      * split; [lra|]. split; [lra|]. intros [Hc | Hc]; lra.
  - left. split; [exact (good_lt_max r H)|]. split; [exact H | reflexivity].
Qed.

(** In range, the result of a rounding is a float in canonical form that
    holds the rounded value. *)
Lemma rounds_to_good (x : Q) (r : spec_float) :
  rounds_to x r -> x <= pow2 1023 -> good r /\ IsRound x (val r).
Proof.
  intros (v & Hv & H) Hx.
  assert (Hlt : v < pow2 1024).
  { apply Qle_lt_trans with (pow2 1023); [|apply pow2_lt; lia].
    apply (IsRound_le_repr x); [exact Hv | apply repr_pow2; lia | exact Hx]. }
  destruct H as [(_ & Hg & Hval) | [Hge _]]; [|lra].
  split; [exact Hg|]. exact (IsRound_eq _ _ _ Hv Hval).
Qed.

(** ** The relative error of a rounding *)

Definition u : Q := pow2 (-53).
Definition eta : Q := pow2 (-1075).

Lemma IsRound_near (x v : Q) :
  IsRound x v ->
  exists E, ExpOf x E /\ v - x <= pow2 (E - 1) /\ x - v <= pow2 (E - 1).
Proof.
  intros (E & k & HE & (H1 & H2 & _) & Hv). exists E. split; [exact HE|].
  pose proof (pow2_pos (E - 1)) as Hp.
  assert (HE2 : pow2 E == 2 * pow2 (E - 1)).
  { rewrite <- pow2_succ. replace (E - 1 + 1)%Z with E by lia. reflexivity. }
  assert (Hx : x == x / pow2 E * (2 * pow2 (E - 1))).
  { rewrite <- HE2. symmetry. apply Qdiv_pow2_mul. }
  rewrite Hv, HE2.
  revert H1 H2 Hx Hp. generalize (x / pow2 E), (inject_Z k), (pow2 (E - 1)).
  intros q j p H1 H2 Hx Hp0. split; nra.
Qed.

Theorem IsRound_error (x v : Q) :
  IsRound x v -> 0 <= x ->
  v <= x * (1 + u) + eta /\ x * (1 - u) - eta <= v.
Proof.
  intros H Hx0. destruct (IsRound_near x v H) as (E & HE & Hhi & Hlo).
  assert (Hb : pow2 (E - 1) <= x * u + eta).
  { pose proof (pow2_pos (-1075)) as Heta. pose proof (pow2_pos (-53)) as Hu.
    unfold u, eta.
    destruct HE as [[-> _] | (Hn & Hx & _)].
    - change (-1074 - 1)%Z with (-1075)%Z. nra.
    - replace (E - 1)%Z with (E + 52 + -53)%Z by lia. rewrite pow2_add.
      apply Qle_trans with (x * pow2 (-53)); [|lra].
      apply Qmult_le_compat_r; [exact Hx | lra]. }
  split; lra.
Qed.

Theorem IsRound_error_normal (x v : Q) :
  IsRound x v -> pow2 (-1022) <= x ->
  v <= x * (1 + u) /\ x * (1 - u) <= v.
Proof.
  intros H Hx0. destruct (IsRound_near x v H) as (E & HE & Hhi & Hlo).
  assert (Hb : pow2 (E - 1) <= x * u).
  { pose proof (pow2_pos (-53)) as Hu. unfold u.
    destruct HE as [[-> _] | (Hn & Hx & _)].
    - change (-1074 - 1)%Z with (-1022 + -53)%Z. rewrite pow2_add.
      apply Qmult_le_compat_r; [exact Hx0 | lra].
    - replace (E - 1)%Z with (E + 52 + -53)%Z by lia. rewrite pow2_add.
      apply Qmult_le_compat_r; [exact Hx | lra]. }
  split; lra.
Qed.

(** ** The operations *)

Lemma iter_xO (m d : positive) :
  Zpos (Pos.iter xO m d) = (Zpos m * 2 ^ Zpos d)%Z.
Proof.
  induction d as [|d IH] using Pos.peano_ind.
  - cbn [Pos.iter]. lia.
  - rewrite Pos.iter_succ, Pos2Z.inj_succ, Z.pow_succ_r by lia.
    rewrite Pos2Z.inj_xO, IH. ring.
Qed.

Lemma shl_align_spec (m : positive) (e e' : Z) :
  snd (shl_align m e e') = Z.min e e'
  /\ Zpos (fst (shl_align m e e'))
     = (Zpos m * 2 ^ (e - Z.min e e'))%Z.
Proof.
  unfold shl_align. destruct (e' - e)%Z as [|d|d] eqn:Hd; cbn [fst snd].
  - replace (Z.min e e') with e by lia. rewrite Z.sub_diag. split; lia.
  - replace (Z.min e e') with e by lia. rewrite Z.sub_diag. split; lia.
  - replace (Z.min e e') with e' by lia. split; [reflexivity|].
    rewrite iter_xO. f_equal. f_equal. lia.
Qed.

Lemma Zdigits2_shift (m s : Z) :
  (0 < m)%Z -> (0 <= s)%Z -> Zdigits2 (m * 2 ^ s) = (Zdigits2 m + s)%Z.
Proof.
  intros Hm Hs. destruct (Zdigits2_bounds m Hm) as [Hlo Hhi].
  pose proof (Zdigits2_pos m Hm) as Hd.
  assert (Hp : (0 < 2 ^ s)%Z) by (apply Z.pow_pos_nonneg; lia).
  apply Zdigits2_unique; [lia|].
  replace (Zdigits2 m + s - 1)%Z with (Zdigits2 m - 1 + s)%Z by lia.
  rewrite !Z.pow_add_r by lia. split; nia.
Qed.

Lemma located_exact (m e : Z) :
  (0 <= m)%Z ->
  located (inject_Z m * pow2 e) e (shr_record_of_loc m loc_Exact).
Proof.
  intro H. split; [exact H|]. exists 0. split; [cbn; reflexivity|].
  cbn [shr_record_of_loc shr_m]. ring.
Qed.

Lemma binary_round_spec (m : positive) (e : Z) :
  rounds_to (inject_Z (Zpos m) * pow2 e) (binary_round 53 1024 false m e).
Proof.
  unfold binary_round.
  change (fexp 53 1024 (Zpos (digits2_pos m) + e))
    with (fexp64 (Zdigits2 (Zpos m) + e)).
  destruct (shl_align_spec m e (fexp64 (Zdigits2 (Zpos m) + e))) as [He' Hm'].
  destruct (shl_align m e (fexp64 (Zdigits2 (Zpos m) + e))) as [mz ez].
  cbn [fst snd] in He', Hm'. subst ez.
  set (ez := Z.min e (fexp64 (Zdigits2 (Zpos m) + e))) in *.
  assert (Hs : (0 <= e - ez)%Z) by lia.
  apply (rounds_to_ext (inject_Z (Zpos mz) * pow2 ez)).
  - rewrite Hm', inject_Z_mult, <- (pow2_Z (e - ez)) by lia.
    rewrite <- Qmult_assoc, <- pow2_add.
    replace (e - ez + ez)%Z with e by lia.
    reflexivity.
  - apply binary_round_aux_spec.
    + apply located_exact. lia.
    + rewrite Hm'.
      rewrite Zdigits2_shift by lia.
      replace (Zdigits2 (Zpos m) + (e - ez) + ez)%Z
        with (Zdigits2 (Zpos m) + e)%Z by lia.
      lia.
Qed.

Lemma rounds_to_zero (z : bool) : rounds_to 0 (S754_zero z).
Proof. exact (rounds_to_self (S754_zero z) I). Qed.

Lemma binary_normalize_spec (m e : Z) :
  (0 <= m)%Z ->
  rounds_to (inject_Z m * pow2 e) (binary_normalize 53 1024 m e false).
Proof.
  intro Hm. destruct m as [|p|p]; [| |lia]; cbn [binary_normalize].
  - apply (rounds_to_ext 0); [change (inject_Z 0) with 0; ring|].
    apply rounds_to_zero.
  - apply binary_round_spec.
Qed.

(** Multiplication. *)
Theorem SFmul_spec (a b : spec_float) :
  good a -> good b -> rounds_to (val a * val b) (SFmul 53 1024 a b).
Proof.
  intros Ha Hb.
  destruct a as [za| | |[] ma ea]; cbn [good] in Ha; try contradiction;
    destruct b as [zb| | |[] mb eb]; cbn [good] in Hb; try contradiction;
    cbn [SFmul xorb].
  - apply (rounds_to_ext 0); [cbn [val]; ring | apply rounds_to_zero].
  - apply (rounds_to_ext 0); [cbn [val]; ring | apply rounds_to_zero].
  - apply (rounds_to_ext 0); [cbn [val]; ring | apply rounds_to_zero].
  - destruct (good_finite ma ea Ha) as (Hca & _ & Hea & _).
    destruct (good_finite mb eb Hb) as (Hcb & _ & Heb & _).
    apply (rounds_to_ext (inject_Z (Zpos (ma * mb)) * pow2 (ea + eb))).
    + cbn [val]. rewrite Pos2Z.inj_mul, inject_Z_mult, pow2_add. ring.
    + apply binary_round_aux_spec.
      * apply located_exact. lia.
      * rewrite fexp64_eq in *.
        assert (Hd : (Zdigits2 (Zpos ma) + Zdigits2 (Zpos mb) - 1
                      <= Zdigits2 (Zpos (ma * mb)))%Z).
        { destruct (Zdigits2_bounds (Zpos ma) ltac:(lia)) as [Hla _].
          destruct (Zdigits2_bounds (Zpos mb) ltac:(lia)) as [Hlb _].
          pose proof (Zdigits2_pos (Zpos ma) ltac:(lia)).
          pose proof (Zdigits2_pos (Zpos mb) ltac:(lia)).
          replace (Zdigits2 (Zpos ma) + Zdigits2 (Zpos mb) - 1)%Z
            with ((Zdigits2 (Zpos ma) - 1 + (Zdigits2 (Zpos mb) - 1)) + 1)%Z
            by lia.
          apply Zdigits2_ge; [|lia].
          rewrite Z.pow_add_r, Pos2Z.inj_mul by lia.
          apply Z.mul_le_mono_nonneg; try assumption;
            apply Z.pow_nonneg; lia. }
        pose proof (Zdigits2_pos (Zpos ma) ltac:(lia)).
        pose proof (Zdigits2_pos (Zpos mb) ltac:(lia)).
        lia.
Qed.

(** Addition. *)
Theorem SFadd_spec (a b : spec_float) :
  good a -> good b -> rounds_to (val a + val b) (SFadd 53 1024 a b).
Proof.
  intros Ha Hb.
  destruct a as [za| | |[] ma ea]; cbn [good] in Ha; try contradiction;
    destruct b as [zb| | |[] mb eb]; cbn [good] in Hb; try contradiction;
    cbn [SFadd].
  - apply (rounds_to_ext 0); [cbn [val]; ring|].
    destruct za, zb; apply rounds_to_zero.
  - apply (rounds_to_ext (val (S754_finite false mb eb)));
      [cbn [val]; ring | exact (rounds_to_self (S754_finite false mb eb) Hb)].
  - apply (rounds_to_ext (val (S754_finite false ma ea)));
      [cbn [val]; ring | exact (rounds_to_self (S754_finite false ma ea) Ha)].
  - cbn [cond_Zopp].
    destruct (shl_align_spec ma ea (Z.min ea eb)) as [_ Hma].
    destruct (shl_align_spec mb eb (Z.min ea eb)) as [_ Hmb].
    replace (Z.min ea (Z.min ea eb)) with (Z.min ea eb) in Hma by lia.
    replace (Z.min eb (Z.min ea eb)) with (Z.min ea eb) in Hmb by lia.
    change (IntDef.Z.min ea eb) with (Z.min ea eb).
    set (ez := Z.min ea eb) in *.
    apply (rounds_to_ext
             (inject_Z (Zpos (fst (shl_align ma ea ez))
                        + Zpos (fst (shl_align mb eb ez))) * pow2 ez)).
    + rewrite Hma, Hmb, inject_Z_plus, !inject_Z_mult.
      rewrite <- (pow2_Z (ea - ez)), <- (pow2_Z (eb - ez)) by lia.
      cbn [val].
      assert (Hpa : pow2 ea == pow2 (ea - ez) * pow2 ez)
        by (rewrite <- pow2_add; replace (ea - ez + ez)%Z with ea by lia;
            reflexivity).
      assert (Hpb : pow2 eb == pow2 (eb - ez) * pow2 ez)
        by (rewrite <- pow2_add; replace (eb - ez + ez)%Z with eb by lia;
            reflexivity).
      rewrite Hpa, Hpb. ring.
    + apply binary_normalize_spec. lia.
Qed.

Lemma new_location_spec (d r : Z) :
  (0 < d)%Z -> (0 <= r < d)%Z ->
  let mrs := shr_record_of_loc 0 (new_location d r) in
  frac_ok (inject_Z r / inject_Z d) (shr_r mrs) (shr_s mrs).
Proof.
  intros Hd Hr.
  assert (HdQ : 0 < inject_Z d) by (rewrite <- (Zlt_Qlt 0); exact Hd).
  assert (Hhalf : forall c : comparison,
             (2 * r ?= d)%Z = c ->
             match c with
             | Eq => inject_Z r / inject_Z d == 1 # 2
             | Lt => inject_Z r / inject_Z d < 1 # 2
             | Gt => 1 # 2 < inject_Z r / inject_Z d
             end).
  { intros c Hc. destruct c.
    - apply Z.compare_eq in Hc.
      assert (H : 2 * inject_Z r == inject_Z d)
        by (change 2 with (inject_Z 2); rewrite <- inject_Z_mult, Hc;
            reflexivity).
      apply Qmult_inj_r with (inject_Z d); [lra|].
      unfold Qdiv. rewrite <- Qmult_assoc, (Qmult_comm (/ _)), Qmult_inv_r by lra.
      lra.
    - rewrite Z.compare_lt_iff in Hc.
      assert (H : 2 * inject_Z r < inject_Z d)
        by (change 2 with (inject_Z 2); rewrite <- inject_Z_mult, <- Zlt_Qlt;
            exact Hc).
      apply Qlt_shift_div_r; [exact HdQ | lra].
    - rewrite Z.compare_gt_iff in Hc.
      assert (H : inject_Z d < 2 * inject_Z r)
        by (change 2 with (inject_Z 2); rewrite <- inject_Z_mult, <- Zlt_Qlt;
            exact Hc).
      apply Qlt_shift_div_l; [exact HdQ | lra]. }
  assert (Hpos : r <> 0%Z -> 0 < inject_Z r / inject_Z d).
  { intro Hne. apply Qlt_shift_div_l; [exact HdQ|].
    rewrite Qmult_0_l, <- (Zlt_Qlt 0). lia. }
  assert (Hlt1 : inject_Z r / inject_Z d < 1).
  { apply Qlt_shift_div_r; [exact HdQ|]. rewrite Qmult_1_l, <- Zlt_Qlt. lia. }
  assert (Hz : forall (A : Type) (x y : A),
             r <> 0%Z -> (if IntDef.Z.eqb r 0 then x else y) = y).
  { intros A x y Hne. destruct r; [contradiction | reflexivity | reflexivity]. }
  unfold new_location.
  destruct (Z.eq_dec r 0) as [-> | Hne].
  - destruct (IntDef.Z.even d); cbn; unfold Qdiv; rewrite Qmult_0_l;
      reflexivity.
  - specialize (Hpos Hne).
    destruct (IntDef.Z.even d) eqn:Hev;
      unfold new_location_even, new_location_odd; rewrite !(Hz _ _ _ Hne).
    + specialize (Hhalf _ eq_refl).
      change (IntDef.Z.compare (IntDef.Z.mul 2 r) d) with (2 * r ?= d)%Z.
      destruct (2 * r ?= d)%Z; cbn; [exact Hhalf | split; assumption
                                     | split; assumption].
    + assert (Hodd : (2 * r <> d)%Z).
      { intro Heq. subst d. change IntDef.Z.even with Z.even in Hev.
        rewrite Z.even_mul in Hev. discriminate Hev. }
      change (IntDef.Z.compare (IntDef.Z.add (IntDef.Z.mul 2 r) 1) d)
        with (2 * r + 1 ?= d)%Z.
      destruct (2 * r + 1 ?= d)%Z eqn:Hc.
      * apply Z.compare_eq in Hc.
        assert (Hl := Hhalf Lt ltac:(apply Z.compare_lt_iff; lia)).
        cbn. split; assumption.
      * rewrite Z.compare_lt_iff in Hc.
        assert (Hl := Hhalf Lt ltac:(apply Z.compare_lt_iff; lia)).
        cbn. split; assumption.
      * rewrite Z.compare_gt_iff in Hc.
        assert (Hl := Hhalf Gt ltac:(apply Z.compare_gt_iff; lia)).
        cbn. split; assumption.
Qed.

Lemma shr_record_of_loc_rs (m : Z) (l : location) :
  shr_r (shr_record_of_loc m l) = shr_r (shr_record_of_loc 0 l)
  /\ shr_s (shr_record_of_loc m l) = shr_s (shr_record_of_loc 0 l).
Proof. destruct l as [|[]]; split; reflexivity. Qed.

Lemma Zdigits2_nonneg (m : Z) : (0 <= Zdigits2 m)%Z.
Proof. destruct m; cbn; lia. Qed.

Lemma fexp64_mono (a b : Z) : (a <= b)%Z -> (fexp64 a <= fexp64 b)%Z.
Proof. intro H. rewrite !fexp64_eq. lia. Qed.

Lemma SFdiv_core_spec (m1 m2 : positive) (e1 e2 : Z) :
  let '(q, e, l) := SFdiv_core_binary 53 1024 (Zpos m1) e1 (Zpos m2) e2 in
  located (inject_Z (Zpos m1) * pow2 e1 / (inject_Z (Zpos m2) * pow2 e2))
    e (shr_record_of_loc q l)
  /\ (e <= fexp64 (Zdigits2 q + e))%Z.
Proof.
  unfold SFdiv_core_binary.
  change (fexp 53 1024) with fexp64. change IntDef.Z.min with Z.min.
  set (d1 := Zdigits2 (Zpos m1)). set (d2 := Zdigits2 (Zpos m2)).
  set (e := Z.min (fexp64 (d1 + e1 - (d2 + e2))) (e1 - e2)).
  set (s := (e1 - e2 - e)%Z).
  assert (Hs : (0 <= s)%Z) by (subst s e; lia).
  set (m' := match s with
             | 0%Z => Zpos m1
             | Zpos _ => IntDef.Z.shiftl (Zpos m1) s
             | Zneg _ => 0%Z
             end).
  assert (Hm' : m' = (Zpos m1 * 2 ^ s)%Z).
  { subst m'. destruct s as [|p|p] eqn:Hsp; [cbn; lia | | lia].
    change IntDef.Z.shiftl with Z.shiftl.
    rewrite Z.shiftl_mul_pow2 by lia. reflexivity. }
  change IntDef.Z.div_eucl with Z.div_eucl.
  pose proof (Z_div_mod m' (Zpos m2) ltac:(lia)) as Hdiv.
  destruct (Z.div_eucl m' (Zpos m2)) as [q r].
  destruct Hdiv as [Heq Hr].
  assert (Hp : (0 < 2 ^ s)%Z) by (apply Z.pow_pos_nonneg; lia).
  assert (Hq : (0 <= q)%Z) by nia.
  split.
  - split; [rewrite shr_record_of_loc_m; exact Hq|].
    exists (inject_Z r / inject_Z (Zpos m2)).
    destruct (shr_record_of_loc_rs q (new_location (Zpos m2) r)) as [-> ->].
    split; [apply new_location_spec; lia|].
    rewrite shr_record_of_loc_m.
    assert (He1 : pow2 e1 == pow2 s * pow2 e * pow2 e2).
    { rewrite <- !pow2_add. replace (s + e + e2)%Z with e1 by (subst s; lia).
      reflexivity. }
    assert (HmQ : inject_Z (Zpos m1) * pow2 s
                  == inject_Z (Zpos m2) * inject_Z q + inject_Z r).
    { rewrite (pow2_Z s), <- !inject_Z_mult, <- inject_Z_plus by lia.
      rewrite <- Hm', Heq. reflexivity. }
    assert (H2 : 0 < inject_Z (Zpos m2)) by (rewrite <- (Zlt_Qlt 0); lia).
    pose proof (pow2_pos e2) as Hp2.
    rewrite He1.
    transitivity (inject_Z (Zpos m1) * pow2 s * pow2 e / inject_Z (Zpos m2)).
    + field. split; lra.
    + rewrite HmQ. field. lra.
  - assert (Hdq : (d1 + s - d2 <= Zdigits2 q)%Z).
    { pose proof (Zdigits2_nonneg q) as Hn.
      destruct (Z_le_gt_dec (d1 + s - d2) 0) as [|Hgt]; [lia|].
      replace (d1 + s - d2)%Z with (d1 + s - d2 - 1 + 1)%Z by lia.
      apply Zdigits2_ge; [|lia].
      destruct (Zdigits2_bounds (Zpos m1) ltac:(lia)) as [Hl1 _].
      destruct (Zdigits2_bounds (Zpos m2) ltac:(lia)) as [_ Hh2].
      fold d1 in Hl1. fold d2 in Hh2.
      pose proof (Zdigits2_pos (Zpos m2) ltac:(lia)) as Hd2. fold d2 in Hd2.
      assert (Hpa : (0 < 2 ^ (d1 + s - d2 - 1))%Z)
        by (apply Z.pow_pos_nonneg; lia).
      assert (Hsplit : (2 ^ (d1 + s - d2 - 1) * 2 ^ d2 = 2 ^ (d1 - 1) * 2 ^ s)%Z).
      { pose proof (Zdigits2_pos (Zpos m1) ltac:(lia)) as Hd1. fold d1 in Hd1.
        rewrite <- !Z.pow_add_r by lia. f_equal. lia. }
      assert (Hlt : (2 ^ (d1 + s - d2 - 1) * Zpos m2 < Zpos m2 * (q + 1))%Z)
        by nia.
      nia. }
    apply Z.le_trans with (fexp64 (d1 + e1 - (d2 + e2))); [subst e; lia|].
    apply fexp64_mono. subst s. lia.
Qed.

(** Division by a float that is not zero. *)
Theorem SFdiv_spec (a b : spec_float) :
  good a -> good b -> 0 < val b ->
  rounds_to (val a / val b) (SFdiv 53 1024 a b).
Proof.
  intros Ha Hb Hpos.
  destruct b as [zb| | |[] mb eb]; cbn [good] in Hb; try contradiction.
  - cbn [val] in Hpos. lra.
  - destruct a as [za| | |[] ma ea]; cbn [good] in Ha; try contradiction;
      cbn [SFdiv xorb].
    + apply (rounds_to_ext 0); [|apply rounds_to_zero].
      cbn [val]. unfold Qdiv. rewrite Qmult_0_l. reflexivity.
    + pose proof (SFdiv_core_spec ma mb ea eb) as H.
      destruct (SFdiv_core_binary 53 1024 (Zpos ma) ea (Zpos mb) eb)
        as [[q e] l].
      destruct H as [Hloc Hpre]. cbn [val].
      apply binary_round_aux_spec; assumption.
Qed.

(** The comparison is the order of the values. *)
Theorem SFltb_spec (a b : spec_float) :
  good a -> good b -> (SFltb a b = true <-> val a < val b).
Proof.
  intros Ha Hb.
  destruct a as [za| | |[] ma ea]; cbn [good] in Ha; try contradiction;
    destruct b as [zb| | |[] mb eb]; cbn [good] in Hb; try contradiction.
  - cbn. split; [discriminate | lra].
  - pose proof (good_finite_pos mb eb). cbn [SFltb SFcompare val] in *.
    split; [intros _; assumption | reflexivity].
  - pose proof (good_finite_pos ma ea). cbn [SFltb SFcompare val] in *.
    split; [discriminate | lra].
  - pose proof (good_ExpOf ma ea Ha) as HEa.
    pose proof (good_ExpOf mb eb Hb) as HEb.
    unfold SFltb. cbn [SFcompare].
    destruct (Z.compare_spec ea eb) as [Heq | Hlt | Hgt].
    + subst eb. rewrite Pos.compare_cont_spec. cbn [Pos.switch_Eq val].
      pose proof (pow2_pos ea) as Hp.
      destruct (Pos.compare_spec ma mb) as [Hm | Hm | Hm].
      * subst mb. split; [discriminate | lra].
      * split; [intros _ | reflexivity].
        apply Qmult_lt_compat_r; [exact Hp|]. rewrite <- Zlt_Qlt. lia.
      * split; [discriminate|]. intro H. exfalso.
        apply Qmult_lt_r in H; [|exact Hp]. rewrite <- Zlt_Qlt in H. lia.
    + split; [intros _ | reflexivity].
      destruct HEb as [[HE _] | (_ & Hlo & _)];
        [pose proof (ExpOf_ge _ _ HEa); lia|].
      apply Qlt_le_trans with (pow2 (ea + 53)); [exact (ExpOf_below _ _ HEa)|].
      apply Qle_trans with (pow2 (eb + 52)); [apply pow2_le; lia | exact Hlo].
    + split; [discriminate|]. intro H. exfalso.
      destruct HEa as [[HE _] | (_ & Hlo & _)];
        [pose proof (ExpOf_ge _ _ HEb); lia|].
      pose proof (ExpOf_below _ _ HEb) as Hhi.
      assert (Hc : pow2 (ea + 52) < pow2 (eb + 53)) by lra.
      apply pow2_lt_inv in Hc. lia.
Qed.

(** ** Accumulated rounding errors

    [within k x v]: [v] is [x] up to [k] roundings, each of relative error
    at most [u = 2^-53]; the factor of one rounding is [beta = 1/(1-u)]. *)

Lemma pow2_0 : pow2 0 == 1.
Proof. rewrite (pow2_Z 0) by lia. reflexivity. Qed.

Lemma u_pos : 0 < u.
Proof. apply pow2_pos. Qed.

Lemma u_small : u <= 1 # 1000.
Proof.
  unfold u. apply Qle_trans with (pow2 (-10)); [apply pow2_le; lia|].
  assert (H : pow2 (-10) * pow2 10 == 1)
    by (rewrite <- pow2_add, <- pow2_0; reflexivity).
  rewrite (pow2_Z 10) in H by lia.
  change (inject_Z (2 ^ 10)) with 1024 in H.
  assert (pow2 (-10) == 1 # 1024) by (field_simplify_eq in H; lra).
  lra.
Qed.

Definition beta : Q := / (1 - u).

Lemma beta_spec : beta * (1 - u) == 1.
Proof.
  unfold beta. pose proof u_small. rewrite Qmult_comm. apply Qmult_inv_r. lra.
Qed.

Lemma beta_ge : 1 + u <= beta.
Proof.
  pose proof beta_spec as H. pose proof u_pos as Hu. pose proof u_small as Hs.
  assert (H1 : 0 < 1 - u) by lra.
  apply (Qmult_le_r _ _ (1 - u) H1). rewrite H. nra.
Qed.

Lemma beta_le : beta <= 1 + 2 * u.
Proof.
  pose proof beta_spec as H. pose proof u_pos as Hu. pose proof u_small as Hs.
  assert (H1 : 0 < 1 - u) by lra.
  apply (Qmult_le_r _ _ (1 - u) H1). rewrite H. nra.
Qed.

Fixpoint bp (k : nat) : Q :=
  match k with
  | O => 1
  | S k => beta * bp k
  end.

Lemma bp_ge_1 (k : nat) : 1 <= bp k.
Proof.
  pose proof beta_ge as Hb. pose proof u_pos as Hu.
  induction k as [|k IH]; cbn [bp]; [lra | nra].
Qed.

Lemma bp_add (j k : nat) : bp (j + k) == bp j * bp k.
Proof.
  induction j as [|j IH]; cbn [bp Nat.add]; [ring | rewrite IH; ring].
Qed.

Lemma bp_mono (j k : nat) : (j <= k)%nat -> bp j <= bp k.
Proof.
  intro H. replace k with (j + (k - j))%nat by lia. rewrite bp_add.
  pose proof (bp_ge_1 j). pose proof (bp_ge_1 (k - j)). nra.
Qed.

(** [k] roundings change a value by at most the factor [1 + 2 k u]. *)
Lemma bp_linear (k : nat) :
  2 * inject_Z (Z.of_nat k) * u <= 1 ->
  bp k <= 1 + 2 * inject_Z (Z.of_nat k) * u.
Proof.
  pose proof u_pos as Hu. pose proof u_small as Hs. pose proof beta_spec as Hb.
  induction k as [|k IH]; intro Hk.
  - cbn [bp]. change (inject_Z (Z.of_nat 0)) with 0. lra.
  - rewrite Nat2Z.inj_succ in *. unfold Z.succ in *.
    rewrite inject_Z_plus in *. change (inject_Z 1) with 1 in *.
    assert (Hk0 : 0 <= inject_Z (Z.of_nat k))
      by (rewrite <- (Zle_Qle 0); lia).
    revert IH Hk Hk0. generalize (inject_Z (Z.of_nat k)). intros n IH Hk Hk0.
    assert (IH' : bp k <= 1 + 2 * n * u) by (apply IH; nra).
    cbn [bp]. assert (H1 : 0 < 1 - u) by lra.
    apply (Qmult_le_r _ _ (1 - u) H1).
    setoid_replace (beta * bp k * (1 - u)) with (bp k * (beta * (1 - u)))
      by ring.
    rewrite Hb. nra.
Qed.

Definition within (k : nat) (x v : Q) : Prop :=
  x <= v * bp k /\ v <= x * bp k.

Lemma within_refl (x : Q) : within 0 x x.
Proof. unfold within. cbn [bp]. split; lra. Qed.

Lemma within_sym (k : nat) (x v : Q) : within k x v -> within k v x.
Proof. intros [H1 H2]. split; assumption. Qed.

Lemma within_nonneg (k : nat) (x v : Q) : within k x v -> 0 <= x -> 0 <= v.
Proof.
  intros [H1 _] Hx. pose proof (bp_ge_1 k) as Hb.
  destruct (Qlt_le_dec v 0) as [Hneg|]; [exfalso | assumption]. nra.
Qed.

Lemma within_weaken (j k : nat) (x v : Q) :
  (j <= k)%nat -> 0 <= x -> within j x v -> within k x v.
Proof.
  intros Hjk Hx Hw. pose proof (within_nonneg _ _ _ Hw Hx) as Hv.
  destruct Hw as [H1 H2]. pose proof (bp_mono j k Hjk) as Hb.
  pose proof (bp_ge_1 j). split; nra.
Qed.

Lemma within_trans (j k : nat) (x y z : Q) :
  within j x y -> within k y z -> within (j + k) x z.
Proof.
  intros [H1 H2] [H3 H4]. pose proof (bp_ge_1 j). pose proof (bp_ge_1 k).
  unfold within. rewrite bp_add. split; nra.
Qed.

Lemma within_add (k : nat) (x y v w : Q) :
  within k x v -> within k y w -> within k (x + y) (v + w).
Proof. intros [H1 H2] [H3 H4]. split; lra. Qed.

Lemma within_mul (j k : nat) (x y v w : Q) :
  0 <= x -> 0 <= y ->
  within j x v -> within k y w -> within (j + k) (x * y) (v * w).
Proof.
  intros Hx Hy Hxv Hyw.
  pose proof (within_nonneg _ _ _ Hxv Hx) as Hv.
  pose proof (within_nonneg _ _ _ Hyw Hy) as Hw.
  destruct Hxv as [H1 H2]. destruct Hyw as [H3 H4].
  pose proof (bp_ge_1 j). pose proof (bp_ge_1 k).
  unfold within. rewrite bp_add. split.
  - setoid_replace (v * w * (bp j * bp k)) with ((v * bp j) * (w * bp k))
      by ring.
    apply Qmult_le_compat_nonneg; split; assumption.
  - setoid_replace (x * y * (bp j * bp k)) with ((x * bp j) * (y * bp k))
      by ring.
    apply Qmult_le_compat_nonneg; split; assumption.
Qed.

Lemma Qdiv_le_cross (a b c d : Q) :
  0 < b -> 0 < d -> a * d <= c * b -> a / b <= c / d.
Proof.
  intros Hb Hd H.
  apply Qle_shift_div_r; [exact Hb|].
  setoid_replace (c / d * b) with (c * b / d) by (field; lra).
  apply Qle_shift_div_l; [exact Hd | exact H].
Qed.

Lemma within_div (j k : nat) (x y v w : Q) :
  0 <= x -> 0 < y -> 0 < w ->
  within j x v -> within k y w -> within (j + k) (x / y) (v / w).
Proof.
  intros Hx Hy Hw Hxv Hyw.
  pose proof (within_nonneg _ _ _ Hxv Hx) as Hv.
  destruct Hxv as [H1 H2]. destruct Hyw as [H3 H4].
  pose proof (bp_ge_1 j). pose proof (bp_ge_1 k).
  unfold within. rewrite bp_add. split.
  - setoid_replace (v / w * (bp j * bp k)) with (v * (bp j * bp k) / w)
      by (field; lra).
    apply Qdiv_le_cross; [exact Hy | exact Hw|].
    setoid_replace (v * (bp j * bp k) * y) with ((v * bp j) * (y * bp k))
      by ring.
    apply Qmult_le_compat_nonneg; split; lra.
  - setoid_replace (x / y * (bp j * bp k)) with (x * (bp j * bp k) / y)
      by (field; lra).
    apply Qdiv_le_cross; [exact Hw | exact Hy|].
    setoid_replace (x * (bp j * bp k) * w) with ((x * bp j) * (w * bp k))
      by ring.
    apply Qmult_le_compat_nonneg; split; lra.
Qed.

Lemma within_ext (k : nat) (x x' v v' : Q) :
  x == x' -> v == v' -> within k x v -> within k x' v'.
Proof. intros Hx Hv [H1 H2]. split; nra. Qed.

Lemma within_of_bounds (x v : Q) :
  0 <= x -> v <= x * (1 + u) -> x * (1 - u) <= v -> within 1 x v.
Proof.
  intros Hx Hhi Hlo. pose proof beta_ge as Hb. pose proof beta_spec as Hs.
  pose proof u_pos. pose proof u_small.
  unfold within. cbn [bp]. split.
  - apply Qle_trans with (x * (1 - u) * beta); [|nra].
    setoid_replace (x * (1 - u) * beta) with (x * (beta * (1 - u))) by ring.
    rewrite Hs. lra.
  - nra.
Qed.

Lemma IsRound_near_at (x v : Q) (E : Z) :
  IsRound x v -> ExpOf x E ->
  v - x <= pow2 (E - 1) /\ x - v <= pow2 (E - 1).
Proof.
  intros H HE. destruct (IsRound_near x v H) as (E' & HE' & Hb).
  rewrite (ExpOf_unique x E E' HE HE'). exact Hb.
Qed.

(** The multiples of [2^-1074], the spacing of the smallest floats. *)
Definition grid (x : Q) : Prop :=
  exists M : Z, x == inject_Z M * pow2 (-1074).

Lemma grid_add (x y : Q) : grid x -> grid y -> grid (x + y).
Proof.
  intros [M HM] [N HN]. exists (M + N)%Z.
  rewrite inject_Z_plus, HM, HN. ring.
Qed.

Lemma grid_mul_int (z : Z) (x : Q) : grid x -> grid (inject_Z z * x).
Proof.
  intros [M HM]. exists (z * M)%Z. rewrite inject_Z_mult, HM. ring.
Qed.

Lemma grid_ext (x y : Q) : x == y -> grid x -> grid y.
Proof. intros H [M HM]. exists M. rewrite <- H. exact HM. Qed.

Lemma good_grid (r : spec_float) : good r -> grid (val r).
Proof.
  intro H. destruct (good_repr r H) as (m & e & Hm & He & Hv).
  exists (m * 2 ^ (e + 1074))%Z.
  rewrite Hv, inject_Z_mult, <- (pow2_Z (e + 1074)), <- Qmult_assoc,
    <- pow2_add by lia.
  replace (e + 1074 + -1074)%Z with e by lia. reflexivity.
Qed.

(** A rounding has relative error at most [u] when the value is in the
    normal range, and also when it is a multiple of [2^-1074] (then the
    rounding is exact below the normal range). *)
Theorem IsRound_within (x v : Q) :
  IsRound x v -> 0 <= x -> pow2 (-1022) <= x \/ grid x -> within 1 x v.
Proof.
  intros H Hx [Hn | Hg].
  - destruct (IsRound_error_normal x v H Hn) as [Hhi Hlo].
    apply within_of_bounds; assumption.
  - pose proof H as (E & k & HE & Hk & Hv).
    pose proof u_pos as Hu.
    destruct (Z.eq_dec E (-1074)) as [-> | Hne].
    + destruct Hg as [M HM].
      assert (Hq : x / pow2 (-1074) == inject_Z M).
      { pose proof (pow2_pos (-1074)). rewrite HM. field. lra. }
      assert (k = M) by (apply (nearest_even_int _ _ _ Hq Hk)).
      subst k. rewrite <- HM in Hv.
      apply within_of_bounds; [assumption | nra | nra].
    + assert (Hn : pow2 (-1022) <= x).
      { destruct HE as [[HE _] | (HE & Hlo & _)]; [contradiction|].
        apply Qle_trans with (2 := Hlo). apply pow2_le. lia. }
      destruct (IsRound_error_normal x v H Hn) as [Hhi Hlo].
      apply within_of_bounds; assumption.
Qed.

End Rounding.

Import Rounding.

Lemma of_Z_spec (z : Z) :
  (0 <= z)%Z -> inject_Z z <= pow2 1023 ->
  good (B64.of_Z z) /\ IsRound (inject_Z z) (val (B64.of_Z z)).
Proof.
  intros Hz Hle. unfold B64.of_Z, B64.prec, B64.emax.
  pose proof (binary_normalize_spec z 0 Hz) as H.
  apply (rounds_to_ext _ (inject_Z z)) in H.
  - exact (rounds_to_good _ _ H Hle).
  - rewrite (pow2_Z 0) by lia. change (inject_Z (2 ^ 0)) with 1. ring.
Qed.

Lemma of_Z_exact (z : Z) :
  (0 <= z < 2 ^ 53)%Z ->
  good (B64.of_Z z) /\ val (B64.of_Z z) == inject_Z z.
Proof.
  intro Hz.
  assert (Hle : inject_Z z <= pow2 1023).
  { apply Qle_trans with (pow2 53); [|apply pow2_le; lia].
    rewrite (pow2_Z 53), <- Zle_Qle by lia. lia. }
  destruct (of_Z_spec z ltac:(lia) Hle) as [Hg Hr].
  split; [exact Hg|]. apply IsRound_repr; [|exact Hr].
  apply repr_int. exact Hz.
Qed.

Lemma pow2_neg (n : Z) : pow2 n * pow2 (- n) == 1.
Proof.
  rewrite <- pow2_add, Z.add_opp_diag_r, (pow2_Z 0) by lia. reflexivity.
Qed.

(** [math.ceil] of a float: the least integer that is not below it. *)
Theorem ceil_spec (x : spec_float) :
  good x ->
  exists n : Z,
    B64.ceil x = Ok n /\ inject_Z n - 1 < val x /\ val x <= inject_Z n.
Proof.
  intro Hx.
  destruct x as [z| | |[] m e]; cbn [good] in Hx; try contradiction.
  - exists 0%Z. cbn. split; [reflexivity|]. split; [reflexivity | discriminate].
  - cbn [B64.ceil B64.signed val].
    destruct (Z.leb_spec 0 e) as [He | He].
    + exists (Zpos m * 2 ^ e)%Z. split; [reflexivity|].
      rewrite inject_Z_mult, <- (pow2_Z e) by lia.
      split; [lra | apply Qle_refl].
    + exists (- (- Zpos m / 2 ^ (- e)))%Z. split; [reflexivity|].
      assert (HD : (0 < 2 ^ (- e))%Z) by (apply Z.pow_pos_nonneg; lia).
      pose proof (Z.mul_div_le (- Zpos m) (2 ^ (- e)) HD) as Hlo.
      pose proof (Z.mul_succ_div_gt (- Zpos m) (2 ^ (- e)) HD) as Hhi.
      set (q := (- Zpos m / 2 ^ (- e))%Z) in *.
      pose proof (pow2_neg e) as Hinv. pose proof (pow2_pos e) as Hpe.
      pose proof (pow2_pos (- e)) as Hpn.
      assert (HlQ : inject_Z (2 ^ (- e)) * inject_Z q <= - inject_Z (Zpos m)).
      { rewrite <- inject_Z_mult, <- inject_Z_opp, <- Zle_Qle. exact Hlo. }
      assert (HhQ : - inject_Z (Zpos m)
                    < inject_Z (2 ^ (- e)) * (inject_Z q + 1)).
      { change 1 with (inject_Z 1).
        rewrite <- inject_Z_plus, <- inject_Z_mult, <- inject_Z_opp,
          <- Zlt_Qlt. exact Hhi. }
      rewrite <- (pow2_Z (- e)) in HlQ, HhQ by lia.
      rewrite inject_Z_opp.
      revert HlQ HhQ Hinv Hpe Hpn.
      generalize (inject_Z q), (inject_Z (Zpos m)), (pow2 e), (pow2 (- e)).
      intros a b p p' HlQ HhQ Hinv Hpe Hpn.
      assert (Hb : b == b * p * p') by (rewrite <- Qmult_assoc, Hinv; ring).
      split.
      * apply (Qmult_lt_r _ _ p' Hpn). nra.
      * apply (Qmult_le_r _ _ p' Hpn). nra.
Qed.

(** ** The operations of the [binary64] instance on floats in canonical
    form *)

Lemma fmul64 (a b : spec_float) :
  good a -> good b -> val a * val b <= pow2 1023 ->
  good (fmul a b) /\ IsRound (val a * val b) (val (fmul a b)).
Proof.
  intros Ha Hb Hle. change (fmul a b) with (SFmul 53 1024 a b).
  apply rounds_to_good; [apply SFmul_spec; assumption | exact Hle].
Qed.

Lemma fadd64 (a b : spec_float) :
  good a -> good b -> val a + val b <= pow2 1023 ->
  good (fadd a b) /\ IsRound (val a + val b) (val (fadd a b)).
Proof.
  intros Ha Hb Hle. change (fadd a b) with (SFadd 53 1024 a b).
  apply rounds_to_good; [apply SFadd_spec; assumption | exact Hle].
Qed.

Lemma fdiv64 (a b : spec_float) :
  good a -> good b -> 0 < val b -> val a / val b <= pow2 1023 ->
  exists r, fdiv a b = Ok r /\ good r /\ IsRound (val a / val b) (val r).
Proof.
  intros Ha Hb Hpos Hle. exists (SFdiv 53 1024 a b).
  split.
  - change (fdiv a b) with (B64.div a b). unfold B64.div.
    destruct b as [zb| | |[] mb eb]; cbn [good] in Hb; try contradiction.
    + cbn [val] in Hpos. lra.
    + reflexivity.
  - apply rounds_to_good; [apply SFdiv_spec; assumption | exact Hle].
Qed.

Lemma flt64 (a b : spec_float) :
  good a -> good b -> (flt a b = true <-> val a < val b).
Proof. intros Ha Hb. exact (SFltb_spec a b Ha Hb). Qed.

Lemma flt64_false (a b : spec_float) :
  good a -> good b -> val b <= val a -> flt a b = false.
Proof.
  intros Ha Hb Hle. destruct (flt a b) eqn:E; [|reflexivity].
  apply (flt64 a b Ha Hb) in E. lra.
Qed.

Lemma of_int64 (z : Z) :
  (0 <= z < 2 ^ 53)%Z ->
  good (of_int (F:=spec_float) z)
  /\ val (of_int (F:=spec_float) z) == inject_Z z.
Proof. exact (of_Z_exact z). Qed.

(** A decimal literal [n/d] of the source, with [n] and [d] below [2^53]:
    the float nearest to it. *)
Lemma lit64 (q : Q) :
  (0 <= Qnum q < 2 ^ 53)%Z -> (Zpos (Qden q) < 2 ^ 53)%Z ->
  good (lit (F:=spec_float) q) /\ IsRound q (val (lit (F:=spec_float) q)).
Proof.
  intros Hn Hd.
  destruct (of_Z_exact (Qnum q) Hn) as [Hgn Hvn].
  destruct (of_Z_exact (Zpos (Qden q)) ltac:(lia)) as [Hgd Hvd].
  assert (Hq : val (B64.of_Z (Qnum q)) / val (B64.of_Z (Zpos (Qden q))) == q).
  { rewrite Hvn, Hvd. symmetry. apply Qmake_Qdiv. }
  assert (Hpos : 0 < val (B64.of_Z (Zpos (Qden q)))).
  { rewrite Hvd. rewrite <- (Zlt_Qlt 0). lia. }
  assert (Hle : val (B64.of_Z (Qnum q)) / val (B64.of_Z (Zpos (Qden q)))
                <= pow2 1023).
  { rewrite Hq. apply Qle_trans with (inject_Z (Qnum q)).
    - destruct q as [n d]. cbn [Qnum Qden] in *. unfold Qle, inject_Z.
      cbn [Qnum Qden]. nia.
    - apply Qle_trans with (pow2 53); [|apply pow2_le; lia].
      rewrite (pow2_Z 53), <- Zle_Qle by lia. lia. }
  change (lit q) with (SFdiv 53 1024 (B64.of_Z (Qnum q))
                         (B64.of_Z (Zpos (Qden q)))).
  destruct (rounds_to_good _ _ (SFdiv_spec _ _ Hgn Hgd Hpos) Hle) as [Hg Hr].
  split; [exact Hg|]. exact (IsRound_ext _ _ _ Hq Hr).
Qed.

(** ** The load loop as two float sums *)

Section LoadSums.

Context {F : Type} `{Float F}.

(** What an item adds to the night load when it is counted. *)
Definition night_term (it : item F) : F := fmul (daily_use it) (lit 0.6).

(** The items the night load counts: all of them, or in Smart Saver mode
    those outside the two heavy categories. *)
Definition counted (mode : OperatingMode) (it : item F) : bool :=
  negb (smart mode && is_heavy it).

(** The float sum of a sequence, from the left, as the loop accumulates
    it. *)
Definition fsum (xs : list F) : F := fold_left fadd xs (of_int 0).

Lemma fold_left_fadd_map (A : Type) (g : A -> F) (l : list A) :
  forall acc,
    fold_left (fun t a => fadd t (g a)) l acc = fold_left fadd (map g l) acc.
Proof.
  induction l as [|a l IH]; intro acc; [reflexivity|].
  cbn [fold_left map]. apply IH.
Qed.

Lemma night_fold_any (mode : OperatingMode) (items : list (item F)) :
  forall acc,
    night_load_wh (fold_left (load_step mode) items acc)
    = fold_left fadd (map night_term (filter (counted mode) items))
        (night_load_wh acc).
Proof.
  induction items as [|it items IH]; intro acc; [reflexivity|].
  cbn [fold_left filter]. rewrite IH.
  assert (Hstep : night_load_wh (load_step mode acc it)
                  = if counted mode it
                    then fadd (night_load_wh acc) (night_term it)
                    else night_load_wh acc).
  { unfold load_step, counted. cbn [night_load_wh].
    destruct (smart mode && is_heavy it); reflexivity. }
  rewrite Hstep. destruct (counted mode it); reflexivity.
Qed.

Lemma load_sums (mode : OperatingMode) (items : list (item F)) :
  total_daily_wh (load_analysis mode items) = fsum (map daily_use items)
  /\ night_load_wh (load_analysis mode items)
     = fsum (map night_term (filter (counted mode) items)).
Proof.
  unfold load_analysis, fsum. split.
  - rewrite total_fold_any. apply fold_left_fadd_map.
  - apply night_fold_any.
Qed.

Lemma fsum_snoc (xs : list F) (x : F) : fsum (xs ++ [x]) = fadd (fsum xs) x.
Proof. unfold fsum. rewrite fold_left_app. reflexivity. Qed.

End LoadSums.

(** ** Float sums in binary64 *)

Section Sums64.

Lemma Qsum_snoc (l : list Q) (x : Q) : Qsum (l ++ [x]) == Qsum l + x.
Proof. rewrite Qsum_app. cbn. ring. Qed.

Lemma small_count (k : nat) :
  (Z.of_nat k <= 2 ^ 30)%Z ->
  2 * inject_Z (Z.of_nat k) * u <= pow2 (-22).
Proof.
  intro Hk. unfold u.
  assert (H : inject_Z (Z.of_nat k) <= pow2 30)
    by (rewrite (pow2_Z 30), <- Zle_Qle by lia; exact Hk).
  pose proof (pow2_pos (-53)) as Hu.
  replace (-22)%Z with (1 + (30 + -53))%Z by reflexivity.
  rewrite (pow2_add 1), (pow2_add 30), (pow2_Z 1) by lia.
  change (inject_Z (2 ^ 1)) with 2. nra.
Qed.

Lemma bp_le_2 (k : nat) : (Z.of_nat k <= 2 ^ 30)%Z -> bp k <= 2.
Proof.
  intro Hk. pose proof (small_count k Hk) as Hs.
  assert (H1 : pow2 (-22) <= 1) by (rewrite <- pow2_0; apply pow2_le; lia).
  apply Qle_trans with (1 + 2 * inject_Z (Z.of_nat k) * u); [|lra].
  apply bp_linear. lra.
Qed.

Lemma of_int_0 : of_int (F:=spec_float) 0 = S754_zero false.
Proof. reflexivity. Qed.

Lemma Qsum_bound (l : list Q) (B : Q) :
  Forall (fun x => x <= B) l ->
  Qsum l <= inject_Z (Z.of_nat (List.length l)) * B.
Proof.
  induction 1 as [|x l Hx _ IH].
  - cbn [List.length Qsum fold_right]. change (inject_Z (Z.of_nat 0)) with 0.
    lra.
  - cbn [List.length Qsum fold_right]. fold (Qsum l).
    rewrite Nat2Z.inj_succ. unfold Z.succ. rewrite inject_Z_plus.
    change (inject_Z 1) with 1. lra.
Qed.

Lemma Qsum_vals_nonneg (xs : list spec_float) :
  Forall good xs -> 0 <= Qsum (map val xs).
Proof.
  induction 1 as [|x xs Hx _ IH]; cbn [map Qsum fold_right].
  - apply Qle_refl.
  - fold (Qsum (map val xs)). pose proof (good_nonneg x Hx). lra.
Qed.

(** The magnitude the sums of the program stay below: at most [2^20] terms,
    of at most [2^25] each. *)
Definition summable (xs : list spec_float) : Prop :=
  Forall (fun x => good x /\ val x <= pow2 25) xs
  /\ (Z.of_nat (List.length xs) <= 2 ^ 20)%Z.

Lemma summable_snoc (xs : list spec_float) (x : spec_float) :
  summable (xs ++ [x]) ->
  summable xs /\ good x /\ val x <= pow2 25.
Proof.
  intros [Hall Hlen]. apply Forall_app in Hall. destruct Hall as [Hxs Hx].
  apply Forall_inv in Hx. rewrite length_app in Hlen. cbn [List.length] in Hlen.
  split; [|exact Hx]. split; [exact Hxs | lia].
Qed.

(** The float sum of [n] terms is the exact sum up to [n] roundings. *)
Theorem fsum64 (xs : list spec_float) :
  summable xs ->
  good (fsum xs)
  /\ within (List.length xs) (Qsum (map val xs)) (val (fsum xs))
  /\ val (fsum xs) <= pow2 46.
Proof.
  induction xs as [|x xs IH] using rev_ind; intro Hs.
  - unfold fsum. cbn [fold_left]. rewrite of_int_0. cbn [good val map Qsum
      fold_right List.length].
    split; [exact I|]. split; [apply within_refl|].
    apply Qlt_le_weak, pow2_pos.
  - destruct (summable_snoc xs x Hs) as (Hxs & Hgx & Hbx).
    destruct (IH Hxs) as (Hg & Hw & Hb).
    destruct Hs as [_ Hlen]. rewrite length_app in *. cbn [List.length] in *.
    rewrite fsum_snoc.
    pose proof (good_nonneg x Hgx) as Hx0.
    pose proof (good_nonneg _ Hg) as Hs0.
    assert (Hsum : val (fsum xs) + val x <= pow2 1023).
    { apply Qle_trans with (pow2 47); [|apply pow2_le; lia].
      replace 47%Z with (46 + 1)%Z by reflexivity. rewrite pow2_succ.
      assert (pow2 25 <= pow2 46) by (apply pow2_le; lia). lra. }
    destruct (fadd64 _ _ Hg Hgx Hsum) as [Hg' Hr].
    assert (Hw1 : within 1 (val (fsum xs) + val x)
                    (val (fadd (fsum xs) x))).
    { apply IsRound_within; [exact Hr | lra|].
      right. apply grid_add; apply good_grid; assumption. }
    assert (HS0 : 0 <= Qsum (map val xs)).
    { apply Qsum_vals_nonneg. destruct Hxs as [Hall _].
      eapply Forall_impl; [|exact Hall]. intros a [Ha _]. exact Ha. }
    assert (Hw' : within (List.length xs + 1)
                    (Qsum (map val (xs ++ [x])))
                    (val (fadd (fsum xs) x))).
    { apply (within_trans _ _ _ (val (fsum xs) + val x)); [|exact Hw1].
      apply (within_ext _ (Qsum (map val xs) + val x) _
               (val (fsum xs) + val x));
        [rewrite map_app; cbn [map]; rewrite Qsum_snoc; reflexivity
        | reflexivity|].
      apply within_add; [exact Hw|].
      apply (within_weaken 0); [lia | exact Hx0 | apply within_refl]. }
    split; [exact Hg'|]. split; [exact Hw'|].
    (* the magnitude *)
    destruct Hw' as [_ Hup].
    assert (Hbp : bp (List.length xs + 1) <= 2).
    { apply bp_le_2. lia. }
    assert (HS : Qsum (map val (xs ++ [x]))
                 <= inject_Z (Z.of_nat (List.length (xs ++ [x]))) * pow2 25).
    { rewrite <- (length_map val). apply Qsum_bound.
      apply Forall_map. destruct Hxs as [Hall _].
      apply Forall_app. split.
      - eapply Forall_impl; [|exact Hall]. intros a [_ Ha]. exact Ha.
      - constructor; [exact Hbx | constructor]. }
    rewrite length_app in HS. cbn [List.length] in HS.
    assert (Hn : inject_Z (Z.of_nat (List.length xs + 1)) <= pow2 20).
    { rewrite (pow2_Z 20), <- Zle_Qle by lia. exact Hlen. }
    assert (HS' : 0 <= Qsum (map val (xs ++ [x]))).
    { rewrite map_app. cbn [map]. rewrite Qsum_snoc. lra. }
    replace 46%Z with (1 + (20 + 25))%Z by reflexivity.
    rewrite (pow2_add 1), (pow2_add 20), (pow2_Z 1) by lia.
    change (inject_Z (2 ^ 1)) with 2.
    pose proof (pow2_pos 25). pose proof (pow2_pos 20).
    pose proof (bp_ge_1 (List.length xs + 1)).
    apply Qle_trans with (1 := Hup).
    apply Qle_trans with (inject_Z (Z.of_nat (List.length xs + 1)) * pow2 25 * 2).
    + apply Qmult_le_compat_nonneg; split; lra.
    + nra.
Qed.

End Sums64.

(** ** The load analysis in binary64 *)

Section Loads64.

(** What the widgets and the catalogue allow of an item, with room: watts
    times quantity up to [2^20], hours a float from 0 to 24. *)
Definition wf64 (it : item spec_float) : Prop :=
  (0 <= it_watts it * qty it <= 2 ^ 20)%Z
  /\ good (hours it) /\ val (hours it) <= 24.

(** The daily energy of an item, the night share and the sums of the
    specification, computed without rounding from the values the floats
    hold. *)
Definition exact_use (it : item spec_float) : Q :=
  inject_Z (it_watts it * qty it) * val (hours it).

Definition exact_total (items : list (item spec_float)) : Q :=
  Qsum (map exact_use items).

Definition exact_night (mode : OperatingMode)
    (items : list (item spec_float)) : Q :=
  Qsum (map (fun it => exact_use it * 0.6) (filter (counted mode) items)).

Lemma exact_use_nonneg (it : item spec_float) : wf64 it -> 0 <= exact_use it.
Proof.
  intros (Hw & Hg & Hh). unfold exact_use.
  apply Qmult_le_0_compat; [|apply good_nonneg; exact Hg].
  rewrite <- (Zle_Qle 0). lia.
Qed.

Lemma daily_use64 (it : item spec_float) :
  wf64 it ->
  good (daily_use it)
  /\ within 1 (exact_use it) (val (daily_use it))
  /\ val (daily_use it) <= pow2 25.
Proof.
  intros Hwf. pose proof (exact_use_nonneg it Hwf) as Hx0.
  destruct Hwf as (Hw & Hg & Hh).
  destruct (of_int64 (it_watts it * qty it) ltac:(lia)) as [Hgw Hvw].
  pose proof (good_nonneg _ Hg) as Hh0.
  assert (HW : inject_Z (it_watts it * qty it) <= pow2 20)
    by (rewrite (pow2_Z 20), <- Zle_Qle by lia; lia).
  assert (HW0 : 0 <= inject_Z (it_watts it * qty it))
    by (rewrite <- (Zle_Qle 0); lia).
  assert (Hx : exact_use it <= pow2 25).
  { unfold exact_use. replace 25%Z with (20 + 5)%Z by reflexivity.
    rewrite pow2_add, (pow2_Z 5) by lia. change (inject_Z (2 ^ 5)) with 32.
    apply Qmult_le_compat_nonneg; split; lra. }
  assert (Hle : val (of_int (it_watts it * qty it)) * val (hours it)
                <= pow2 1023).
  { rewrite Hvw. apply Qle_trans with (1 := Hx). apply pow2_le. lia. }
  destruct (fmul64 _ _ Hgw Hg Hle) as [Hgd Hr].
  apply (IsRound_ext _ (exact_use it)) in Hr;
    [|unfold exact_use; rewrite Hvw; reflexivity].
  split; [exact Hgd|]. split.
  - apply IsRound_within; [exact Hr | exact Hx0|].
    right. apply grid_mul_int, good_grid. exact Hg.
  - apply (IsRound_le_repr (exact_use it)); [exact Hr | | exact Hx].
    apply repr_pow2. lia.
Qed.

(** The literal 0.6. *)
Lemma lit_06 :
  good (lit (F:=spec_float) 0.6)
  /\ within 1 0.6 (val (lit (F:=spec_float) 0.6))
  /\ val (lit (F:=spec_float) 0.6) <= 1.
Proof.
  destruct (lit64 0.6) as [Hg Hr]; [cbn; lia | cbn; lia|].
  split; [exact Hg|]. split.
  - apply IsRound_within; [exact Hr | lra|]. left.
    apply Qle_trans with (pow2 (-1)); [apply pow2_le; lia|].
    assert (H : pow2 (-1) * pow2 1 == 1)
      by (rewrite <- pow2_add, <- pow2_0; reflexivity).
    rewrite (pow2_Z 1) in H by lia. change (inject_Z (2 ^ 1)) with 2 in H.
    lra.
  - apply (IsRound_le_repr 0.6); [exact Hr | | lra].
    exact (repr_int 1 ltac:(lia)).
Qed.

Lemma night_term64 (it : item spec_float) :
  wf64 it ->
  good (night_term it)
  /\ val (night_term it) <= val (daily_use it)
  /\ val (night_term it) <= exact_use it * 0.6 * bp 3 + eta
  /\ exact_use it * 0.6 <= (val (night_term it) + eta) * bp 3.
Proof.
  intro Hwf. pose proof (exact_use_nonneg it Hwf) as Hx0.
  destruct (daily_use64 it Hwf) as (Hgd & Hwd & Hbd).
  destruct lit_06 as (Hgc & Hwc & Hc1).
  pose proof (good_nonneg _ Hgd) as Hd0.
  pose proof (good_nonneg _ Hgc) as Hc0.
  assert (Hle1 : val (daily_use it) * val (lit 0.6) <= val (daily_use it))
    by nra.
  assert (Hle : val (daily_use it) * val (lit 0.6) <= pow2 1023).
  { apply Qle_trans with (1 := Hle1). apply Qle_trans with (1 := Hbd).
    apply pow2_le. lia. }
  destruct (fmul64 _ _ Hgd Hgc Hle) as [Hgt Hr].
  change (fmul (daily_use it) (lit 0.6)) with (night_term it) in Hgt, Hr.
  split; [exact Hgt|]. split.
  - apply (IsRound_le_repr _ _ _ Hr); [apply good_repr; exact Hgd | exact Hle1].
  - assert (Hp0 : 0 <= val (daily_use it) * val (lit 0.6)) by nra.
    destruct (IsRound_error _ _ Hr Hp0) as [Hhi Hlo].
    assert (Hw2 : within 2 (exact_use it * 0.6)
                    (val (daily_use it) * val (lit 0.6))).
    { apply (within_mul 1 1); [exact Hx0 | lra | exact Hwd | exact Hwc]. }
    destruct Hw2 as [Hw2a Hw2b].
    pose proof beta_ge as Hbg. pose proof beta_spec as Hbs.
    pose proof u_pos as Hu. pose proof u_small as Hus.
    pose proof (pow2_pos (-1075)) as Heta. fold eta in Heta.
    assert (Hb3 : bp 3 == beta * bp 2) by reflexivity.
    pose proof (bp_ge_1 2) as Hb2.
    revert Hhi Hlo Hw2a Hw2b Hp0.
    generalize (val (daily_use it) * val (lit 0.6)).
    generalize (val (night_term it)). generalize (exact_use it * 0.6).
    intros X t p Hhi Hlo Hw2a Hw2b Hp0. rewrite Hb3.
    revert Hw2a Hw2b Hb2. generalize (bp 2). intros b2 Hw2a Hw2b Hb2.
    split.
    + apply Qle_trans with (p * beta + eta); [nra|].
      assert (p * beta <= X * b2 * beta) by (apply Qmult_le_compat_r; lra).
      lra.
    + assert (Hpt : p <= (t + eta) * beta).
      { assert (H1 : 0 < 1 - u) by lra.
        apply (Qmult_le_r _ _ (1 - u) H1).
        setoid_replace ((t + eta) * beta * (1 - u))
          with ((t + eta) * (beta * (1 - u))) by ring.
        rewrite Hbs. lra. }
      apply Qle_trans with (p * b2); [exact Hw2a|].
      setoid_replace ((t + eta) * (beta * b2)) with ((t + eta) * beta * b2)
        by ring.
      apply Qmult_le_compat_r; lra.
Qed.

(** The tolerances of the statements below: [k] roundings change a value by
    the factor [1 + k * 2^-52] at most, and [k] products that underflow add
    [k * 2^-1074] at most. *)
Definition rel_tol (k : nat) : Q := 1 + 2 * inject_Z (Z.of_nat k) * u.
Definition abs_tol (k : nat) : Q := inject_Z (Z.of_nat k) * pow2 (-1074).

Lemma bp_rel_tol (k : nat) : (Z.of_nat k <= 2 ^ 30)%Z -> bp k <= rel_tol k.
Proof.
  intro Hk. apply bp_linear. pose proof (small_count k Hk) as Hs.
  assert (H1 : pow2 (-22) <= 1) by (rewrite <- pow2_0; apply pow2_le; lia).
  lra.
Qed.

Lemma two_eta : 2 * eta == pow2 (-1074).
Proof.
  unfold eta. rewrite <- pow2_succ. reflexivity.
Qed.

Lemma Qsum_within (A : Type) (k : nat) (f g : A -> Q) (l : list A) :
  Forall (fun a => within k (f a) (g a)) l ->
  within k (Qsum (map f l)) (Qsum (map g l)).
Proof.
  induction 1 as [|a l Ha _ IH]; cbn [map Qsum fold_right].
  - split; pose proof (bp_ge_1 k); nra.
  - fold (Qsum (map f l)) (Qsum (map g l)). apply within_add; assumption.
Qed.

Lemma Qsum_affine (A : Type) (f g : A -> Q) (a b : Q) (l : list A) :
  Forall (fun x => f x <= g x * a + b) l ->
  Qsum (map f l)
  <= Qsum (map g l) * a + inject_Z (Z.of_nat (List.length l)) * b.
Proof.
  induction 1 as [|x l Hx _ IH]; cbn [map Qsum fold_right List.length].
  - change (inject_Z (Z.of_nat 0)) with 0. lra.
  - fold (Qsum (map f l)) (Qsum (map g l)).
    rewrite Nat2Z.inj_succ. unfold Z.succ. rewrite inject_Z_plus.
    change (inject_Z 1) with 1. lra.
Qed.

Lemma filter_length_Z (A : Type) (p : A -> bool) (l : list A) :
  (Z.of_nat (List.length (filter p l)) <= Z.of_nat (List.length l))%Z.
Proof. pose proof (filter_length_le p l). lia. Qed.

Lemma summable_daily (items : list (item spec_float)) :
  Forall wf64 items -> (Z.of_nat (List.length items) <= 2 ^ 20)%Z ->
  summable (map daily_use items).
Proof.
  intros Hwf Hlen. split; [|rewrite length_map; exact Hlen].
  apply Forall_map. eapply Forall_impl; [|exact Hwf].
  intros it Hit. destruct (daily_use64 it Hit) as (Hg & _ & Hb).
  split; assumption.
Qed.

Lemma summable_night (mode : OperatingMode)
    (items : list (item spec_float)) :
  Forall wf64 items -> (Z.of_nat (List.length items) <= 2 ^ 20)%Z ->
  summable (map night_term (filter (counted mode) items)).
Proof.
  intros Hwf Hlen. split.
  - apply Forall_map.
    apply (incl_Forall (incl_filter (counted mode) items)) in Hwf.
    eapply Forall_impl; [|exact Hwf].
    intros it Hit. destruct (night_term64 it Hit) as (Hg & Hle & _).
    destruct (daily_use64 it Hit) as (_ & _ & Hb).
    split; [exact Hg | lra].
  - rewrite length_map. pose proof (filter_length_Z _ (counted mode) items).
    lia.
Qed.

(** The total of the loop, in binary64: the exact sum up to [n + 1]
    roundings, [n] the number of items. *)
Theorem total64 (mode : OperatingMode) (items : list (item spec_float)) :
  Forall wf64 items -> (Z.of_nat (List.length items) <= 2 ^ 20)%Z ->
  let t := total_daily_wh (load_analysis mode items) in
  good t /\ val t <= pow2 46
  /\ within (List.length items + 1) (exact_total items) (val t).
Proof.
  intros Hwf Hlen t. subst t. rewrite (proj1 (load_sums mode items)).
  destruct (fsum64 _ (summable_daily items Hwf Hlen)) as (Hg & Hw & Hb).
  split; [exact Hg|]. split; [exact Hb|].
  rewrite length_map, map_map in Hw.
  replace (List.length items + 1)%nat with (1 + List.length items)%nat by lia.
  apply (within_trans _ _ _ (Qsum (map (fun it => val (daily_use it)) items)));
    [|exact Hw].
  apply Qsum_within. eapply Forall_impl; [|exact Hwf].
  intros it Hit. exact (proj1 (proj2 (daily_use64 it Hit))).
Qed.

Lemma exact_night_nonneg (mode : OperatingMode)
    (items : list (item spec_float)) :
  Forall wf64 items -> 0 <= exact_night mode items.
Proof.
  intro Hwf. unfold exact_night. apply Qsum_nonneg.
  apply (incl_Forall (incl_filter (counted mode) items)) in Hwf.
  eapply Forall_impl; [|exact Hwf].
  intros it Hit. pose proof (exact_use_nonneg it Hit). cbv beta. lra.
Qed.

(** The night load of the loop, in binary64: the exact sum of the counted
    items' 60 percent, up to [n + 3] roundings and [n] underflows. *)
Theorem night64 (mode : OperatingMode) (items : list (item spec_float)) :
  Forall wf64 items -> (Z.of_nat (List.length items) <= 2 ^ 20)%Z ->
  let v := night_load_wh (load_analysis mode items) in
  let n := List.length items in
  good v /\ val v <= pow2 46
  /\ val v <= exact_night mode items * bp (n + 3) + abs_tol n
  /\ exact_night mode items <= val v * bp (n + 3) + abs_tol n.
Proof.
  intros Hwf Hlen v n. subst v n. rewrite (proj2 (load_sums mode items)).
  destruct (fsum64 _ (summable_night mode items Hwf Hlen)) as (Hg & Hw & Hb).
  split; [exact Hg|]. split; [exact Hb|].
  rewrite length_map, map_map in Hw.
  pose proof (exact_night_nonneg mode items Hwf) as HN0.
  pose proof (good_nonneg _ Hg) as Hv0.
  pose proof (filter_length_Z _ (counted mode) items) as Hm.
  pose proof (incl_Forall (incl_filter (counted mode) items) Hwf) as Hwf'.
  set (sel := filter (counted mode) items) in *.
  set (m := List.length sel) in *.
  set (n := List.length items) in *.
  assert (Hup : Qsum (map (fun it => val (night_term it)) sel)
                <= exact_night mode items * bp 3 + inject_Z (Z.of_nat m) * eta).
  { unfold exact_night. fold sel.
    apply (Qsum_affine _ (fun it => val (night_term it))
             (fun it => exact_use it * 0.6)).
    eapply Forall_impl; [|exact Hwf'].
    intros it Hit. exact (proj1 (proj2 (proj2 (night_term64 it Hit)))). }
  assert (Hdn : exact_night mode items
                <= Qsum (map (fun it => val (night_term it)) sel) * bp 3
                   + inject_Z (Z.of_nat m) * (eta * bp 3)).
  { unfold exact_night. fold sel.
    apply (Qsum_affine _ (fun it => exact_use it * 0.6)
             (fun it => val (night_term it))).
    eapply Forall_impl; [|exact Hwf'].
    intros it Hit. cbv beta.
    pose proof (proj2 (proj2 (proj2 (night_term64 it Hit)))) as Hlo. lra. }
  destruct Hw as [Hw1 Hw2].
  assert (Hmn : (m <= n)%nat) by lia.
  pose proof (bp_mono m n Hmn) as Hbmn.
  pose proof (bp_ge_1 m) as Hbm1. pose proof (bp_ge_1 3) as Hb31.
  assert (Hbn2 : bp n <= 2) by (apply bp_le_2; lia).
  assert (Hb32 : bp 3 <= 2) by (apply bp_le_2; cbn; lia).
  assert (Hadd : bp (n + 3) == bp n * bp 3) by apply bp_add.
  pose proof (pow2_pos (-1075)) as Heta. fold eta in Heta.
  assert (HmQ : 0 <= inject_Z (Z.of_nat m)) by (rewrite <- (Zle_Qle 0); lia).
  assert (HmnQ : inject_Z (Z.of_nat m) <= inject_Z (Z.of_nat n))
    by (rewrite <- Zle_Qle; lia).
  unfold abs_tol. rewrite <- two_eta, Hadd.
  assert (HT0 : 0 <= Qsum (map (fun it => val (night_term it)) sel)).
  { apply Qsum_nonneg. eapply Forall_impl; [|exact Hwf'].
    intros it Hit. apply good_nonneg. exact (proj1 (night_term64 it Hit)). }
  revert Hup Hdn Hw1 Hw2 HT0 HN0 Hv0.
  generalize (Qsum (map (fun it => val (night_term it)) sel)).
  generalize (exact_night mode items).
  generalize (val (fsum (map night_term sel))).
  revert HmQ HmnQ. generalize (inject_Z (Z.of_nat m)), (inject_Z (Z.of_nat n)).
  revert Hbmn Hbm1 Hb31 Hbn2 Hb32. generalize (bp m), (bp n), (bp 3).
  intros bm bn b3 Hbmn Hbm1 Hb31 Hbn2 Hb32 mq nq HmQ HmnQ v N T
    Hup Hdn Hw1 Hw2 HT0 HN0 Hv0.
  split.
  - apply Qle_trans with (T * bm); [exact Hw2|].
    apply Qle_trans with ((N * b3 + mq * eta) * bm);
      [apply Qmult_le_compat_r; lra|].
    assert (N * b3 * bm <= N * (bn * b3)).
    { assert (0 <= N * b3) by nra. nra. }
    assert (mq * eta * bm <= nq * (2 * eta)).
    { setoid_replace (nq * (2 * eta)) with (nq * eta * 2) by ring.
      apply Qmult_le_compat_nonneg; split; nra. }
    lra.
  - apply Qle_trans with (1 := Hdn).
    assert (T * b3 <= v * (bn * b3)).
    { setoid_replace (v * (bn * b3)) with (v * bn * b3) by ring.
      apply Qmult_le_compat_r; [|lra].
      apply Qle_trans with (v * bm); [exact Hw1 | nra]. }
    assert (mq * (eta * b3) <= nq * (2 * eta)).
    { setoid_replace (mq * (eta * b3)) with (mq * eta * b3) by ring.
      setoid_replace (nq * (2 * eta)) with (nq * eta * 2) by ring.
      apply Qmult_le_compat_nonneg; split; nra. }
    lra.
Qed.

End Loads64.

(** ** Comparing two float sums *)

Section Dominated.

Lemma filter_snoc (A : Type) (p : A -> bool) (l : list A) (a : A) :
  filter p (l ++ [a]) = filter p l ++ (if p a then [a] else []).
Proof. rewrite filter_app. cbn [filter]. destruct (p a); reflexivity. Qed.

Lemma summable_app_l (xs ys : list spec_float) :
  summable (xs ++ ys) -> summable xs.
Proof.
  intros [Hall Hlen]. apply Forall_app in Hall. rewrite length_app in Hlen.
  split; [exact (proj1 Hall) | lia].
Qed.

(** A float sum does not grow when terms are left out of it and the others
    are replaced by smaller ones: every rounding is monotone. *)
Theorem fsum_dominated (A : Type) (p : A -> bool) (f g : A -> spec_float)
    (l : list A) :
  summable (map g l) ->
  Forall (fun a => good (f a) /\ val (f a) <= val (g a)) l ->
  good (fsum (map f (filter p l))) /\ good (fsum (map g l))
  /\ val (fsum (map f (filter p l))) <= val (fsum (map g l)).
Proof.
  induction l as [|a l IH] using rev_ind; intros Hs Hfg.
  - cbn [filter map]. unfold fsum. cbn [fold_left]. rewrite of_int_0.
    split; [exact I|]. split; [exact I | apply Qle_refl].
  - rewrite map_app in Hs. cbn [map] in Hs.
    destruct (summable_snoc _ _ Hs) as (Hsl & Hga & Hba).
    apply Forall_app in Hfg. destruct Hfg as [Hfl Hfa].
    apply Forall_inv in Hfa. destruct Hfa as [Hfa Hle].
    destruct (IH Hsl Hfl) as (Hg1 & Hg2 & Hmono).
    destruct (fsum64 _ Hsl) as (_ & _ & Hb2).
    pose proof (good_nonneg _ Hg1) as H10. pose proof (good_nonneg _ Hg2) as H20.
    pose proof (good_nonneg _ Hfa) as Hfa0. pose proof (good_nonneg _ Hga) as Hga0.
    assert (H47 : pow2 46 + pow2 25 <= pow2 1023).
    { apply Qle_trans with (pow2 47); [|apply pow2_le; lia].
      replace 47%Z with (46 + 1)%Z by reflexivity. rewrite pow2_succ.
      assert (pow2 25 <= pow2 46) by (apply pow2_le; lia). lra. }
    rewrite map_app. cbn [map]. rewrite (fsum_snoc (map g l)).
    destruct (fadd64 _ _ Hg2 Hga ltac:(lra)) as [Hg2' Hr2].
    rewrite filter_snoc, map_app.
    destruct (p a); cbn [map].
    + rewrite fsum_snoc.
      destruct (fadd64 _ _ Hg1 Hfa ltac:(lra)) as [Hg1' Hr1].
      split; [exact Hg1'|]. split; [exact Hg2'|].
      apply (IsRound_mono _ _ _ _ Hr1 Hr2). lra.
    + rewrite app_nil_r. split; [exact Hg1|]. split; [exact Hg2'|].
      apply Qle_trans with (1 := Hmono).
      apply (IsRound_ge_repr _ _ _ Hr2); [apply good_repr; exact Hg2 | lra].
Qed.

End Dominated.

Section NightBounds64.

Variable mode : OperatingMode.
Variable items : list (item spec_float).
Hypothesis Hwf : Forall wf64 items.
Hypothesis Hlen : (Z.of_nat (List.length items) <= 2 ^ 20)%Z.

(** In binary64 the night load of Smart Saver mode is at most that of
    Reliability mode. *)
Lemma night_modes64 :
  val (night_load_wh (load_analysis SmartSaver items))
  <= val (night_load_wh (load_analysis Reliability items)).
Proof.
  rewrite (proj2 (load_sums SmartSaver items)),
    (proj2 (load_sums Reliability items)).
  assert (Hall : filter (counted Reliability) items = items).
  { clear. induction items as [|it l IH]; [reflexivity|].
    cbn [filter]. change (counted Reliability it) with true. cbv iota.
    f_equal. exact IH. }
  rewrite Hall.
  pose proof (summable_night Reliability items Hwf Hlen) as Hs.
  rewrite Hall in Hs.
  apply (fsum_dominated _ (counted SmartSaver) night_term night_term items Hs).
  eapply Forall_impl; [|exact Hwf].
  intros it Hit. split; [exact (proj1 (night_term64 it Hit)) | apply Qle_refl].
Qed.

(** In binary64 the night load never exceeds the total. *)
Lemma night_le_total64 :
  val (night_load_wh (load_analysis mode items))
  <= val (total_daily_wh (load_analysis mode items)).
Proof.
  rewrite (proj2 (load_sums mode items)), (proj1 (load_sums mode items)).
  apply (fsum_dominated _ (counted mode) night_term daily_use items
           (summable_daily items Hwf Hlen)).
  eapply Forall_impl; [|exact Hwf].
  intros it Hit. destruct (night_term64 it Hit) as (Hg & Hle & _).
  split; assumption.
Qed.

Lemma exact_night_le_total :
  exact_night mode items <= exact_total items * 0.6.
Proof.
  unfold exact_night, exact_total.
  rewrite <- (Qsum_scale _ exact_use 0.6 items).
  apply Qsum_filter_le.
  eapply Forall_impl; [|exact Hwf].
  intros it Hit. pose proof (exact_use_nonneg it Hit). cbv beta.
  split; [lra | intros _; apply Qle_refl].
Qed.

(** In binary64 the night load is at most 60 percent of the total, up to
    [2 n + 4] roundings and [n] underflows. *)
Lemma night_bound64 :
  val (night_load_wh (load_analysis mode items))
  <= val (total_daily_wh (load_analysis mode items)) * 0.6
     * rel_tol (2 * List.length items + 4)
     + abs_tol (List.length items).
Proof.
  destruct (total64 mode items Hwf Hlen) as (Hgt & _ & [Ht1 _]).
  destruct (night64 mode items Hwf Hlen) as (Hgv & _ & Hv1 & _).
  pose proof exact_night_le_total as HN.
  pose proof (exact_night_nonneg mode items Hwf) as HN0.
  pose proof (good_nonneg _ Hgt) as Ht0.
  set (n := List.length items) in *.
  assert (Hbp : bp (n + 1) * bp (n + 3) <= rel_tol (2 * n + 4)).
  { rewrite <- bp_add.
    replace (n + 1 + (n + 3))%nat with (2 * n + 4)%nat by lia.
    apply bp_rel_tol. lia. }
  pose proof (bp_ge_1 (n + 1)) as Hb1. pose proof (bp_ge_1 (n + 3)) as Hb3.
  assert (Ha0 : 0 <= abs_tol n).
  { unfold abs_tol. apply Qmult_le_0_compat;
      [rewrite <- (Zle_Qle 0); lia | apply Qlt_le_weak, pow2_pos]. }
  revert Ht1 Hv1 HN HN0 Ht0 Hbp Hb1 Hb3.
  generalize (bp (n + 1)), (bp (n + 3)), (rel_tol (2 * n + 4)), (abs_tol n).
  generalize (exact_total items), (exact_night mode items).
  generalize (val (night_load_wh (load_analysis mode items))).
  generalize (val (total_daily_wh (load_analysis mode items))).
  intros t v S N b1 b3 r a Ht1 Hv1 HN HN0 Ht0 Hbp Hb1 Hb3.
  apply Qle_trans with (1 := Hv1).
  assert (N * b3 <= t * 0.6 * r); [|lra].
  apply Qle_trans with (t * b1 * 0.6 * b3).
  - apply Qmult_le_compat_r; [nra | lra].
  - setoid_replace (t * b1 * 0.6 * b3) with (t * 0.6 * (b1 * b3)) by ring.
    assert (0 <= t * 0.6) by lra. nra.
Qed.

End NightBounds64.

(** ** The sizing of the panels in binary64 *)

Section Panels64.

Lemma pow2_opp (n : Z) : pow2 (- n) == / pow2 n.
Proof.
  pose proof (pow2_neg n) as H. pose proof (pow2_pos n) as Hp.
  apply (Qmult_inj_l _ _ (pow2 n)); [lra|].
  rewrite H, Qmult_inv_r by lra. reflexivity.
Qed.

Lemma pow2_pos_val (n : Z) (q : Q) :
  (0 <= n)%Z -> inject_Z (2 ^ n) == q -> pow2 n == q.
Proof. intros Hn <-. apply pow2_Z. exact Hn. Qed.

Lemma pow2_neg_val (n : Z) (q : Q) :
  (0 <= n)%Z -> q * inject_Z (2 ^ n) == 1 -> pow2 (- n) == q.
Proof.
  intros Hn Hq. rewrite pow2_opp, (pow2_Z n) by exact Hn.
  assert (Hp : 0 < inject_Z (2 ^ n)).
  { rewrite <- (Zlt_Qlt 0). apply Z.pow_pos_nonneg; lia. }
  apply (Qmult_inj_r _ _ (inject_Z (2 ^ n))); [lra|].
  rewrite Hq, Qmult_comm, Qmult_inv_r by lra. reflexivity.
Qed.

(** The required number of 500 W units, without rounding. *)
Definition required_units (total sun : Q) : Q :=
  total / 0.7 / (sun * 1000) * 1000 / 500.

(** The literal 0.7. *)
Lemma lit_07 :
  good (lit (F:=spec_float) 0.7)
  /\ within 1 0.7 (val (lit (F:=spec_float) 0.7))
  /\ 1 # 2 <= val (lit (F:=spec_float) 0.7)
  /\ val (lit (F:=spec_float) 0.7) <= 1.
Proof.
  destruct (lit64 0.7) as [Hg Hr]; [cbn; lia | cbn; lia|].
  assert (Hhalf : pow2 (-1) == 1 # 2)
    by (apply (pow2_neg_val 1); [lia | reflexivity]).
  split; [exact Hg|]. split; [|split].
  - apply IsRound_within; [exact Hr | lra|]. left.
    apply Qle_trans with (pow2 (-1)); [apply pow2_le; lia | lra].
  - rewrite <- Hhalf.
    apply (IsRound_ge_repr 0.7); [exact Hr | apply repr_pow2; lia | lra].
  - apply (IsRound_le_repr 0.7); [exact Hr | | lra].
    exact (repr_int 1 ltac:(lia)).
Qed.

(** The literal 0.75 is a float. *)
Lemma lit_075 :
  good (lit (F:=spec_float) 0.75) /\ val (lit (F:=spec_float) 0.75) == 3 # 4.
Proof.
  destruct (lit64 0.75) as [Hg Hr]; [cbn; lia | cbn; lia|].
  split; [exact Hg|].
  assert (Hrep : repr 0.75).
  { exists 3%Z, (-2)%Z. split; [lia|]. split; [lia|].
    rewrite (pow2_neg_val 2 (1 # 4)); [reflexivity | lia | reflexivity]. }
  rewrite (IsRound_repr _ _ Hrep Hr). reflexivity.
Qed.

Lemma IsRound_zero (x v : Q) : IsRound x v -> x == 0 -> v == 0.
Proof.
  intros Hr Hx. rewrite <- Hx. apply IsRound_repr; [|exact Hr].
  exists 0%Z, 0%Z. split; [lia|]. split; [lia|].
  rewrite Hx. change (inject_Z 0) with 0. ring.
Qed.

Lemma within_round (k : nat) (x y v : Q) :
  IsRound y v -> 0 <= y -> pow2 (-1022) <= y \/ grid y ->
  within k x y -> within (k + 1) x v.
Proof.
  intros Hr Hy Hn Hw.
  apply (within_trans _ _ _ y); [exact Hw|].
  apply IsRound_within; assumption.
Qed.

Section Run.

Variable T s : spec_float.
Hypothesis HT : good T.
Hypothesis HTb : val T <= pow2 46.
Hypothesis Hs : good s.
Hypothesis Hs1 : 1 <= val s.
Hypothesis Hs8 : val s <= 8.

(** [sun_hours * 1000]. *)
Lemma sun_watts64 :
  let d := fmul s (of_int 1000) in
  good d /\ 1000 <= val d /\ val d <= 8000
  /\ within 1 (val s * 1000) (val d).
Proof.
  intro d. subst d.
  destruct (of_int64 1000 ltac:(lia)) as [Hgk Hvk].
  change (inject_Z 1000) with 1000 in Hvk.
  assert (Hle : val s * val (of_int 1000) <= pow2 1023).
  { rewrite Hvk. apply Qle_trans with (pow2 13); [|apply pow2_le; lia].
    rewrite (pow2_Z 13) by lia. change (inject_Z (2 ^ 13)) with 8192. lra. }
  destruct (fmul64 _ _ Hs Hgk Hle) as [Hg Hr].
  apply (IsRound_ext _ (val s * 1000)) in Hr; [|rewrite Hvk; reflexivity].
  split; [exact Hg|]. split; [|split].
  - apply (IsRound_ge_repr _ _ _ Hr); [exact (repr_int 1000 ltac:(lia)) | lra].
  - apply (IsRound_le_repr _ _ _ Hr); [exact (repr_int 8000 ltac:(lia)) | lra].
  - apply IsRound_within; [exact Hr | lra|]. left.
    apply Qle_trans with (pow2 0); [apply pow2_le; lia | rewrite pow2_0; lra].
Qed.

(** The run of [num_panels]: it returns, with the ceiling of a float
    [units] that is the required number of units up to six roundings. *)
Theorem num_panels64 :
  exists (units : spec_float) (n : Z),
    num_panels T s = Ok n
    /\ good units
    /\ inject_Z n - 1 < val units /\ val units <= inject_Z n
    /\ val units <= pow2 40
    /\ (val T == 0 -> val units == 0)
    /\ (pow2 (-1000) <= val T ->
        0 < val units
        /\ within 6 (required_units (val T) (val s)) (val units)).
Proof.
  destruct lit_07 as (Hg7 & Hw7 & H7lo & H7hi).
  destruct sun_watts64 as (Hgd & Hdlo & Hdhi & Hwd).
  destruct (of_int64 1000 ltac:(lia)) as [Hgk Hvk].
  change (inject_Z 1000) with 1000 in Hvk.
  destruct (of_int64 500 ltac:(lia)) as [Hg5 Hv5].
  change (inject_Z 500) with 500 in Hv5.
  pose proof (good_nonneg _ HT) as HT0.
  (* total / 0.7 *)
  assert (Hx1 : val T / val (lit 0.7) <= pow2 47).
  { apply Qle_shift_div_r; [lra|].
    replace 47%Z with (46 + 1)%Z by reflexivity. rewrite pow2_succ.
    pose proof (pow2_pos 46). nra. }
  destruct (fdiv64 T (lit 0.7) HT Hg7 ltac:(lra)
              ltac:(apply Qle_trans with (1 := Hx1); apply pow2_le; lia))
    as (t1 & Hrun1 & Hg1 & Hr1).
  assert (Hx1_0 : 0 <= val T / val (lit 0.7))
    by (apply Qle_shift_div_l; lra).
  assert (Ht1 : val t1 <= pow2 47)
    by (apply (IsRound_le_repr _ _ _ Hr1); [apply repr_pow2; lia | exact Hx1]).
  pose proof (good_nonneg _ Hg1) as Ht1_0.
  (* ... / (sun_hours * 1000) *)
  assert (Hx2 : val t1 / val (fmul s (of_int 1000)) <= pow2 38).
  { apply Qle_shift_div_r; [lra|].
    apply Qle_trans with (1 := Ht1).
    replace 47%Z with (38 + 9)%Z by reflexivity.
    rewrite pow2_add, (pow2_Z 9) by lia. change (inject_Z (2 ^ 9)) with 512.
    pose proof (pow2_pos 38). nra. }
  destruct (fdiv64 t1 _ Hg1 Hgd ltac:(lra)
              ltac:(apply Qle_trans with (1 := Hx2); apply pow2_le; lia))
    as (kw & Hrun2 & Hg2 & Hr2).
  assert (Hx2_0 : 0 <= val t1 / val (fmul s (of_int 1000)))
    by (apply Qle_shift_div_l; lra).
  assert (Hkw : val kw <= pow2 38)
    by (apply (IsRound_le_repr _ _ _ Hr2); [apply repr_pow2; lia | exact Hx2]).
  pose proof (good_nonneg _ Hg2) as Hkw0.
  (* req_panel_kw * 1000 *)
  assert (Hx3 : val kw * val (of_int 1000) <= pow2 48).
  { rewrite Hvk. replace 48%Z with (38 + 10)%Z by reflexivity.
    rewrite pow2_add, (pow2_Z 10) by lia. change (inject_Z (2 ^ 10)) with 1024.
    pose proof (pow2_pos 38). nra. }
  destruct (fmul64 kw _ Hg2 Hgk
              ltac:(apply Qle_trans with (1 := Hx3); apply pow2_le; lia))
    as [Hg3 Hr3].
  set (w := fmul kw (of_int 1000)) in *.
  assert (Hw : val w <= pow2 48)
    by (apply (IsRound_le_repr _ _ _ Hr3); [apply repr_pow2; lia | exact Hx3]).
  pose proof (good_nonneg _ Hg3) as Hw0.
  (* ... / 500 *)
  assert (Hx4 : val w / val (of_int 500) <= pow2 40).
  { rewrite Hv5. apply Qle_shift_div_r; [lra|].
    apply Qle_trans with (1 := Hw).
    replace 48%Z with (40 + 8)%Z by reflexivity.
    rewrite pow2_add, (pow2_Z 8) by lia. change (inject_Z (2 ^ 8)) with 256.
    pose proof (pow2_pos 40). nra. }
  destruct (fdiv64 w _ Hg3 Hg5 ltac:(lra)
              ltac:(apply Qle_trans with (1 := Hx4); apply pow2_le; lia))
    as (units & Hrun4 & Hg4 & Hr4).
  assert (Hun : val units <= pow2 40)
    by (apply (IsRound_le_repr _ _ _ Hr4); [apply repr_pow2; lia | exact Hx4]).
  destruct (ceil_spec units Hg4) as (n & Hceil & Hn1 & Hn2).
  exists units, n.
  split.
  { unfold num_panels, req_panel_kw. rewrite Hrun1. cbn [bind].
    rewrite Hrun2. cbn [bind]. fold w. rewrite Hrun4. cbn [bind].
    exact Hceil. }
  split; [exact Hg4|]. split; [exact Hn1|]. split; [exact Hn2|].
  split; [exact Hun|]. split.
  { intro Hz.
    assert (Hz1 : val t1 == 0).
    { apply (IsRound_zero _ _ Hr1). rewrite Hz. unfold Qdiv.
      apply Qmult_0_l. }
    assert (Hz2 : val kw == 0).
    { apply (IsRound_zero _ _ Hr2). rewrite Hz1. unfold Qdiv.
      apply Qmult_0_l. }
    assert (Hz3 : val w == 0).
    { apply (IsRound_zero _ _ Hr3). rewrite Hz2. apply Qmult_0_l. }
    apply (IsRound_zero _ _ Hr4). rewrite Hz3. unfold Qdiv.
    apply Qmult_0_l. }
  intro Hnorm.
  (* the normal range: every step has relative error at most u *)
  assert (Hn1022 : forall k, (-1022 <= k)%Z -> forall x, pow2 k <= x ->
                     pow2 (-1022) <= x \/ grid x).
  { intros k Hk x Hx. left. apply Qle_trans with (2 := Hx).
    apply pow2_le. exact Hk. }
  assert (Hy1 : pow2 (-1000) <= val T / val (lit 0.7)).
  { apply Qle_shift_div_l; [lra|]. pose proof (pow2_pos (-1000)). nra. }
  assert (Hz1 : pow2 (-1000) <= val t1)
    by (apply (IsRound_ge_repr _ _ _ Hr1); [apply repr_pow2; lia | exact Hy1]).
  assert (Hy2 : pow2 (-1013) <= val t1 / val (fmul s (of_int 1000))).
  { apply Qle_shift_div_l; [lra|].
    apply Qle_trans with (2 := Hz1).
    replace (-1000)%Z with (-1013 + 13)%Z by reflexivity.
    rewrite pow2_add, (pow2_Z 13) by lia.
    change (inject_Z (2 ^ 13)) with 8192.
    pose proof (pow2_pos (-1013)). nra. }
  assert (Hz2 : pow2 (-1013) <= val kw)
    by (apply (IsRound_ge_repr _ _ _ Hr2); [apply repr_pow2; lia | exact Hy2]).
  assert (Hy3 : pow2 (-1013) <= val kw * val (of_int 1000)).
  { rewrite Hvk. pose proof (pow2_pos (-1013)). nra. }
  assert (Hz3 : pow2 (-1013) <= val w)
    by (apply (IsRound_ge_repr _ _ _ Hr3); [apply repr_pow2; lia | exact Hy3]).
  assert (Hy4 : pow2 (-1022) <= val w / val (of_int 500)).
  { rewrite Hv5. apply Qle_shift_div_l; [lra|].
    apply Qle_trans with (2 := Hz3).
    replace (-1013)%Z with (-1022 + 9)%Z by reflexivity.
    rewrite pow2_add, (pow2_Z 9) by lia.
    change (inject_Z (2 ^ 9)) with 512.
    pose proof (pow2_pos (-1022)). nra. }
  assert (Hz4 : pow2 (-1022) <= val units)
    by (apply (IsRound_ge_repr _ _ _ Hr4); [apply repr_pow2; lia | exact Hy4]).
  split; [pose proof (pow2_pos (-1022)); lra|].
  (* total / 0.7 *)
  assert (W1 : within 2 (val T / 0.7) (val t1)).
  { apply (within_round 1 _ _ _ Hr1 Hx1_0 (Hn1022 (-1000)%Z ltac:(lia) _ Hy1)).
    apply (within_div 0 1); [exact HT0 | lra | lra | apply within_refl
                             | exact Hw7]. }
  (* ... / (sun_hours * 1000) *)
  assert (W2 : within 4 (val T / 0.7 / (val s * 1000)) (val kw)).
  { apply (within_round 3 _ _ _ Hr2 Hx2_0 (Hn1022 (-1013)%Z ltac:(lia) _ Hy2)).
    apply (within_div 2 1); [|lra | lra | exact W1 | exact Hwd].
    apply Qle_shift_div_l; lra. }
  assert (Hq2 : 0 <= val T / 0.7 / (val s * 1000)).
  { apply Qle_shift_div_l; [lra|]. rewrite Qmult_0_l.
    apply Qle_shift_div_l; lra. }
  (* ... * 1000 *)
  assert (W3 : within 5 (val T / 0.7 / (val s * 1000) * 1000) (val w)).
  { apply (within_round 4 _ _ _ Hr3 ltac:(nra) (Hn1022 (-1013)%Z ltac:(lia) _ Hy3)).
    apply (within_mul 4 0); [exact Hq2 | lra | exact W2|].
    apply (within_ext 0 1000 1000 1000); [reflexivity | symmetry; exact Hvk|].
    apply within_refl. }
  (* ... / 500 *)
  unfold required_units.
  apply (within_round 5 _ _ _ Hr4); [apply Qle_shift_div_l; lra
                                    | apply (Hn1022 (-1022)%Z); [lia|exact Hy4]|].
  apply (within_div 5 0); [nra | lra | lra | exact W3|].
  apply (within_ext 0 500 500 500); [reflexivity | symmetry; exact Hv5|].
  apply within_refl.
Qed.

(** [num_panels * 500 * sun_hours * 0.75]: the exact product up to two
    roundings. *)
Lemma generation64 (n : Z) :
  (0 <= n <= 2 ^ 41)%Z ->
  good (generation n s)
  /\ within 2 (inject_Z n * 500 * val s * (3 # 4)) (val (generation n s)).
Proof.
  intro Hn. unfold generation.
  destruct lit_075 as [Hgc Hvc].
  destruct (of_int64 (n * 500) ltac:(lia)) as [Hgk Hvk].
  rewrite inject_Z_mult in Hvk. change (inject_Z 500) with 500 in Hvk.
  assert (Hn0 : 0 <= inject_Z n) by (rewrite <- (Zle_Qle 0); lia).
  assert (Hn41 : inject_Z n <= pow2 41)
    by (rewrite (pow2_Z 41), <- Zle_Qle by lia; lia).
  assert (Hx1 : val (of_int (n * 500)) * val s <= pow2 53).
  { rewrite Hvk. replace 53%Z with (41 + 12)%Z by reflexivity.
    rewrite pow2_add, (pow2_Z 12) by lia. change (inject_Z (2 ^ 12)) with 4096.
    pose proof (pow2_pos 41). nra. }
  destruct (fmul64 _ _ Hgk Hs
              ltac:(apply Qle_trans with (1 := Hx1); apply pow2_le; lia))
    as [Hg1 Hr1].
  set (g1 := fmul (of_int (n * 500)) s) in *.
  assert (Hx1_0 : 0 <= val (of_int (n * 500)) * val s) by (rewrite Hvk; nra).
  assert (W1 : within 1 (inject_Z n * 500 * val s) (val g1)).
  { apply (within_ext 1 (val (of_int (n * 500)) * val s) _ (val g1) (val g1));
      [rewrite Hvk; reflexivity | reflexivity|].
    apply IsRound_within; [exact Hr1 | exact Hx1_0|]. right.
    apply (grid_ext (inject_Z (n * 500) * val s));
      [rewrite Hvk, inject_Z_mult; reflexivity|].
    apply grid_mul_int, good_grid. exact Hs. }
  assert (Hg1b : val g1 <= pow2 53)
    by (apply (IsRound_le_repr _ _ _ Hr1); [apply repr_pow2; lia | exact Hx1]).
  pose proof (good_nonneg _ Hg1) as Hg10.
  assert (Hx2 : val g1 * val (lit 0.75) <= pow2 1023).
  { rewrite Hvc. apply Qle_trans with (pow2 53); [lra | apply pow2_le; lia]. }
  destruct (fmul64 _ _ Hg1 Hgc Hx2) as [Hg2 Hr2].
  split; [exact Hg2|].
  apply (IsRound_ext _ (val g1 * (3 # 4))) in Hr2;
    [|rewrite Hvc; reflexivity].
  apply (within_round 1 _ _ _ Hr2); [lra| |].
  - destruct (Z.eq_dec n 0) as [-> | Hne].
    + right. exists 0%Z.
      assert (Hz : val g1 == 0).
      { apply Qle_antisym; [|exact Hg10].
        apply (IsRound_le_repr _ _ _ Hr1); [exact (repr_int 0 ltac:(lia))|].
        rewrite Hvk. change (inject_Z 0) with 0. lra. }
      rewrite Hz. change (inject_Z 0) with 0. ring.
    + left. assert (H1 : 1 <= inject_Z n)
        by (rewrite <- (Zle_Qle 1); lia).
      assert (H500 : 500 <= val g1).
      { apply (IsRound_ge_repr _ _ _ Hr1); [exact (repr_int 500 ltac:(lia))|].
        rewrite Hvk. change (inject_Z 500) with 500. nra. }
      apply Qle_trans with (pow2 0); [apply pow2_le; lia|].
      rewrite pow2_0. lra.
  - replace 1%nat with (1 + 0)%nat by reflexivity.
    apply (within_mul 1 0); [nra | lra | exact W1 | apply within_refl].
Qed.

Lemma bp_8 : bp 8 <= 1016 # 1000.
Proof.
  apply Qle_trans with (rel_tol 8); [apply bp_rel_tol; cbn; lia|].
  unfold rel_tol. change (inject_Z (Z.of_nat 8)) with 8.
  pose proof u_small. lra.
Qed.

(** The panel count and the energy balance: the count is not negative, it
    is at least 1 unless the total is below [2^-1000] Wh, and with at least
    one panel the generation is not below the total. *)
Theorem energy_balance64 (n : Z) :
  num_panels T s = Ok n ->
  (0 <= n <= 2 ^ 40)%Z
  /\ good (generation n s)
  /\ (pow2 (-1000) <= val T -> (1 <= n)%Z)
  /\ ((1 <= n)%Z -> val T <= val (generation n s)).
Proof.
  intro Hrun.
  destruct num_panels64
    as (units & n' & Hrun' & Hgu & Hn1 & Hn2 & Hub & _ & Hnorm).
  rewrite Hrun in Hrun'. injection Hrun' as <-.
  pose proof (good_nonneg _ Hgu) as Hu0.
  pose proof (good_nonneg _ HT) as HT0.
  assert (Hn0 : (0 <= n)%Z).
  { rewrite Zle_Qle. change (inject_Z 0) with 0. lra. }
  assert (Hn40 : (n <= 2 ^ 40)%Z).
  { assert (H : inject_Z n < pow2 40 + 1) by lra.
    rewrite (pow2_Z 40) in H by lia. change 1 with (inject_Z 1) in H.
    rewrite <- inject_Z_plus, <- Zlt_Qlt in H. lia. }
  destruct (generation64 n ltac:(lia)) as [Hgg Hwg].
  split; [lia|]. split; [exact Hgg|]. split.
  - intro HTn. destruct (Hnorm HTn) as [Hpos _].
    assert (H : 0 < inject_Z n) by lra.
    rewrite <- (Zlt_Qlt 0) in H. lia.
  - intro Hn1'. assert (HnQ : 1 <= inject_Z n)
      by (rewrite <- (Zle_Qle 1); exact Hn1').
    destruct Hwg as [Hg1 _].
    pose proof (bp_ge_1 2) as Hb2. pose proof (bp_ge_1 6) as Hb6.
    assert (Hb22 : bp 2 <= 2) by (apply bp_le_2; cbn; lia).
    destruct (Qlt_le_dec (val T) (pow2 (-1000))) as [Hsmall | HTn].
    + assert (H1 : pow2 (-1000) <= 1)
        by (rewrite <- pow2_0; apply pow2_le; lia).
      assert (HG : 375 <= inject_Z n * 500 * val s * (3 # 4)) by nra.
      pose proof (good_nonneg _ Hgg) as Hgen0.
      assert (1 <= val (generation n s)); [|lra].
      destruct (Qlt_le_dec (val (generation n s)) 1) as [Hc|]; [|assumption].
      exfalso. nra.
    + destruct (Hnorm HTn) as [_ [HX _]].
      pose proof bp_8 as Hb8.
      assert (Hadd : bp 8 == bp 6 * bp 2) by (apply (bp_add 6 2)).
      assert (HTX : val T == required_units (val T) (val s) * 350 * val s).
      { unfold required_units. field. lra. }
      assert (HX0 : 0 <= required_units (val T) (val s)).
      { unfold required_units.
        apply Qle_shift_div_l; [lra|]. rewrite Qmult_0_l.
        apply Qmult_le_0_compat; [|lra].
        apply Qle_shift_div_l; [lra|]. rewrite Qmult_0_l.
        apply Qle_shift_div_l; lra. }
      assert (HXn : required_units (val T) (val s) <= inject_Z n * bp 6).
      { apply Qle_trans with (1 := HX). apply Qmult_le_compat_r; lra. }
      apply (Qmult_le_r _ _ (bp 2)); [lra|].
      apply Qle_trans with (2 := Hg1).
      rewrite HTX.
      pose proof Hs1 as Hsv1. pose proof Hs8 as Hsv8.
      revert HX0 HXn Hadd Hb8 Hb2 Hb6 HnQ Hsv1 Hsv8.
      generalize (required_units (val T) (val s)), (inject_Z n), (bp 2),
        (bp 6), (bp 8), (val s).
      intros X nq b2 b6 b8 sv HX0 HXn Hadd Hb8 Hb2 Hb6 HnQ Hsv1 Hsv8.
      apply Qle_trans with (nq * b6 * 350 * sv * b2).
      * apply Qmult_le_compat_r; [|lra].
        apply Qmult_le_compat_r; [|lra].
        apply Qmult_le_compat_r; [exact HXn | lra].
      * setoid_replace (nq * b6 * 350 * sv * b2)
          with (nq * sv * (350 * (b6 * b2))) by ring.
        setoid_replace (nq * 500 * sv * (3 # 4)) with (nq * sv * 375) by ring.
        assert (H0 : 0 <= nq * sv) by nra.
        assert (H1 : 350 * (b6 * b2) <= 375) by (rewrite <- Hadd; lra).
        nra.
Qed.

End Run.

End Panels64.

(** ** The battery bank in binary64 *)

Section Batteries64.

(** [int(...)] of a float that is not negative: its integer part. *)
Theorem trunc_spec (x : spec_float) :
  good x ->
  exists n : Z,
    B64.trunc x = Ok n /\ inject_Z n <= val x /\ val x < inject_Z n + 1.
Proof.
  intro Hx.
  destruct x as [z| | |[] m e]; cbn [good] in Hx; try contradiction.
  - exists 0%Z. cbn. split; [reflexivity|]. split; [discriminate | reflexivity].
  - cbn [B64.trunc B64.signed val].
    destruct (Z.leb_spec 0 e) as [He | He].
    + exists (Zpos m * 2 ^ e)%Z. split; [reflexivity|].
      rewrite inject_Z_mult, <- (pow2_Z e) by lia.
      split; [apply Qle_refl | lra].
    + exists (Z.quot (Zpos m) (2 ^ (- e))). split; [reflexivity|].
      assert (HD : (0 < 2 ^ (- e))%Z) by (apply Z.pow_pos_nonneg; lia).
      rewrite Z.quot_div_nonneg by lia.
      pose proof (Z.mul_div_le (Zpos m) (2 ^ (- e)) HD) as Hlo.
      pose proof (Z.mul_succ_div_gt (Zpos m) (2 ^ (- e)) HD) as Hhi.
      set (q := (Zpos m / 2 ^ (- e))%Z) in *.
      pose proof (pow2_neg e) as Hinv. pose proof (pow2_pos e) as Hpe.
      pose proof (pow2_pos (- e)) as Hpn.
      assert (HlQ : inject_Z (2 ^ (- e)) * inject_Z q <= inject_Z (Zpos m)).
      { rewrite <- inject_Z_mult, <- Zle_Qle. exact Hlo. }
      assert (HhQ : inject_Z (Zpos m)
                    < inject_Z (2 ^ (- e)) * (inject_Z q + 1)).
      { change 1 with (inject_Z 1).
        rewrite <- inject_Z_plus, <- inject_Z_mult, <- Zlt_Qlt. exact Hhi. }
      rewrite <- (pow2_Z (- e)) in HlQ, HhQ by lia.
      revert HlQ HhQ Hinv Hpe Hpn.
      generalize (inject_Z q), (inject_Z (Zpos m)), (pow2 e), (pow2 (- e)).
      intros a b p p' HlQ HhQ Hinv Hpe Hpn.
      assert (Hb : b == b * p * p') by (rewrite <- Qmult_assoc, Hinv; ring).
      split.
      * apply (Qmult_le_r _ _ p' Hpn). nra.
      * apply (Qmult_lt_r _ _ p' Hpn). nra.
Qed.

Lemma trunc_int (x : spec_float) (k : Z) :
  good x -> val x == inject_Z k -> B64.trunc x = Ok k.
Proof.
  intros Hx Hv. destruct (trunc_spec x Hx) as (n & Hrun & Hlo & Hhi).
  rewrite Hrun. f_equal. rewrite Hv in Hlo, Hhi.
  change 1 with (inject_Z 1) in Hhi.
  rewrite <- inject_Z_plus, <- Zlt_Qlt in Hhi. rewrite <- Zle_Qle in Hlo. lia.
Qed.

Lemma lit_05 :
  good (lit (F:=spec_float) 0.5) /\ val (lit (F:=spec_float) 0.5) == 1 # 2.
Proof.
  destruct (lit64 0.5) as [Hg Hr]; [cbn; lia | cbn; lia|].
  split; [exact Hg|].
  assert (Hrep : repr 0.5).
  { exists 1%Z, (-1)%Z. split; [lia|]. split; [lia|].
    rewrite (pow2_neg_val 1 (1 # 2)); [reflexivity | lia | reflexivity]. }
  rewrite (IsRound_repr _ _ Hrep Hr). reflexivity.
Qed.

(** A quotient that a float holds exactly. *)
Lemma fdiv64_exact (a b : spec_float) (k : Z) :
  good a -> good b -> 0 < val b -> (0 <= k < 2 ^ 53)%Z ->
  val a / val b == inject_Z k ->
  exists r, fdiv a b = Ok r /\ good r /\ val r == inject_Z k.
Proof.
  intros Ha Hb Hpos Hk Hq.
  assert (Hle : val a / val b <= pow2 1023).
  { rewrite Hq. apply Qle_trans with (pow2 53); [|apply pow2_le; lia].
    rewrite (pow2_Z 53), <- Zle_Qle by lia. lia. }
  destruct (fdiv64 a b Ha Hb Hpos Hle) as (r & Hrun & Hg & Hr).
  exists r. split; [exact Hrun|]. split; [exact Hg|].
  rewrite <- Hq. apply IsRound_repr; [|exact Hr].
  destruct (repr_int k Hk) as (m & e & Hm & He & Hv).
  exists m, e. split; [exact Hm|]. split; [exact He|]. rewrite Hq. exact Hv.
Qed.

(** The run of [num_batteries] on a night load and a system voltage of 24
    or 48: it returns, with at least one series string. *)
Theorem num_batteries64 (N : spec_float) (v : Z) :
  good N -> val N <= pow2 46 -> v = 24%Z \/ v = 48%Z ->
  exists b : Z, num_batteries N v = Ok b /\ (v / 12 <= b)%Z.
Proof.
  intros HN HNb Hv.
  destruct lit_05 as [Hgc Hvc].
  pose proof (good_nonneg _ HN) as HN0.
  assert (Hv53 : (0 <= v < 2 ^ 53)%Z) by (destruct Hv; subst v; lia).
  destruct (of_int64 v Hv53) as [Hgv Hvv].
  assert (Hv24 : 24 <= inject_Z v)
    by (rewrite <- (Zle_Qle 24); destruct Hv; subst v; lia).
  destruct (of_int64 12 ltac:(lia)) as [Hg12 Hv12].
  change (inject_Z 12) with 12 in Hv12.
  destruct (of_int64 220 ltac:(lia)) as [Hg220 Hv220].
  change (inject_Z 220) with 220 in Hv220.
  (* night / 0.5 *)
  assert (Hx1 : val N / val (lit 0.5) <= pow2 47).
  { rewrite Hvc. apply Qle_shift_div_r; [lra|].
    replace 47%Z with (46 + 1)%Z by reflexivity. rewrite pow2_succ. lra. }
  destruct (fdiv64 N _ HN Hgc ltac:(lra)
              ltac:(apply Qle_trans with (1 := Hx1); apply pow2_le; lia))
    as (b1 & Hrun1 & Hg1 & Hr1).
  assert (Hb1 : val b1 <= pow2 47)
    by (apply (IsRound_le_repr _ _ _ Hr1); [apply repr_pow2; lia | exact Hx1]).
  pose proof (good_nonneg _ Hg1) as Hb10.
  (* ... / sys_v *)
  assert (Hx2 : val b1 / val (of_int v) <= pow2 47).
  { rewrite Hvv. apply Qle_shift_div_r; [lra|].
    pose proof (pow2_pos 47). nra. }
  destruct (fdiv64 b1 _ Hg1 Hgv ltac:(lra)
              ltac:(apply Qle_trans with (1 := Hx2); apply pow2_le; lia))
    as (b2 & Hrun2 & Hg2 & Hr2).
  assert (Hb2 : val b2 <= pow2 47)
    by (apply (IsRound_le_repr _ _ _ Hr2); [apply repr_pow2; lia | exact Hx2]).
  pose proof (good_nonneg _ Hg2) as Hb20.
  (* sys_v / 12 *)
  destruct (fdiv64_exact (of_int v) (of_int 12) (v / 12) Hgv Hg12)
    as (ser & Hrun3 & Hgs & Hvs).
  { lra. }
  { destruct Hv; subst v; cbn; lia. }
  { rewrite Hvv, Hv12. destruct Hv; subst v; reflexivity. }
  (* ... / 220 *)
  assert (Hx4 : val b2 / val (of_int 220) <= pow2 47).
  { rewrite Hv220. apply Qle_shift_div_r; [lra|].
    pose proof (pow2_pos 47). nra. }
  destruct (fdiv64 b2 _ Hg2 Hg220 ltac:(lra)
              ltac:(apply Qle_trans with (1 := Hx4); apply pow2_le; lia))
    as (b3 & Hrun4 & Hg3 & Hr4).
  assert (Hb3 : val b3 <= pow2 47)
    by (apply (IsRound_le_repr _ _ _ Hr4); [apply repr_pow2; lia | exact Hx4]).
  pose proof (good_nonneg _ Hg3) as Hb30.
  destruct (ceil_spec b3 Hg3) as (p & Hceil & Hp1 & Hp2).
  assert (Hp : (0 <= p <= 2 ^ 47)%Z).
  { split.
    - rewrite Zle_Qle. change (inject_Z 0) with 0. lra.
    - assert (H : inject_Z p < pow2 47 + 1) by lra.
      rewrite (pow2_Z 47) in H by lia. change 1 with (inject_Z 1) in H.
      rewrite <- inject_Z_plus, <- Zlt_Qlt in H. lia. }
  destruct (of_int64 p ltac:(lia)) as [Hgp Hvp].
  (* series_string * parallel_strings *)
  assert (Hser : (v / 12 = 2 \/ v / 12 = 4)%Z)
    by (destruct Hv; subst v; [left | right]; reflexivity).
  assert (Hk : (0 <= v / 12 * p < 2 ^ 53)%Z) by (destruct Hser as [-> | ->]; lia).
  assert (Hx5 : val ser * val (of_int p) == inject_Z (v / 12 * p))
    by (rewrite Hvs, Hvp, inject_Z_mult; reflexivity).
  assert (Hx5b : val ser * val (of_int p) <= pow2 1023).
  { rewrite Hx5. apply Qle_trans with (pow2 53); [|apply pow2_le; lia].
    rewrite (pow2_Z 53), <- Zle_Qle by lia. lia. }
  destruct (fmul64 ser _ Hgs Hgp Hx5b) as [Hgm Hrm].
  assert (Hvm : val (fmul ser (of_int p)) == inject_Z (v / 12 * p)).
  { rewrite <- Hx5. apply IsRound_repr; [|exact Hrm].
    destruct (repr_int _ Hk) as (m & e & Hm & He & Hvv').
    exists m, e. split; [exact Hm|]. split; [exact He|].
    rewrite Hx5. exact Hvv'. }
  pose proof (trunc_int _ _ Hgm Hvm) as Htr.
  destruct (of_int64 (v / 12 * p) Hk) as [Hgn Hvn].
  unfold num_batteries.
  rewrite Hrun1. cbn [bind]. rewrite Hrun2. cbn [bind].
  rewrite Hrun3. cbn [bind]. rewrite Hrun4. cbn [bind].
  change (ceil b3) with (B64.ceil b3). rewrite Hceil. cbn [bind].
  change (int_ (fmul ser (of_int p))) with (B64.trunc (fmul ser (of_int p))).
  rewrite Htr. cbn [bind].
  destruct (flt (of_int (v / 12 * p)) ser) eqn:Hflt.
  - exists (v / 12)%Z. split; [|lia].
    change (int_ ser) with (B64.trunc ser). apply trunc_int; assumption.
  - exists (v / 12 * p)%Z. split; [reflexivity|].
    destruct (Z_le_gt_dec (v / 12) (v / 12 * p)) as [|Hgt]; [assumption|].
    exfalso. assert (Hc : flt (of_int (v / 12 * p)) ser = true).
    { apply (proj2 (flt64 _ _ Hgn Hgs)). rewrite Hvn, Hvs, <- Zlt_Qlt. lia. }
    congruence.
Qed.

End Batteries64.

(** ** The whole run in binary64 *)

Section Run64.

(** What the widgets allow: a quantity from 0 to 10 and a float from 0.0 to
    24.0 for the hours of every appliance. *)
Definition within_widgets64 (fm : form spec_float) : Prop :=
  forall n, (0 <= qty_input fm n <= 10)%Z
            /\ good (hrs_input fm n) /\ val (hrs_input fm n) <= 24.

Lemma catalogue_watts_bounded :
  Forall (fun a => (0 < watts a <= 1500)%Z) (flat_map snd APPLIANCES).
Proof.
  cbn. repeat (apply Forall_cons; [cbn; lia|]). apply Forall_nil.
Qed.

Lemma user_items_length (F : Type) (HF : Float F) (fm : form F) :
  (List.length (user_items fm) <= 19)%nat.
Proof.
  unfold user_items. rewrite collect_from_selected. unfold selected.
  rewrite <- catalogue_size, <- (length_map name),
    <- (selections_names APPLIANCES fm), length_map.
  apply filter_length_le.
Qed.

Lemma user_items_wf64 (fm : form spec_float) :
  within_widgets64 fm ->
  Forall wf64 (user_items fm)
  /\ (Z.of_nat (List.length (user_items fm)) <= 2 ^ 20)%Z.
Proof.
  intro Hfm. split.
  - apply Forall_forall. intros it Hin.
    apply in_collect_from in Hin.
    destruct Hin as (category & l & a & Hentry & Ha & Hq & ->).
    assert (Hw : (0 < watts a <= 1500)%Z).
    { apply (proj1 (Forall_forall _ _) catalogue_watts_bounded).
      apply in_flat_map. exists (category, l). split; assumption. }
    destruct (Hfm (name a)) as (Hqty & Hg & Hhi).
    unfold wf64, item_of. cbn [it_watts qty hours].
    split; [nia|]. split; assumption.
  - pose proof (user_items_length _ _ fm). lia.
Qed.

Lemma lit_range (q : Q) :
  (0 <= Qnum q < 2 ^ 53)%Z -> (Zpos (Qden q) < 2 ^ 53)%Z ->
  1 <= q -> q <= 8 ->
  good (lit (F:=spec_float) q)
  /\ 1 <= val (lit (F:=spec_float) q) /\ val (lit (F:=spec_float) q) <= 8.
Proof.
  intros Hn Hd H1 H8. destruct (lit64 q Hn Hd) as [Hg Hr].
  split; [exact Hg|]. split.
  - apply (IsRound_ge_repr _ _ _ Hr); [exact (repr_int 1 ltac:(lia)) | exact H1].
  - apply (IsRound_le_repr _ _ _ Hr); [exact (repr_int 8 ltac:(lia)) | exact H8].
Qed.

Lemma sun_values64 :
  Forall (fun q => good (lit (F:=spec_float) q)
                   /\ 1 <= val (lit (F:=spec_float) q)
                   /\ val (lit (F:=spec_float) q) <= 8) sun_values.
Proof.
  repeat constructor;
    (apply lit_range; [cbn; lia | cbn; lia | vm_compute; discriminate
                      | vm_compute; discriminate]).
Qed.

Lemma sun_hours64 (lower : string -> string)
    (geocode : string -> result (option (Location spec_float)))
    (city : string) :
  good (fst (get_sun_hours lower geocode city))
  /\ 1 <= val (fst (get_sun_hours lower geocode city))
  /\ val (fst (get_sun_hours lower geocode city)) <= 8.
Proof.
  destruct (get_sun_hours_value lower geocode city) as (q & Hin & ->).
  exact (proj1 (Forall_forall _ _) sun_values64 q Hin).
Qed.

Lemma inverter_voltage_any (F : Type) (HF : Float F) (peak : Z) :
  snd (inverter (F:=F) peak) = 24%Z \/ snd (inverter (F:=F) peak) = 48%Z.
Proof.
  unfold inverter.
  destruct (flt (req_inv_watts peak) (of_int 3000)); [left; reflexivity|].
  destruct (flt (req_inv_watts peak) (of_int 5000)); right; reflexivity.
Qed.

Lemma analyse_gen (F : Type) (HF : Float F) (sun_hours : F)
    (mode : OperatingMode) (items : list (item F)) (r : report F) :
  analyse sun_hours mode items = Ok r ->
  gen_wh r = generation (panels r) sun_hours.
Proof.
  unfold analyse.
  destruct (num_panels (total_daily_wh (load_analysis mode items)) sun_hours)
    as [n_panels|e]; cbn [bind]; [|discriminate].
  destruct (inverter (peak_load_watts (load_analysis mode items)))
    as [[i_name i_price] v].
  destruct (num_batteries (night_load_wh (load_analysis mode items)) v)
    as [n_batts|e]; cbn [bind]; [|discriminate].
  intros [= <-]. reflexivity.
Qed.

(** A run of the engine on items the widgets allow, under sun hours the
    resolver returns: it raises nothing. *)
Theorem analyse64 (sun : spec_float) (mode : OperatingMode)
    (items : list (item spec_float)) :
  good sun -> 1 <= val sun -> val sun <= 8 ->
  Forall wf64 items -> (Z.of_nat (List.length items) <= 2 ^ 20)%Z ->
  exists r, analyse sun mode items = Ok r.
Proof.
  intros Hs Hs1 Hs8 Hwf Hlen.
  destruct (total64 mode items Hwf Hlen) as (Hgt & Htb & _).
  destruct (night64 mode items Hwf Hlen) as (Hgv & Hvb & _).
  destruct (num_panels64 _ sun Hgt Htb Hs Hs1 Hs8)
    as (units & n & Hrun & _).
  unfold analyse. rewrite Hrun. cbn [bind].
  pose proof (inverter_voltage_any _ _
                (peak_load_watts (load_analysis mode items))) as Hv.
  destruct (inverter (peak_load_watts (load_analysis mode items)))
    as [[i_name i_price] v].
  cbn [snd] in Hv.
  destruct (num_batteries64 _ v Hgv Hvb Hv) as (b & Hb & _).
  rewrite Hb. cbn [bind]. eexists. reflexivity.
Qed.

End Run64.

(** * The claims about the float computations, in binary64 *)

Section Claims64.

(** [dailyEnergyWh = ratedWatts x quantity x hoursPerDay], on the values
    the floats hold. *)
Definition dailyEnergy64 (it : item spec_float) : Q :=
  inject_Z (it_watts it) * inject_Z (qty it) * val (hours it).

(** The night share of the specification: nothing for the two heavy
    categories in SmartSaver mode, 60 percent of the daily energy
    otherwise. *)
Definition nightEnergy64 (mode : OperatingMode) (it : item spec_float) : Q :=
  match mode with
  | SmartSaver =>
      if (cat it =? KitchenCooling)%string || (cat it =? HeavyDuty)%string
      then 0
      else dailyEnergy64 it * 0.6
  | Reliability => dailyEnergy64 it * 0.6
  end.

Lemma dailyEnergy64_exact (it : item spec_float) :
  dailyEnergy64 it == exact_use it.
Proof.
  unfold dailyEnergy64, exact_use. rewrite inject_Z_mult. reflexivity.
Qed.

Lemma nightEnergy64_exact (mode : OperatingMode)
    (items : list (item spec_float)) :
  Qsum (map (nightEnergy64 mode) items) == exact_night mode items.
Proof.
  unfold exact_night.
  induction items as [|it items IH]; [reflexivity|].
  cbn [map filter]. rewrite Qsum_cons, IH.
  assert (Hone : nightEnergy64 mode it
                 == if counted mode it then exact_use it * 0.6 else 0).
  { unfold nightEnergy64, counted, is_heavy. cbn [existsb].
    rewrite orb_false_r, (orb_comm (cat it =? HeavyDuty)%string).
    destruct mode.
    - change (smart Reliability) with false. cbn [andb negb].
      rewrite dailyEnergy64_exact. reflexivity.
    - change (smart SmartSaver) with true. cbn [andb].
      destruct ((cat it =? KitchenCooling)%string
                || (cat it =? HeavyDuty)%string); cbn [negb];
        [reflexivity | rewrite dailyEnergy64_exact; reflexivity]. }
  rewrite Hone. destruct (counted mode it).
  - cbn [map]. rewrite Qsum_cons. reflexivity.
  - ring.
Qed.

Lemma peak_sum (F : Type) (HF : Float F) (mode : OperatingMode)
    (items : list (item F)) :
  peak_load_watts (load_analysis mode items)
  = Zsum (map (fun it => it_watts it * qty it)%Z items).
Proof.
  unfold load_analysis. rewrite peak_fold_any. cbn [load_init peak_load_watts].
  assert (H : forall acc,
             fold_left (fun p it => (p + it_watts it * qty it)%Z) items acc
             = (acc + Zsum (map (fun it => it_watts it * qty it)%Z items))%Z).
  { induction items as [|it l IH]; intro acc; cbn [fold_left map].
    - cbn. lia.
    - rewrite IH, Zsum_cons. lia. }
  rewrite H. lia.
Qed.

(** C1. In binary64, for every mode and whatever the widgets hold (a
    quantity from 0 to 10 and hours from 0.0 to 24.0 for each appliance),
    the load analysis runs over the selections with quantity > 0 and gives:
    a peak power equal to the sum of ratedWatts x quantity; a total daily
    energy equal to the sum of ratedWatts x quantity x hoursPerDay up to
    [n + 1] roundings, [n] the number of those selections; and a night
    energy equal to the sum of 0.6 x the daily energy of the items counted
    (all of them, or in SmartSaver mode those outside KitchenCooling and
    HeavyDuty) up to [n + 3] roundings and [n] underflows.  A rounding
    changes a value by the factor [1 + 2^-52] at most, an underflow by
    [2^-1074] at most. *)
Theorem C1_load_sums (fm : form spec_float) (mode : OperatingMode) :
  within_widgets64 fm ->
  let s := load_analysis mode (user_items fm) in
  let sel := filter (fun it => (0 <? qty it)%Z) (selections APPLIANCES fm) in
  let n := List.length sel in
  let total := Qsum (map dailyEnergy64 sel) in
  let night := Qsum (map (nightEnergy64 mode) sel) in
  user_items fm = sel
  /\ peak_load_watts s = Zsum (map (fun it => it_watts it * qty it)%Z sel)
  /\ total <= val (total_daily_wh s) * rel_tol (n + 1)
  /\ val (total_daily_wh s) <= total * rel_tol (n + 1)
  /\ night <= val (night_load_wh s) * rel_tol (n + 3) + abs_tol n
  /\ val (night_load_wh s) <= night * rel_tol (n + 3) + abs_tol n.
Proof.
  intros Hfm s sel n total night.
  assert (Hsel : user_items fm = sel)
    by (unfold user_items; apply collect_from_selected).
  subst s. rewrite Hsel.
  destruct (user_items_wf64 fm Hfm) as [Hwf Hlen]. rewrite Hsel in Hwf, Hlen.
  fold n in Hlen.
  destruct (total64 mode sel Hwf Hlen) as (Hgt & _ & [Ht1 Ht2]).
  destruct (night64 mode sel Hwf Hlen) as (Hgv & _ & Hv1 & Hv2).
  fold n in Ht1, Ht2, Hv1, Hv2.
  pose proof (bp_rel_tol (n + 1) ltac:(lia)) as Hb1.
  pose proof (bp_rel_tol (n + 3) ltac:(lia)) as Hb3.
  pose proof (good_nonneg _ Hgt) as Ht0. pose proof (good_nonneg _ Hgv) as Hv0.
  assert (HT : total == exact_total sel).
  { unfold total, exact_total. apply Qsum_ext. exact dailyEnergy64_exact. }
  assert (HN : night == exact_night mode sel) by apply nightEnergy64_exact.
  assert (HT0 : 0 <= exact_total sel).
  { apply Qsum_nonneg. eapply Forall_impl; [|exact Hwf].
    intros it Hit. exact (exact_use_nonneg it Hit). }
  pose proof (exact_night_nonneg mode sel Hwf) as HN0.
  split; [reflexivity|]. split; [apply peak_sum|].
  rewrite HT, HN.
  revert Ht1 Ht2 Hv1 Hv2 Hb1 Hb3 Ht0 Hv0 HT0 HN0.
  generalize (bp (n + 1)), (bp (n + 3)), (rel_tol (n + 1)), (rel_tol (n + 3)),
    (abs_tol n), (exact_total sel), (exact_night mode sel),
    (val (total_daily_wh (load_analysis mode sel))),
    (val (night_load_wh (load_analysis mode sel))).
  intros b1 b3 r1 r3 a S N t v Ht1 Ht2 Hv1 Hv2 Hb1 Hb3 Ht0 Hv0 HT0 HN0.
  repeat split; nra.
Qed.

Lemma Qceiling_least (x : Q) (n : Z) : x <= inject_Z n -> (Qceiling x <= n)%Z.
Proof.
  intro H. pose proof (Qceiling_lt x) as Hc.
  assert (Hlt : inject_Z (Qceiling x - 1) < inject_Z n) by lra.
  rewrite <- Zlt_Qlt in Hlt. lia.
Qed.

Lemma Qceiling_above (x : Q) (n : Z) :
  inject_Z n - 1 < x -> (n <= Qceiling x)%Z.
Proof.
  intro H. pose proof (Qle_ceiling x) as Hc.
  assert (Hlt : inject_Z n < inject_Z (Qceiling x + 1)).
  { rewrite inject_Z_plus. change (inject_Z 1) with 1. lra. }
  rewrite <- Zlt_Qlt in Hlt. lia.
Qed.

Lemma rel_tol_ge_1 (k : nat) : 1 <= rel_tol k.
Proof.
  unfold rel_tol. pose proof u_pos.
  assert (0 <= inject_Z (Z.of_nat k)) by (rewrite <- (Zle_Qle 0); lia).
  nra.
Qed.

(** C2. In binary64, for a total daily energy up to [2^46] Wh and sun hours
    from 1 to 8 (the resolver returns 3.8 to 6.0), the sizing returns and
    raises nothing.  Its panel count is 0 for a total of 0; and for a total
    of [2^-1000] Wh or more it is the ceiling of the required number of
    units ((total / 0.7) / (sun x 1000)) x 1000 / 500 taken up to six
    roundings: between the ceiling of that number divided by [1 + 12 u] and
    the ceiling of that number times [1 + 12 u], [u = 2^-53], so that
    panelCount x 500 W covers the required capacity divided by [1 + 12 u].
    For a total of 300 and sun hours 4.4 the count is 1. *)
Theorem C2_panel_count (total sun : spec_float) :
  good total -> val total <= pow2 46 ->
  good sun -> 1 <= val sun -> val sun <= 8 ->
  let required_kw := (val total / 0.7) / (val sun * 1000) in
  let units := required_kw * 1000 / 500 in
  exists n : Z,
    num_panels total sun = Ok n
    /\ (val total == 0 -> n = 0%Z)
    /\ (pow2 (-1000) <= val total ->
        (Qceiling (units / rel_tol 6) <= n <= Qceiling (units * rel_tol 6))%Z
        /\ required_kw * 1000 / rel_tol 6 <= inject_Z n * 500)
    /\ num_panels (F:=spec_float) (of_int 300) (lit 4.4) = Ok 1%Z.
Proof.
  intros Hg Hb Hs Hs1 Hs8 required_kw units.
  destruct (num_panels64 total sun Hg Hb Hs Hs1 Hs8)
    as (fu & n & Hrun & Hgu & Hn1 & Hn2 & _ & Hzero & Hnorm).
  exists n. split; [exact Hrun|]. split; [|split].
  - intro Hz. specialize (Hzero Hz). rewrite Hzero in Hn1, Hn2.
    assert (H1 : inject_Z n < inject_Z 1) by (change (inject_Z 1) with 1; lra).
    assert (H0 : inject_Z 0 <= inject_Z n)
      by (change (inject_Z 0) with 0; lra).
    rewrite <- Zlt_Qlt in H1. rewrite <- Zle_Qle in H0. lia.
  - intro Hn. destruct (Hnorm Hn) as [Hpos [Hw1 Hw2]].
    change (required_units (val total) (val sun)) with units in Hw1, Hw2.
    pose proof (bp_rel_tol 6 ltac:(cbn; lia)) as Hbp.
    pose proof (rel_tol_ge_1 6) as Hr1. pose proof (bp_ge_1 6) as Hb1.
    assert (Hr0 : 0 < rel_tol 6) by lra.
    assert (Hn0 : 0 <= inject_Z n) by lra.
    assert (Hlow : units / rel_tol 6 <= inject_Z n).
    { apply Qle_shift_div_r; [exact Hr0|].
      apply Qle_trans with (val fu * bp 6); [exact Hw1|].
      apply Qmult_le_compat_nonneg; split; lra. }
    assert (Hu0 : 0 <= units).
    { destruct (Qlt_le_dec units 0) as [Hneg|]; [exfalso; nra | assumption]. }
    split; [split|].
    + apply Qceiling_least. exact Hlow.
    + apply Qceiling_above.
      apply Qlt_le_trans with (val fu); [exact Hn1|].
      apply Qle_trans with (units * bp 6); [exact Hw2 | nra].
    + apply Qle_trans with (units / rel_tol 6 * 500); [|lra].
      unfold units. apply Qle_lteq. right. field. lra.
  - vm_compute. reflexivity.
Qed.

(** C2, counterexample.  For a total of 10500 Wh (seven desktop computers
    at the preset six hours) under the 6.0 sun hours of Sokoto, both held
    exactly by their floats, the required number of units is 5 and its
    ceiling is 5; the program, in binary64, returns 6 panels. *)
Lemma C2_binary64_extra_panel :
  val (of_int (F:=spec_float) 10500) == 10500
  /\ val (lit (F:=spec_float) 6.0) == 6
  /\ Qceiling (((10500 / 0.7) / (6 * 1000)) * 1000 / 500) = 5%Z
  /\ num_panels (F:=spec_float) (of_int 10500) (lit 6.0) = Ok 6%Z.
Proof. vm_compute. repeat split. Qed.

Lemma rel_tol_mono (j k : nat) : (j <= k)%nat -> rel_tol j <= rel_tol k.
Proof.
  intro H. unfold rel_tol. pose proof u_pos.
  assert (inject_Z (Z.of_nat j) <= inject_Z (Z.of_nat k))
    by (rewrite <- Zle_Qle; lia).
  nra.
Qed.

Lemma rel_tol_64 : rel_tol 64 == 1 + pow2 (-46).
Proof.
  unfold rel_tol, u. change (inject_Z (Z.of_nat 64)) with 64.
  replace (-46)%Z with (7 + -53)%Z by reflexivity.
  rewrite pow2_add, (pow2_Z 7) by lia. change (inject_Z (2 ^ 7)) with 128.
  ring.
Qed.

Lemma abs_tol_32 (k : nat) : (k <= 32)%nat -> abs_tol k <= pow2 (-1069).
Proof.
  intro H. unfold abs_tol.
  replace (-1069)%Z with (5 + -1074)%Z by reflexivity.
  rewrite pow2_add, (pow2_Z 5) by lia. change (inject_Z (2 ^ 5)) with 32.
  apply Qmult_le_compat_r; [|apply Qlt_le_weak, pow2_pos].
  rewrite <- (Zle_Qle _ 32). lia.
Qed.

(** C5. In binary64, for every sequence of up to [2^20] items the widgets
    and the catalogue allow (watts x quantity up to [2^20], hours a float
    from 0 to 24) and every operating mode: the night load never exceeds
    the total; it is at most 0.6 x the total up to [2 n + 4] roundings and
    [n] underflows, [n] the number of items; and so, for up to 30 items (the
    catalogue has 19), at most 0.6 x the total x (1 + 2^-46) + 2^-1069. *)
Theorem C5_night_bound (mode : OperatingMode)
    (items : list (item spec_float)) :
  Forall wf64 items -> (Z.of_nat (List.length items) <= 2 ^ 20)%Z ->
  let s := load_analysis mode items in
  let n := List.length items in
  val (night_load_wh s) <= val (total_daily_wh s)
  /\ val (night_load_wh s)
     <= val (total_daily_wh s) * 0.6 * rel_tol (2 * n + 4) + abs_tol n
  /\ ((n <= 30)%nat ->
      val (night_load_wh s)
      <= val (total_daily_wh s) * 0.6 * (1 + pow2 (-46)) + pow2 (-1069)).
Proof.
  intros Hwf Hlen s n. subst s.
  pose proof (night_bound64 mode items Hwf Hlen) as Hb. fold n in Hb.
  split; [exact (night_le_total64 mode items Hwf Hlen)|].
  split; [exact Hb|].
  intro Hn.
  destruct (total64 mode items Hwf Hlen) as (Hgt & _).
  pose proof (good_nonneg _ Hgt) as Ht0.
  pose proof (rel_tol_mono (2 * n + 4) 64 ltac:(lia)) as Hr.
  rewrite rel_tol_64 in Hr.
  pose proof (abs_tol_32 n ltac:(lia)) as Ha.
  pose proof (rel_tol_ge_1 (2 * n + 4)) as Hr1.
  revert Hb Hr Ha Hr1 Ht0.
  generalize (rel_tol (2 * n + 4)), (abs_tol n), (pow2 (-46)), (pow2 (-1069)),
    (val (total_daily_wh (load_analysis mode items))),
    (val (night_load_wh (load_analysis mode items))).
  intros r a p q t v Hb Hr Ha Hr1 Ht0.
  apply Qle_trans with (1 := Hb).
  assert (H0 : 0 <= t * 0.6) by lra.
  assert (t * 0.6 * r <= t * 0.6 * (1 + p)) by nra.
  lra.
Qed.

Lemma dailyEnergy64_nonneg (it : item spec_float) :
  wf64 it -> 0 <= dailyEnergy64 it.
Proof.
  intro Hit. rewrite dailyEnergy64_exact. exact (exact_use_nonneg it Hit).
Qed.

Lemma nightEnergy64_modes (it : item spec_float) :
  wf64 it -> nightEnergy64 SmartSaver it <= nightEnergy64 Reliability it.
Proof.
  intro Hit. pose proof (dailyEnergy64_nonneg it Hit).
  unfold nightEnergy64.
  destruct ((cat it =? KitchenCooling)%string || (cat it =? HeavyDuty)%string);
    lra.
Qed.

(** C6. In binary64, for every sequence of up to [2^20] items the widgets
    and the catalogue allow, the night load of SmartSaver mode is at most
    that of Reliability mode (the program's own comparison [<] of the two
    agrees).  The sums of the specification, taken without rounding, differ
    strictly when an item of category KitchenCooling or HeavyDuty has
    positive quantity, watts and hours; the floats need not. *)
Theorem C6_smart_saver_night (items : list (item spec_float)) :
  Forall wf64 items -> (Z.of_nat (List.length items) <= 2 ^ 20)%Z ->
  let saver := night_load_wh (load_analysis SmartSaver items) in
  let reliable := night_load_wh (load_analysis Reliability items) in
  val saver <= val reliable
  /\ flt reliable saver = false
  /\ (Exists (fun it => (cat it = KitchenCooling \/ cat it = HeavyDuty)
                        /\ (0 < qty it)%Z /\ (0 < it_watts it)%Z
                        /\ 0 < val (hours it)) items ->
      Qsum (map (nightEnergy64 SmartSaver) items)
      < Qsum (map (nightEnergy64 Reliability) items)).
Proof.
  intros Hwf Hlen saver reliable. subst saver reliable.
  pose proof (night_modes64 items Hwf Hlen) as Hle.
  destruct (night64 SmartSaver items Hwf Hlen) as (Hgs & _).
  destruct (night64 Reliability items Hwf Hlen) as (Hgr & _).
  split; [exact Hle|]. split; [exact (flt64_false _ _ Hgr Hgs Hle)|].
  intro Hex. apply Qsum_lt.
  - eapply Forall_impl; [|exact Hwf]. exact nightEnergy64_modes.
  - eapply Exists_impl; [|exact Hex].
    intros it (Hcat & Hq & Hw & Hh). unfold nightEnergy64.
    assert (Hc : (cat it =? KitchenCooling)%string
                 || (cat it =? HeavyDuty)%string = true).
    { apply orb_true_iff. rewrite !String.eqb_eq. exact Hcat. }
    rewrite Hc. unfold dailyEnergy64.
    assert (0 < inject_Z (it_watts it)) by (rewrite <- (Zlt_Qlt 0); exact Hw).
    assert (0 < inject_Z (qty it)) by (rewrite <- (Zlt_Qlt 0); exact Hq).
    assert (0 < inject_Z (it_watts it) * inject_Z (qty it)) by nra.
    nra.
Qed.

(** C10. In binary64, for a total daily energy up to [2^46] Wh and sun
    hours from 1 to 8 (the resolver returns 3.8 to 6.0), the sizing returns
    a panel count that is not negative, and at least 1 unless the total is
    below [2^-1000] Wh; and with at least one panel the generation
    panelCount x 500 x sunHours x 0.75 is not below the total, so the test
    [gen_wh < total_daily_wh] of the warning is false. *)
Theorem C10_energy_balance (total sun : spec_float) :
  good total -> val total <= pow2 46 ->
  good sun -> 1 <= val sun -> val sun <= 8 ->
  exists n : Z,
    num_panels total sun = Ok n
    /\ (0 <= n)%Z
    /\ (pow2 (-1000) <= val total -> (1 <= n)%Z)
    /\ ((1 <= n)%Z ->
        val total <= val (generation n sun)
        /\ flt (generation n sun) total = false).
Proof.
  intros Hg Hb Hs Hs1 Hs8.
  destruct (num_panels64 total sun Hg Hb Hs Hs1 Hs8) as (fu & n & Hrun & _).
  destruct (energy_balance64 total sun Hg Hb Hs Hs1 Hs8 n Hrun)
    as (Hn & Hgg & Hpos & Hcover).
  exists n. split; [exact Hrun|]. split; [lia|]. split; [exact Hpos|].
  intro Hn1. specialize (Hcover Hn1). split; [exact Hcover|].
  exact (flt64_false _ _ Hgg Hg Hcover).
Qed.

(** X13. The run never raises on what the widgets allow, in binary64:
    whatever [str.lower], the city, the geocoder and the mode, either
    nothing is selected and the outcome is the validation message, or the
    outcome is a report with a panel count >= 0, a system voltage of 24 or
    48, at least one full series string of batteries and a total cost of at
    least 1,480,000 (the 3kVA inverter, the base installation and two
    batteries); the report carries the under-provision warning only with a
    panel count of 0, which takes a total below [2^-1000] Wh. *)
Theorem run_never_raises (lower : string -> string)
    (geocode : string -> result (option (Location spec_float)))
    (city : string) (mode : OperatingMode) (fm : form spec_float) :
  within_widgets64 fm ->
  (user_items fm = []
   /\ app lower geocode city mode fm
      = Ok (ValidationError "Please select at least one appliance."))
  \/ (user_items fm <> []
      /\ exists r,
           app lower geocode city mode fm = Ok (Results r)
           /\ (0 <= panels r)%Z
           /\ (sys_v r = 24 \/ sys_v r = 48)%Z
           /\ (sys_v r / 12 <= batteries r)%Z
           /\ (1480000 <= total_cost r)%Z
           /\ (under_provision r = true ->
               panels r = 0%Z
               /\ val (total_daily_wh (summary r)) < pow2 (-1000))).
Proof.
  intro Hfm. unfold app.
  destruct (sun_hours64 lower geocode city) as (Hs & Hs1 & Hs8).
  destruct (get_sun_hours lower geocode city) as [sun msg].
  cbn [fst] in Hs, Hs1, Hs8.
  destruct (user_items_wf64 fm Hfm) as [Hwf Hlen].
  destruct (user_items fm) as [|it items] eqn:Hitems.
  - left. split; reflexivity.
  - right. split; [discriminate|].
    destruct (analyse64 sun mode (it :: items) Hs Hs1 Hs8 Hwf Hlen)
      as [r Hrun].
    exists r. unfold run_analysis. rewrite Hrun. cbn [bind].
    split; [reflexivity|].
    destruct (analyse_report _ _ _ r Hrun)
      as (Hsum & Hpanels & Hbatts & Hoffer & Hcp & Hcb & Hcost & Hwarn).
    pose proof (analyse_gen _ _ _ _ _ r Hrun) as Hgen.
    destruct (total64 mode (it :: items) Hwf Hlen) as (Hgt & Htb & _).
    destruct (night64 mode (it :: items) Hwf Hlen) as (Hgv & Hvb & _).
    rewrite <- Hsum in Hgt, Htb, Hgv, Hvb.
    destruct (energy_balance64 _ sun Hgt Htb Hs Hs1 Hs8 _ Hpanels)
      as (Hn & Hgg & Hpos & Hcover).
    assert (Hv : (sys_v r = 24 \/ sys_v r = 48)%Z).
    { unfold offers in Hoffer. cbn [In] in Hoffer.
      destruct Hoffer as [E | [E | [E | []]]]; injection E as _ _ Hv _;
        rewrite <- Hv; [left | right | right]; reflexivity. }
    destruct (num_batteries64 _ (sys_v r) Hgv Hvb Hv) as (b & Hb & Hbs).
    rewrite Hbatts in Hb. injection Hb as <-.
    split; [lia|]. split; [exact Hv|]. split; [exact Hbs|]. split.
    + rewrite Hcost, Hcp, Hcb.
      unfold PRICES.panel_500w, PRICES.battery_220ah.
      unfold offers in Hoffer. cbn [In] in Hoffer.
      unfold PRICES.inverter_3kva, PRICES.inverter_5kva,
        PRICES.inverter_10kva, PRICES.install_base, PRICES.install_heavy
        in Hoffer.
      destruct Hoffer as [E | [E | [E | []]]];
        injection E as _ Hprice Hv' Hinst;
        rewrite <- Hprice, <- Hinst; rewrite <- Hv' in Hbs;
        [change (24 / 12)%Z with 2%Z in Hbs
        | change (48 / 12)%Z with 4%Z in Hbs
        | change (48 / 12)%Z with 4%Z in Hbs]; lia.
    + intro Hup. rewrite Hwarn, Hgen in Hup.
      assert (Hp0 : panels r = 0%Z).
      { destruct (Z.eq_dec (panels r) 0) as [|Hne]; [assumption|exfalso].
        assert (H1 : (1 <= panels r)%Z) by lia.
        specialize (Hcover H1).
        rewrite (flt64_false _ _ Hgg Hgt Hcover) in Hup. discriminate Hup. }
      split; [exact Hp0|].
      destruct (Qlt_le_dec (val (total_daily_wh (summary r))) (pow2 (-1000)))
        as [|Hge]; [assumption|exfalso].
      specialize (Hpos Hge). lia.
Qed.

End Claims64.

(** ** Counterexamples and evaluations, in binary64 *)

Section Evaluations64.

(** Four standing fans for 16.1 hours and three laptops for 4.4 hours. *)
Definition fans_and_laptops : form spec_float :=
  mk_form
    (fun n => if (n =? "Standing Fan")%string then 4%Z
              else if (n =? "Laptop (Mac/HP)")%string then 3%Z else 0%Z)
    (fun n => if (n =? "Standing Fan")%string then lit 16.1 else lit 4.4).

(** Ten desktop computers around the clock and a small fridge for 1e-14
    hours. *)
Definition pcs_and_fridge : form spec_float :=
  mk_form
    (fun n => if (n =? "Desktop PC")%string then 10%Z
              else if (n =? "Small Fridge")%string then 1%Z else 0%Z)
    (fun n => if (n =? "Desktop PC")%string then lit 24.0
              else lit (1 # 100000000000000)).

(** One LED bulb for [2^-1074] hours, the smallest positive float. *)
Definition one_bulb_briefly : form spec_float :=
  mk_form (fun n => if (n =? "LED Bulb")%string then 1%Z else 0%Z)
          (fun _ => S754_finite false 1 (-1074)).

(** C1, counterexample.  Four standing fans for 16.1 hours and three
    laptops for 4.4 hours, Reliability mode, in binary64: the total the
    program computes is not the sum of ratedWatts x quantity x hoursPerDay
    of the hours the floats hold, and its night load is not 0.6 times that
    sum; the total is 4400.000000000001, one unit in the last place above
    the float 4400.0, the night load 2640.0000000000005, and the battery
    count that follows is 4, where a night load of 2640.0 gives 2. *)
Lemma C1_binary64_sums_inexact :
  let items := user_items fans_and_laptops in
  let s := load_analysis Reliability items in
  ~ val (total_daily_wh s) == Qsum (map dailyEnergy64 items)
  /\ ~ val (night_load_wh s)
       == Qsum (map (nightEnergy64 Reliability) items)
  /\ total_daily_wh s = S754_finite false 4837851162214401 (-40)
  /\ of_int (F:=spec_float) 4400 = S754_finite false 4837851162214400 (-40)
  /\ night_load_wh s = S754_finite false 5805421394657281 (-41)
  /\ of_int (F:=spec_float) 2640 = S754_finite false 5805421394657280 (-41)
  /\ num_batteries (night_load_wh s) 24 = Ok 4%Z
  /\ num_batteries (of_int (F:=spec_float) 2640) 24 = Ok 2%Z.
Proof.
  cbv zeta. split; [|split].
  - intro H. vm_compute in H. discriminate H.
  - intro H. vm_compute in H. discriminate H.
  - vm_compute. repeat split.
Qed.

(** C6, counterexample.  Ten desktop computers around the clock and a small
    fridge (category Kitchen & Cooling, quantity 1, 120 W) for 1e-14 hours,
    in binary64: the fridge adds too little to change the sum, and the
    night load is 36000.0 in both modes. *)
Lemma C6_binary64_not_strict :
  let items := user_items pcs_and_fridge in
  Exists (fun it => cat it = KitchenCooling
                    /\ (0 < qty it)%Z /\ (0 < it_watts it)%Z
                    /\ 0 < val (hours it)) items
  /\ night_load_wh (load_analysis SmartSaver items)
     = night_load_wh (load_analysis Reliability items)
  /\ night_load_wh (load_analysis Reliability items) = of_int 36000.
Proof.
  cbv zeta. split; [|split].
  - apply Exists_cons_tl. apply Exists_cons_hd.
    split; [reflexivity|]. split; [reflexivity|]. split; reflexivity.
  - vm_compute. reflexivity.
  - vm_compute. reflexivity.
Qed.

(** C10, counterexample.  One LED bulb for [2^-1074] hours under the 4.4
    sun hours of Lagos, in binary64: the total is positive, the panel count
    is 0, the generation is 0.0 and the warning is shown. *)
Lemma C10_binary64_warning_fires :
  exists r : report spec_float,
    analyse (lit 4.4) Reliability (user_items one_bulb_briefly) = Ok r
    /\ 0 < val (total_daily_wh (summary r))
    /\ panels r = 0%Z
    /\ gen_wh r = S754_zero false
    /\ under_provision r = true.
Proof. eexists. vm_compute. repeat split. Qed.

Lemma fans_and_laptops_within_widgets : within_widgets64 fans_and_laptops.
Proof.
  intro n. cbn [qty_input hrs_input fans_and_laptops].
  destruct (n =? "Standing Fan")%string.
  - split; [lia|]. split; [vm_compute; reflexivity | vm_compute; discriminate].
  - destruct (n =? "Laptop (Mac/HP)")%string;
      (split; [lia|]; split;
       [vm_compute; reflexivity | vm_compute; discriminate]).
Defined.

Lemma pcs_and_fridge_within_widgets : within_widgets64 pcs_and_fridge.
Proof.
  intro n. cbn [qty_input hrs_input pcs_and_fridge].
  destruct (n =? "Desktop PC")%string.
  - split; [lia|]. split; [vm_compute; reflexivity | vm_compute; discriminate].
  - destruct (n =? "Small Fridge")%string;
      (split; [lia|]; split;
       [vm_compute; reflexivity | vm_compute; discriminate]).
Defined.

Lemma one_bulb_briefly_within_widgets : within_widgets64 one_bulb_briefly.
Proof.
  intro n. cbn [qty_input hrs_input one_bulb_briefly].
  destruct (n =? "LED Bulb")%string;
    (split; [lia|]; split;
     [vm_compute; reflexivity | vm_compute; discriminate]).
Defined.

Lemma C1_load_sums_witness :
  let items := user_items fans_and_laptops in
  val (total_daily_wh (load_analysis Reliability items))
  <= Qsum (map dailyEnergy64 items) * rel_tol 3.
Proof.
  pose proof (C1_load_sums fans_and_laptops Reliability
                fans_and_laptops_within_widgets) as H.
  cbv zeta in H. destruct H as (_ & _ & _ & Hup & _). exact Hup.
Defined.

Lemma C2_panel_count_witness :
  exists n : Z,
    num_panels (F:=spec_float) (of_int 10500) (lit 6.0) = Ok n
    /\ (Qceiling (((10500 / 0.7) / (6 * 1000)) * 1000 / 500 / rel_tol 6) <= n
        <= Qceiling (((10500 / 0.7) / (6 * 1000)) * 1000 / 500 * rel_tol 6))%Z.
Proof.
  destruct (C2_panel_count (of_int 10500) (lit 6.0))
    as (n & Hrun & _ & Hn & _).
  - vm_compute. reflexivity.
  - vm_compute. discriminate.
  - vm_compute. reflexivity.
  - vm_compute. discriminate.
  - vm_compute. discriminate.
  - exists n. split; [exact Hrun|].
    assert (Hsmall : pow2 (-1000) <= val (of_int (F:=spec_float) 10500))
      by (vm_compute; discriminate).
    exact (proj1 (Hn Hsmall)).
Defined.

Lemma bulbs_and_routers_within_widgets :
  within_widgets64 (bulbs_and_routers (F:=spec_float)).
Proof.
  intro n. split; [|split].
  - cbn [qty_input bulbs_and_routers].
    destruct (n =? "LED Bulb")%string; [lia|].
    destruct (n =? "Router/WiFi")%string; lia.
  - cbn [hrs_input bulbs_and_routers]. unfold preset_hours.
    destruct (find _ _) as [a|]; [|vm_compute; reflexivity].
    unfold def_hr. destruct (1000 <? watts a)%Z; vm_compute; reflexivity.
  - cbn [hrs_input bulbs_and_routers]. unfold preset_hours.
    destruct (find _ _) as [a|]; [|vm_compute; discriminate].
    unfold def_hr. destruct (1000 <? watts a)%Z; vm_compute; discriminate.
Defined.

Lemma C5_night_bound_witness :
  let s := load_analysis Reliability
             (user_items (bulbs_and_routers (F:=spec_float))) in
  val (night_load_wh s)
  <= val (total_daily_wh s) * 0.6 * (1 + pow2 (-46)) + pow2 (-1069).
Proof.
  destruct (user_items_wf64 _ bulbs_and_routers_within_widgets)
    as [Hwf Hlen].
  destruct (C5_night_bound Reliability _ Hwf Hlen) as (_ & _ & Hb).
  apply Hb. vm_compute. lia.
Defined.

Lemma C6_smart_saver_night_witness :
  let items := user_items pcs_and_fridge in
  val (night_load_wh (load_analysis SmartSaver items))
  <= val (night_load_wh (load_analysis Reliability items)).
Proof.
  destruct (user_items_wf64 _ pcs_and_fridge_within_widgets) as [Hwf Hlen].
  destruct (C6_smart_saver_night _ Hwf Hlen) as (Hle & _). exact Hle.
Defined.

Lemma C10_energy_balance_witness :
  exists n : Z,
    num_panels (F:=spec_float) (of_int 768) (lit 4.6) = Ok n
    /\ flt (generation n (lit 4.6)) (of_int 768) = false.
Proof.
  destruct (C10_energy_balance (of_int 768) (lit 4.6))
    as (n & Hrun & _ & Hpos & Hcover).
  - vm_compute. reflexivity.
  - vm_compute. discriminate.
  - vm_compute. reflexivity.
  - vm_compute. discriminate.
  - vm_compute. discriminate.
  - exists n. split; [exact Hrun|].
    apply Hcover. apply Hpos. vm_compute. discriminate.
Defined.

Lemma run_never_raises_witness :
  exists r : report spec_float,
    app ascii_lower unreachable "Ibadan" Reliability one_bulb_briefly
    = Ok (Results r)
    /\ (sys_v r / 12 <= batteries r)%Z.
Proof.
  destruct (run_never_raises ascii_lower unreachable "Ibadan" Reliability
              one_bulb_briefly one_bulb_briefly_within_widgets)
    as [[Hnil _] | [_ (r & Hrun & _ & _ & Hb & _)]].
  - discriminate Hnil.
  - exists r. split; [exact Hrun | exact Hb].
Defined.

End Evaluations64.
